(** * Attention layers in [common_attention.py]

    A shallow embedding of
    [TensorFlow/nlp/transformer/layers/common_attention.py]: the gating,
    dispatch, per-bucket attention and configuration checks of the sparse
    attention paths, and the padding masks, attention biases, head splitting,
    relative positions, decoding order, block padding and timing signals of
    the dense ones.

    Conventions.
    - Python exceptions are values of [exn]; a function that may raise returns
      [py A = exn + A] and is written in the error monad.
    - Python integers are [Z]; lengths and indices are [nat].
    - Gating tensors (compared, summed and arg-maxed only) hold rationals [Q]
      and are executable.  Tensors that go through [exp] (the attention
      kernel) hold reals [R]: float rounding is idealised away.
    - A tensor of the sparse paths is a nested list, outermost axis first;
      where the code reads a static dimension off a tensor, the dimension is
      an argument.
    - The outputs of dense layers and the values of variables are arguments.

    The definitions come first, module by module; the theorems follow, in
    modules named after what they are about. *)

From Stdlib Require Import ZArith List Bool Lia String Ascii DecimalString.
From Stdlib Require Import QArith Qabs Qround Qminmax Reals Qreals Lqa Lra.
From ExtLib Require Import Structures.Monad Structures.MonadExc.
From ExtLib Require Import Data.Monads.EitherMonad.
Import ListNotations.
Import MonadNotation.

Local Open Scope monad_scope.
Local Open Scope string_scope.
Local Open Scope list_scope.

(** ** Python values and exceptions *)

Module Py.

Inductive exn : Type :=
| ValueError (msg : string)
| ZeroDivisionError (msg : string)
| AssertionError
| NotImplementedError (msg : string)
| IndexError (msg : string)
| TypeError (msg : string)
| RecursionError (msg : string).

Definition py (A : Type) : Type := (exn + A)%type.

#[global] Instance Monad_py : Monad py := Monad_either exn.
#[global] Instance Exception_py : MonadExc exn py := Exception_either exn.

(** [a % b] on Python ints: the sign follows the divisor, as [Z.modulo]
    does, and a zero divisor raises. *)
Definition py_mod (a b : Z) : py Z :=
  if (b =? 0)%Z then raise (ZeroDivisionError "integer division or modulo by zero")
  else ret (a mod b)%Z.

(** [a // b] on Python ints. *)
Definition py_floordiv (a b : Z) : py Z :=
  if (b =? 0)%Z then raise (ZeroDivisionError "integer division or modulo by zero")
  else ret (a / b)%Z.

(** ["%d" % n] and [str(n)] for an int. *)
Definition str_int (n : Z) : string := NilZero.string_of_int (Z.to_int n).

(** [str(x)] for an optional int. *)
Definition str_opt_int (x : option Z) : string :=
  match x with
  | None => "None"
  | Some n => str_int n
  end.

(** Truth value of an optional int: [None] and [0] are false. *)
Definition truthy_opt_int (x : option Z) : bool :=
  match x with
  | None => false
  | Some n => negb (n =? 0)%Z
  end.

(** Truth value of an optional dict: [None] and [{}] are false. *)
Definition truthy_opt_dict {K V : Type} (x : option (list (K * V))) : bool :=
  match x with
  | None => false
  | Some [] => false
  | Some (_ :: _) => true
  end.

Definition raises {A : Type} (r : py A) : Prop :=
  match r with
  | inl _ => True
  | inr _ => False
  end.

End Py.

Import Py.

(** ** [large_compatible_negative] *)

Module Dtype.

(** The [tf.DType]s a tensor of this module can have. *)
Inductive dtype : Type :=
| float16 | bfloat16 | float32 | float64
| int32 | int64 | bool_.

Definition dtype_eqb (a b : dtype) : bool :=
  match a, b with
  | float16, float16 | bfloat16, bfloat16 | float32, float32
  | float64, float64 | int32, int32 | int64, int64 | bool_, bool_ => true
  | _, _ => false
  end.

(** [tf.float16.min]: the lowest finite binary16 number,
    [-(2 - 2^-10) * 2^15]. *)
Definition float16_min : Q := - (65504 # 1).

(** A rational is a finite binary16 number when it is [m * 2^e] with an
    11-bit significand [m] and [-24 <= e <= 5]. *)
Definition float16_representable (x : Q) : Prop :=
  exists (m e : Z),
    (Z.abs m < 2 ^ 11)%Z /\ (-24 <= e <= 5)%Z /\
    (x == inject_Z m * (2 # 1) ^ e)%Q.

(** The largest magnitude a finite binary16 number has. *)
Definition float16_max_magnitude : Q := 65504 # 1.

Definition large_compatible_negative (tensor_type : dtype) : Q :=
  if dtype_eqb tensor_type float16 then float16_min
  else - (1000000000 # 1).

End Dtype.

(** ** Configuration checks *)

Module Config.

Definition key_depth_msg (total_key_depth num_heads : Z) : string :=
  "Key depth (" ++ str_int total_key_depth ++
  ") must be divisible by the number of attention heads (" ++
  str_int num_heads ++ ").".

Definition value_depth_msg (total_value_depth num_heads : Z) : string :=
  "Value depth (" ++ str_int total_value_depth ++
  ") must be divisible by the number of attention heads (" ++
  str_int num_heads ++ ").".

Section Bodies.

(** What a function computes once its arguments have passed the checks is
    irrelevant to the checks; it is a parameter here. *)
Context {T : Type}.

(** [multihead_attention], lines 4617-4622: the two divisibility checks,
    then the rest of the function. *)
Definition multihead_attention
    (total_key_depth total_value_depth num_heads : Z)
    (rest : py T) : py T :=
  rk <- py_mod total_key_depth num_heads ;;
  if negb (rk =? 0)%Z
  then raise (ValueError (key_depth_msg total_key_depth num_heads))
  else
    rv <- py_mod total_value_depth num_heads ;;
    if negb (rv =? 0)%Z
    then raise (ValueError (value_depth_msg total_value_depth num_heads))
    else rest.

(** [grouped_attention_multihead], lines 1392-1399: the same checks,
    interleaved with the per-head depths handed to the rest. *)
Definition grouped_attention_multihead_checks
    (total_key_depth total_value_depth num_heads : Z)
    (rest : Z -> Z -> py T) : py T :=
  rk <- py_mod total_key_depth num_heads ;;
  if negb (rk =? 0)%Z
  then raise (ValueError (key_depth_msg total_key_depth num_heads))
  else
    depth_qk <- py_floordiv total_key_depth num_heads ;;
    rv <- py_mod total_value_depth num_heads ;;
    if negb (rv =? 0)%Z
    then raise (ValueError (value_depth_msg total_value_depth num_heads))
    else
      depth_v <- py_floordiv total_value_depth num_heads ;;
      rest depth_qk depth_v.

Definition max_relative_position_msg (max_relative_position : option Z) : string :=
  "Max relative position (" ++ str_opt_int max_relative_position ++
  ") should be > 0 when using relative self attention.".

(** [dot_product_attention_relative], lines 1793-1795. *)
Definition dot_product_attention_relative
    (max_relative_position : option Z) (rest : py T) : py T :=
  if negb (truthy_opt_int max_relative_position)
  then raise (ValueError (max_relative_position_msg max_relative_position))
  else rest.

(** [multihead_self_attention_reduced], lines 6012-6016.  [memory_antecedent]
    is only tested against [None]. *)
Definition multihead_self_attention_reduced {K V M : Type}
    (memory_antecedent : option M)
    (factor : option Z) (multihead_params : option (list (K * V)))
    (rest : py T) : py T :=
  if negb (truthy_opt_int factor) || negb (truthy_opt_dict multihead_params)
  then raise (ValueError "factor and multihead_params should be set")
  else
    match memory_antecedent with
    | Some _ =>
        raise (NotImplementedError
                 "multihead_self_attention_reduced only works with self-attention")
    | None => rest
    end.

End Bodies.

End Config.

(** ** Dense tensors with their static shape *)

Module Tensor.

Local Open Scope R_scope.

(** A tensor is its static shape and its entries in row-major order. *)
Record tensor : Type := mk_tensor { shape : list nat; data : list R }.

Definition numel (sh : list nat) : nat := fold_right Nat.mul 1%nat sh.

(** [tf.zeros(shape)]. *)
Definition zeros (sh : list nat) : tensor := mk_tensor sh (repeat 0 (numel sh)).

(** [common_layers.shape_list(t)[i]]. *)
Definition dim (t : tensor) (i : nat) : py nat :=
  match nth_error (shape t) i with
  | Some n => ret n
  | None => raise (IndexError "list index out of range")
  end.

(** [t.get_shape().as_list()[-1]]. *)
Definition last_dim (t : tensor) : py nat :=
  match rev (shape t) with
  | n :: _ => ret n
  | [] => raise (IndexError "list index out of range")
  end.

(** [tf.expand_dims(t, axis)] for [0 <= axis <= rank]. *)
Definition expand_dims (t : tensor) (axis : nat) : tensor :=
  mk_tensor (firstn axis (shape t) ++ 1%nat :: skipn axis (shape t)) (data t).

(** [tf.squeeze(t, axis)]: the axis has to exist and to have size one. *)
Definition squeeze (t : tensor) (axis : nat) : py tensor :=
  match nth_error (shape t) axis with
  | Some 1%nat =>
      ret (mk_tensor (firstn axis (shape t) ++ skipn (S axis) (shape t)) (data t))
  | _ => raise (ValueError "Can not squeeze dim")
  end.

(** [tf.Print(t, ...)] is the identity on values. *)
Definition tf_Print (t : tensor) : tensor := t.

(** How the host engine runs the code: in graph mode [tf.cond] calls both
    branch functions while the graph is built, and what either raises there
    propagates; in eager mode only the selected branch is called. *)
Inductive exec_mode : Type := Graph | Eager.

(** [tf.cond(pred, true_fn, false_fn)]. *)
Definition tf_cond {A : Type} (mode : exec_mode) (pred : bool)
    (true_fn false_fn : unit -> py A) : py A :=
  match mode with
  | Graph =>
      t <- true_fn tt ;;
      f <- false_fn tt ;;
      ret (if pred then t else f)
  | Eager => if pred then true_fn tt else false_fn tt
  end.

End Tensor.

(** ** The expert attention path *)

Module Expert.

Import Tensor.
Local Open Scope R_scope.

(** [BatchInfo = namedtuple("BatchInfo", "coordinates, order")]. *)
Record BatchInfo : Type := mk_BatchInfo {
  coordinates : tensor;
  order : option tensor
}.

(** The function [to_float] nested in [attention_bias_batch], lines
    1120-1123.  Its body calls [to_float], which in that scope is the nested
    function itself and not the module-level cast: each call squeezes axis 1
    and calls itself again.  [depth] is the interpreter's recursion limit. *)
Fixpoint nested_to_float (depth : nat) (bc : tensor) : py tensor :=
  match depth with
  | O => raise (RecursionError "maximum recursion depth exceeded")
  | S depth' =>
      bc1 <- squeeze bc 1 ;;
      bc2 <- nested_to_float depth' bc1 ;;
      ret bc2
  end.

(** [bc_h - bc_v] for [bc_v] of shape [[length_q, 1]] and [bc_h] of shape
    [[1, length_k]], followed by [condition_fn] and [*= -1e9]. *)
Definition broadcast_bias (condition_fn : R -> R) (bc_v bc_h : tensor) : tensor :=
  mk_tensor [List.length (data bc_v); List.length (data bc_h)]
    (flat_map
       (fun v => map (fun h => condition_fn (h - v) * - 1000000000) (data bc_h))
       (data bc_v)).

(** [attention_bias_batch], lines 1100-1131. *)
Definition attention_bias_batch (recursion_limit : nat)
    (condition_fn : R -> R)
    (batch_coordinates_q : tensor) (batch_coordinates_k : option tensor)
    : py tensor :=
  let batch_coordinates_k :=
    match batch_coordinates_k with
    | None => batch_coordinates_q
    | Some k => k
    end in
  fq <- nested_to_float recursion_limit batch_coordinates_q ;;
  let bc_v := expand_dims fq 1 in
  fk <- nested_to_float recursion_limit batch_coordinates_k ;;
  let bc_h := expand_dims fk 0 in
  ret (broadcast_bias condition_fn bc_v bc_h).

(** [attention_bias_coordinates], lines 1135-1138. *)
Definition attention_bias_coordinates (recursion_limit : nat) :=
  attention_bias_batch recursion_limit (fun bias => Rmin 1 (Rabs bias)).

(** [attention_bias_future], lines 1141-1147. *)
Definition attention_bias_future (recursion_limit : nat) :=
  attention_bias_batch recursion_limit (fun bias => Rmax 0 (Rmin 1 bias)).

(** [bias += other] on two tensors of one shape. *)
Definition tensor_add (a b : tensor) : tensor :=
  mk_tensor (shape a) (map (fun p => fst p + snd p) (combine (data a) (data b))).

Section ExpertAttention.

(** The interpreter's recursion limit and the way the engine runs. *)
Variable recursion_limit : nat.
Variable mode : exec_mode.

(** The general-case kernel and the general-case expert branch (after its
    first statement) are parameters: what the functions do on empty inputs
    must not depend on what these compute, nor on whether they raise. *)
Variable dot_product_attention : tensor -> tensor -> tensor -> tensor -> py tensor.
Variable mask_and_call : tensor -> tensor -> tensor -> py tensor.

(** [expert_dot_product], lines 5410-5471. *)
Definition expert_dot_product (q k v : tensor) (info_q info_k : BatchInfo)
    : py tensor :=
  length_q <- dim q 0 ;;
  length_k <- dim k 0 ;;
  depth_v <- last_dim v ;;
  bias <- attention_bias_coordinates recursion_limit
            (coordinates info_q) (Some (coordinates info_k)) ;;
  bias <- match order info_k, order info_q with
          | Some order_k, Some order_q =>
              future <- attention_bias_future recursion_limit order_q (Some order_k) ;;
              ret (tensor_add bias future)
          | Some order_k, None =>
              raise (ValueError "None values not supported.")
          | None, _ => ret bias
          end ;;
  let q := expand_dims (expand_dims q 0) 0 in
  let k := expand_dims (expand_dims k 0) 0 in
  let v := expand_dims (expand_dims v 0) 0 in
  let is_zero (_ : unit) : py tensor :=
    ret (tf_Print (zeros [1%nat; 1%nat; length_q; depth_v])) in
  let is_not_zero (_ : unit) : py tensor :=
    dot_product_attention q k v bias in
  v_out <- tf_cond mode ((length_q =? 0)%nat || (length_k =? 0)%nat)
             is_zero is_not_zero ;;
  v_out <- squeeze v_out 0 ;;
  v_out <- squeeze v_out 0 ;;
  ret v_out.

(** [self_attention_expert], lines 5251-5357.  The global [_expert_count] is
    threaded through; the first [tf.cond], lines 5292-5297, only prints and
    leaves [length] as it is; [length_not_null] starts with the batch bias
    and hands over to the rest of the branch. *)
Definition self_attention_expert (_expert_count : nat)
    (x batch_coordinate : tensor) : py (tensor * nat) :=
  depth <- last_dim x ;;
  length <- dim batch_coordinate 0 ;;
  let _expert_count := S _expert_count in
  let length_not_null (_ : unit) : py tensor :=
    bias_batch <- attention_bias_coordinates recursion_limit batch_coordinate None ;;
    mask_and_call x batch_coordinate bias_batch in
  out <- tf_cond mode (length =? 0)%nat
           (fun _ => ret (zeros [0%nat; depth]))
           length_not_null ;;
  ret (out, _expert_count).

End ExpertAttention.

End Expert.

(** ** Tensor operations of the gating code *)

Module QOps.

Local Open Scope Q_scope.

(** A rank-2 gating tensor with its static shape. *)
Record matrix : Type := mk_matrix {
  nrows : nat;
  ncols : nat;
  rows : list (list Q)
}.

Definition dot (a b : list Q) : Q :=
  fold_right Qplus 0 (map (fun p => fst p * snd p) (combine a b)).

Definition column (j : nat) (m : matrix) : list Q :=
  map (fun r => nth j r 0) (rows m).

(** [tf.matmul(a, b)]. *)
Definition matmul (a b : matrix) : py matrix :=
  if (ncols a =? nrows b)%nat
  then ret (mk_matrix (nrows a) (ncols b)
              (map (fun r => map (fun j => dot r (column j b)) (seq 0 (ncols b)))
                   (rows a)))
  else raise (ValueError "Dimensions must be equal").

(** [tf.matmul(a, b, transpose_b=True)]. *)
Definition matmul_transpose_b (a b : matrix) : py matrix :=
  if (ncols a =? ncols b)%nat
  then ret (mk_matrix (nrows a) (nrows b)
              (map (fun r => map (fun rb => dot r rb) (rows b)) (rows a)))
  else raise (ValueError "Dimensions must be equal").

(** [tf.sign]. *)
Definition sign (x : Q) : Q :=
  match (Qnum x ?= 0)%Z with
  | Gt => 1
  | Eq => 0
  | Lt => - (1)
  end.

Definition Qlt_bool (a b : Q) : bool := negb (Qle_bool b a).

(** [tf.argmax] along a row: the first index that holds the maximum. *)
Fixpoint argmax_from (best : Q) (best_i i : nat) (l : list Q) {struct l} : nat :=
  match l with
  | [] => best_i
  | x :: l' =>
      if Qlt_bool best x then argmax_from x i (S i) l'
      else argmax_from best best_i (S i) l'
  end.

Definition argmax (l : list Q) : nat :=
  match l with
  | [] => 0%nat
  | x :: l' => argmax_from x 0 1 l'
  end.

(** [tf.one_hot(i, n)]. *)
Definition one_hot (i n : nat) : list Q :=
  map (fun j => if (j =? i)%nat then 1 else 0) (seq 0 n).

(** [tf.constant] on a list of rows: the rows must have one length. *)
Definition tf_constant (l : list (list Q)) : py matrix :=
  let width := List.length (hd [] l) in
  if forallb (fun r => (List.length r =? width)%nat) l
  then ret (mk_matrix (List.length l) width l)
  else raise (ValueError "Can't convert non-rectangular Python sequence to Tensor.").

(** [tf.get_variable(name, shape)]: the variable store hands out the value of
    the variable, which has to have the requested shape. *)
Definition tf_get_variable (stored : matrix) (r c : nat) : py matrix :=
  if ((nrows stored =? r) && (ncols stored =? c))%nat
  then ret stored
  else raise (ValueError "Trying to share variable, but specified shape differs").

End QOps.

(** ** [LshGating] *)

Module Lsh.

Import QOps.
Local Open Scope Q_scope.

(** Binary digits of a positive number, least significant first. *)
Fixpoint pos_bits (p : positive) : list bool :=
  match p with
  | xH => [true]
  | xO q => false :: pos_bits q
  | xI q => true :: pos_bits q
  end.

(** [bin(i)[2:]], most significant digit first; [true] stands for ["1"]. *)
Definition bin (i : nat) : list bool :=
  match N.of_nat i with
  | N0 => [false]
  | Npos p => rev (pos_bits p)
  end.

(** [s.zfill(width)] on a digit string. *)
Definition zfill (width : nat) (s : list bool) : list bool :=
  repeat false (width - List.length s) ++ s.

(** [LshGating._idx_to_bits], lines 886-889. *)
Definition _idx_to_bits (nb_hyperplanes : nat) (i : nat) : list Q :=
  map (fun b : bool => if b then 1 else - (1)) (zfill nb_hyperplanes (bin i)).

Record LshGating : Type := mk_LshGating {
  depth : nat;
  nb_hyperplanes : nat;
  nb_buckets : nat;
  nb_replicat : Z;
  trainable : bool;
  t_vectors : matrix;
  t_group : matrix
}.

(** [LshGating.__init__], lines 848-884.  [stored_vector] is what the
    variable store holds under ["lsh_gating/vector"]. *)
Definition __init__ (stored_vector : matrix)
    (depth nb_hyperplanes : nat) (nb_replicat : Z) (trainable : bool)
    : py LshGating :=
  let nb_buckets := (2 ^ nb_hyperplanes)%nat in
  if negb (nb_replicat =? 1)%Z then raise AssertionError
  else
    t_vectors <- tf_get_variable stored_vector depth
                   (nb_hyperplanes * Z.to_nat nb_replicat) ;;
    t_group <- tf_constant (map (_idx_to_bits nb_hyperplanes) (seq 0 nb_buckets)) ;;
    ret (mk_LshGating depth nb_hyperplanes nb_buckets nb_replicat trainable
           t_vectors t_group).

(** The similarity scores of one token's sign pattern, line 913. *)
Definition scale_row (nb_hyperplanes : nat) (r : list Q) : list Q :=
  map (fun s => s / inject_Z (Z.of_nat nb_hyperplanes)) r.

(** [LshGating.get_gates], lines 892-922. *)
Definition get_gates (self : LshGating) (x : matrix) : py matrix :=
  x <- matmul x (t_vectors self) ;;
  let x := mk_matrix (nrows x) (ncols x) (map (map sign) (rows x)) in
  x <- matmul_transpose_b x (t_group self) ;;
  let x := mk_matrix (nrows x) (ncols x)
             (map (scale_row (nb_hyperplanes self)) (rows x)) in
  let length := nrows x in
  let x := map argmax (rows x) in
  ret (mk_matrix length (nb_buckets self)
         (map (fun i => one_hot i (nb_buckets self)) x)).

(** The specification's description of the gating, to be compared with
    [get_gates]: the sign of the token's projection on each hyperplane, *)
Definition sign_pattern (self : LshGating) (token : list Q) : list Q :=
  map (fun j => sign (dot token (column j (t_vectors self))))
      (seq 0 (ncols (t_vectors self))).

(** the score of every bucket against that pattern through the lookup
    matrix, *)
Definition bucket_scores (self : LshGating) (token : list Q) : list Q :=
  map (fun b => dot (sign_pattern self token)
                    (_idx_to_bits (nb_hyperplanes self) b) /
                inject_Z (Z.of_nat (nb_hyperplanes self)))
      (seq 0 (nb_buckets self)).

(** and the bucket of the highest score. *)
Definition bucket_of_token (self : LshGating) (token : list Q) : nat :=
  argmax (bucket_scores self token).

(** A gating object that [__init__] built for [depth]-wide tokens and
    [nb_hyperplanes] hyperplanes. *)
Definition built (depth nb_hyperplanes : nat) (self : LshGating) : Prop :=
  exists (stored_vector : matrix) (trainable : bool),
    __init__ stored_vector depth nb_hyperplanes 1 trainable = inr self.

(** The buckets a row of gates assigns its token to. *)
Definition assigned_buckets (row : list Q) : list nat :=
  filter (fun b => negb (Qeq_bool (nth b row 0) 0)) (seq 0 (List.length row)).

End Lsh.

(** ** Zipping maps *)

Module Zip.

Definition map2 {A B C : Type} (f : A -> B -> C) (la : list A) (lb : list B)
    : list C :=
  map (fun p => f (fst p) (snd p)) (combine la lb).

Definition map3 {A B C D : Type} (f : A -> B -> C -> D)
    (la : list A) (lb : list B) (lc : list C) : list D :=
  map2 (fun p c => f (fst p) (snd p) c) (combine la lb) lc.

Definition map4 {A B C D E : Type} (f : A -> B -> C -> D -> E)
    (la : list A) (lb : list B) (lc : list C) (ld : list D) : list E :=
  map2 (fun p d => f (fst (fst p)) (snd (fst p)) (snd p) d)
       (combine (combine la lb) lc) ld.

End Zip.

(** ** Real vectors *)

Module Vec.

Local Open Scope R_scope.

Definition vzero (depth : nat) : list R := repeat 0 depth.

Definition vadd (a b : list R) : list R :=
  map (fun p => fst p + snd p) (combine a b).

Definition vscale (c : R) (a : list R) : list R := map (Rmult c) a.

(** The sum of a list of [depth]-wide rows. *)
Definition vsum (depth : nat) (l : list (list R)) : list R :=
  fold_right vadd (vzero depth) l.

Definition rsum (l : list R) : R := fold_right Rplus 0 l.

Definition rdot (a b : list R) : R :=
  rsum (map (fun p => fst p * snd p) (combine a b)).

End Vec.

(** ** The truncating dispatcher *)

Module Dispatch.

Import Vec.

(** [expert_utils.TruncatingDispatcher], which [common_attention.py] imports
    from [TensorFlow.nlp.transformer.utils], is not among the sources.  Its
    model follows sections 3 and 4.2 of the specification: each bucket
    gathers the tokens assigned to it in their original order, keeps the
    first [capacity] of them, and is filled up with zero rows; [combine]
    scatters the rows back, weighted by the gate value, and a token no bucket
    kept gets a zero row. *)
Section OneSequence.

(** The requests of one element of the batch, [[length, num_experts]]. *)
Variable requests : list (list Q).
Variable num_experts : nat.
Variable expert_capacity : nat.

Definition request (t e : nat) : Q := nth e (nth t requests []) 0%Q.

Definition requested (t e : nat) : bool := negb (Qeq_bool (request t e) 0).

(** Modelled from the spec: the bucket assignment of
    [expert_utils.TruncatingDispatcher], absent from the sources.  The tokens
    assigned to bucket [e], in original order. *)
Definition assigned (e : nat) : list nat :=
  filter (fun t => requested t e) (seq 0 (List.length requests)).

(** Modelled from the spec: the truncation of
    [expert_utils.TruncatingDispatcher].  Bucket [e] keeps the earliest
    [expert_capacity] of its tokens. *)
Definition kept (e : nat) : list nat := firstn expert_capacity (assigned e).

(** Modelled from the spec: the padded batch of
    [expert_utils.TruncatingDispatcher].  The slots of bucket [e] are the
    kept tokens, then padding. *)
Definition slots (e : nat) : list (option nat) :=
  map Some (kept e) ++ repeat None (expert_capacity - List.length (kept e)).

Definition is_kept (t e : nat) : bool := existsb (Nat.eqb t) (kept e).

(** Modelled from the spec: what a slot of
    [expert_utils.TruncatingDispatcher] holds.  The row of its token or a
    zero row, whether it is real data, and the original position of its
    token; the specification does not say which position a padding slot
    reports, and the model reports [0]. *)
Definition slot_row (depth : nat) (inp : list (list R)) (s : option nat) : list R :=
  match s with
  | Some t => nth t inp (vzero depth)
  | None => vzero depth
  end.

Definition slot_nonpadding (s : option nat) : R :=
  match s with
  | Some _ => 1%R
  | None => 0%R
  end.

Definition slot_coordinate (s : option nat) : nat :=
  match s with
  | Some t => t
  | None => 0%nat
  end.

(** Modelled from the spec: [TruncatingDispatcher.dispatch],
    [.nonpadding()] and [.length_coordinate()] of [expert_utils], for one
    element of the batch. *)
Definition dispatch1 (depth : nat) (inp : list (list R)) : list (list (list R)) :=
  map (fun e => map (slot_row depth inp) (slots e)) (seq 0 num_experts).

Definition nonpadding1 : list (list R) :=
  map (fun e => map slot_nonpadding (slots e)) (seq 0 num_experts).

Definition length_coordinate1 : list (list nat) :=
  map (fun e => map slot_coordinate (slots e)) (seq 0 num_experts).

(** Modelled from the spec: [TruncatingDispatcher.combine] of
    [expert_utils], for one element of the batch.  The rows bucket [e]
    contributes to token [t] are each weighted by the gate value of [t] for
    [e]; a token without contribution gets the zero row. *)
Definition contributions (t e : nat) (out_e : list (list R)) : list (list R) :=
  flat_map (fun sr : option nat * list R =>
              match fst sr with
              | Some t' =>
                  if (t' =? t)%nat
                  then [vscale (Q2R (request t e)) (snd sr)]
                  else []
              | None => []
              end)
           (List.combine (slots e) out_e).

Definition combine1 (depth : nat) (x : list (list (list R))) : list (list R) :=
  map (fun t =>
         vsum depth
           (flat_map (fun e => contributions t e (nth e x [])) (seq 0 num_experts)))
      (seq 0 (List.length requests)).

End OneSequence.

(** A hard gating: token [t] goes to the bucket [bucket_of t], with gate
    value one, and to no other. *)
Definition hard_gating (num_experts : nat) (requests : list (list Q))
    (bucket_of : nat -> nat) : Prop :=
  forall t : nat, (t < List.length requests)%nat ->
    (bucket_of t < num_experts)%nat /\
    forall e : nat, (e < num_experts)%nat ->
      (request requests t e == if (e =? bucket_of t)%nat then 1 else 0)%Q.

(** The identity gating of [n] tokens: token [t] is alone in bucket [t]. *)
Definition identity_gating (n : nat) : list (list Q) :=
  map (fun t => QOps.one_hot t n) (seq 0 n).

(** No bucket is asked to hold more than its capacity. *)
Definition within_capacity (requests : list (list Q))
    (num_experts expert_capacity : nat) : Prop :=
  forall e : nat, (e < num_experts)%nat ->
    (List.length (assigned requests e) <= expert_capacity)%nat.

(** An input sequence that fits the requests of its element of the batch:
    one row of width [depth] per token, under a hard gating. *)
Definition well_formed_input (num_experts depth : nat)
    (requests : list (list Q)) (inp : list (list R)) : Prop :=
  List.length inp = List.length requests /\
  Forall (fun row => List.length row = depth) inp /\
  exists bucket_of : nat -> nat, hard_gating num_experts requests bucket_of.

(** The round-robin gating of the specification's scenario: token [t] of
    [n] goes to bucket [t mod num_experts]. *)
Definition round_robin_gating (n num_experts : nat) : list (list Q) :=
  map (fun t => QOps.one_hot (t mod num_experts) num_experts) (seq 0 n).

(** The ten one-wide tokens [0 .. 9] of the specification's scenario. *)
Definition scenario_tokens : list (list R) := map (fun t => [INR t]) (seq 0 10).

(** Gates whose rows are one-hot over [num_experts] buckets. *)
Definition one_hot_rows (num_experts : nat) (gates : list (list Q)) : Prop :=
  Forall (fun row => exists b : nat,
            (b < num_experts)%nat /\ row = QOps.one_hot b num_experts)
         gates.

(** The shape [[num_experts, capacity, depth]] of a dispatched sequence. *)
Definition has_shape (num_experts capacity depth : nat)
    (x : list (list (list R))) : Prop :=
  List.length x = num_experts /\
  Forall (fun bucket =>
            List.length bucket = capacity /\
            Forall (fun row => List.length row = depth) bucket)
         x.

(** Modelled from the spec: [expert_utils.TruncatingDispatcher] for a whole
    batch.  Every element of the batch has the same number of buckets and
    the same capacity. *)
Record TruncatingDispatcher : Type := mk_TruncatingDispatcher {
  _requests : list (list (list Q));
  _num_experts : nat;
  _expert_capacity : nat
}.

Definition dispatch (d : TruncatingDispatcher) (depth : nat)
    (inp : list (list (list R))) : list (list (list (list R))) :=
  map (fun ri => dispatch1 (fst ri) (_num_experts d) (_expert_capacity d)
                   depth (snd ri))
      (List.combine (_requests d) inp).

Definition nonpadding (d : TruncatingDispatcher) : list (list (list R)) :=
  map (fun r => nonpadding1 r (_num_experts d) (_expert_capacity d)) (_requests d).

Definition length_coordinate (d : TruncatingDispatcher) : list (list (list nat)) :=
  map (fun r => length_coordinate1 r (_num_experts d) (_expert_capacity d))
      (_requests d).

Definition combine (d : TruncatingDispatcher) (depth : nat)
    (x : list (list (list (list R)))) : list (list (list R)) :=
  map (fun rx => combine1 (fst rx) (_num_experts d) (_expert_capacity d)
                   depth (snd rx))
      (List.combine (_requests d) x).

End Dispatch.

(** ** The per-bucket attention kernel *)

Module Kernel.

Import Vec.
Local Open Scope R_scope.

(** [tf.nn.softmax] along one row. *)
Definition softmax (l : list R) : list R :=
  let s := rsum (map exp l) in map (fun x => exp x / s) l.

(** [tf.nn.log_softmax] along one row. *)
Definition log_softmax (l : list R) : list R :=
  let s := rsum (map exp l) in map (fun x => x - ln s) l.

(** [tf.matmul(q, k, transpose_b=True)] on [[length_q, depth]] and
    [[length_kv, depth]]. *)
Definition matmul_qk (q k : list (list R)) : list (list R) :=
  map (fun qi => map (fun kj => rdot qi kj) k) q.

(** [tf.matmul(weights, v)] on [[length_q, length_kv]] and
    [[length_kv, depth_v]]. *)
Definition matmul_wv (depth_v : nat) (w v : list (list R)) : list (list R) :=
  map (fun wi => vsum depth_v (map (fun p => vscale (fst p) (snd p)) (combine wi v))) w.

(** [logits += bias] for a bias already broadcast to the shape of the
    logits. *)
Definition add_bias (logits bias : list (list R)) : list (list R) :=
  map (fun p => vadd (fst p) (snd p)) (combine logits bias).

(** The weights of [dot_product_attention], lines 1654-1660. *)
Definition attention_weights (q k : list (list R))
    (bias : option (list (list R))) : list (list R) :=
  let logits := matmul_qk q k in
  let logits := match bias with
                | Some b => add_bias logits b
                | None => logits
                end in
  map softmax logits.

(** [dot_product_attention], lines 1608-1673, with the defaults
    [dropout_rate=0.0] and [hard_attention_k=0] its callers here use. *)
Definition dot_product_attention (depth_v : nat) (q k v : list (list R))
    (bias : option (list (list R))) : list (list R) :=
  matmul_wv depth_v (attention_weights q k bias) v.

(** One entry of the bias of lines 1473-1479 and 5716-5722: [-1e9] on a
    padding key slot, and with [mask_right] another [-1e9] where the key's
    position is greater than the query's. *)
Definition bias_entry (mask_right : bool) (q_coordinate : nat)
    (k_nonpadding : R) (k_coordinate : nat) : R :=
  let bias := (k_nonpadding - 1) * 1000000000 in
  if mask_right
  then bias + (if (q_coordinate <? k_coordinate)%nat then 1 else 0) * - 1000000000
  else bias.

(** The bias of one bucket, broadcast to [[capacity_q, capacity_k]]. *)
Definition bucket_bias (mask_right : bool)
    (q_coordinate : list nat) (k_nonpadding : list R) (k_coordinate : list nat)
    : list (list R) :=
  map (fun qc =>
         map (fun nk => bias_entry mask_right qc (fst nk) (snd nk))
             (combine k_nonpadding k_coordinate))
      q_coordinate.

End Kernel.

(** ** The two sparse attention paths *)

Module Sparse.

Import Zip Vec Dispatch Kernel.

(** The integer part of a float, which a cast to an integer type keeps.  On
    a count of tokens or positions, which the size of a tensor bounds,
    [tf.to_int32] is this truncation. *)
Definition truncate (x : Q) : Z := Z.quot (Qnum x) (Zpos (Qden x)).

(** [tf.to_int32] on a float: its integer part, when a signed 32-bit integer
    holds it.  For any other value TensorFlow leaves the result of the cast
    undefined; the model takes the least 32-bit integer, which is what the
    conversion yields on x86. *)
Definition to_int32 (x : Q) : Z :=
  let z := truncate x in
  if ((- 2 ^ 31 <=? z) && (z <? 2 ^ 31))%Z then z else (- 2 ^ 31)%Z.

Definition qsum (l : list Q) : Q := fold_right Qplus 0%Q l.

(** [tf.reduce_max] over the batch axis.  An empty batch has no sequence to
    dispatch; the value is not used then. *)
Definition reduce_max (l : list Q) : Q :=
  match l with
  | [] => 0%Q
  | x :: r => fold_left Qmax r x
  end.

(** [get_dispatcher], nested in [dot_product_batched_head], lines 5682-5692.
    [length] and [nb_buckets] are the static dimensions of [gates]; the
    number cast by [tf.to_int32] is a count of tokens. *)
Definition get_dispatcher (nb_buckets length : nat)
    (gates : list (list (list Q))) : py TruncatingDispatcher :=
  let nb_elems_to_dispatch := map (fun g => qsum (map qsum g)) gates in
  let nb_elems_to_dispatch := reduce_max nb_elems_to_dispatch in
  let nb_elems_to_dispatch := truncate nb_elems_to_dispatch in
  per_bucket <- py_floordiv nb_elems_to_dispatch (Z.of_nat nb_buckets) ;;
  let capacity := (per_bucket * 2)%Z in
  let capacity := Z.min (Z.of_nat length) capacity in
  ret (mk_TruncatingDispatcher gates nb_buckets (Z.to_nat capacity)).

(** The bias of every bucket of every element of the batch. *)
Definition batched_bias (mask_right : bool)
    (q_dispatcher k_dispatcher : TruncatingDispatcher)
    : list (list (list (list R))) :=
  map3 (map3 (bucket_bias mask_right))
       (length_coordinate q_dispatcher)
       (nonpadding k_dispatcher)
       (length_coordinate k_dispatcher).

(** The attention weights inside [dot_product_batched_head]:
    [[batch*heads, nb_buckets, capacity_q, capacity_k]]. *)
Definition batched_head_weights (q k : list (list (list (list R))))
    (bias : list (list (list (list R)))) : list (list (list (list R))) :=
  map3 (map3 (fun qb kb bb => attention_weights qb kb (Some bb))) q k bias.

(** [dot_product_attention(q, k, v, bias=bias)] on the dispatched tensors:
    every bucket of every element of the batch is attended on its own. *)
Definition batched_attention (depth_v : nat) (q k v : list (list (list (list R))))
    (bias : list (list (list (list R)))) : list (list (list (list R))) :=
  map4 (map4 (fun qb kb vb bb => dot_product_attention depth_v qb kb vb (Some bb)))
       q k v bias.

(** [dot_product_batched_head], lines 5662-5730.  [q], [k], [v] are
    [[batch*heads, length, depth]]; the static dimensions are arguments. *)
Definition dot_product_batched_head
    (nb_buckets length_q length_k depth_q depth_v : nat)
    (q k v : list (list (list R)))
    (gates_q gates_k : list (list (list Q))) (mask_right : bool)
    : py (list (list (list R))) :=
  q_dispatcher <- get_dispatcher nb_buckets length_q gates_q ;;
  k_dispatcher <- get_dispatcher nb_buckets length_k gates_k ;;
  let q := dispatch q_dispatcher depth_q q in
  let k := dispatch k_dispatcher depth_q k in
  let v := dispatch k_dispatcher depth_v v in
  let bias := batched_bias mask_right q_dispatcher k_dispatcher in
  let v_out := batched_attention depth_v q k v bias in
  ret (combine q_dispatcher depth_v v_out).

(** The weights [dot_product_batched_head] computes on the way. *)
Definition dot_product_batched_head_weights
    (nb_buckets length_q length_k depth_q : nat)
    (q k : list (list (list R)))
    (gates_q gates_k : list (list (list Q))) (mask_right : bool)
    : py (list (list (list (list R)))) :=
  q_dispatcher <- get_dispatcher nb_buckets length_q gates_q ;;
  k_dispatcher <- get_dispatcher nb_buckets length_k gates_k ;;
  let q := dispatch q_dispatcher depth_q q in
  let k := dispatch k_dispatcher depth_q k in
  let bias := batched_bias mask_right q_dispatcher k_dispatcher in
  ret (batched_head_weights q k bias).

(** [tf.one_hot([0], length)] at position [t]. *)
Definition first_position (t : nat) : Q := if (t =? 0)%nat then 1%Q else 0%Q.

(** [tf.maximum(gates, first)] on [[length, nb_buckets]] gates, with
    [first] broadcast along the buckets: lines 1446-1447 and 5819-5820. *)
Definition add_first_position (gates : list (list Q)) : list (list Q) :=
  map (fun tg => map (fun g => Qmax g (first_position (fst tg))) (snd tg))
      (List.combine (seq 0 (List.length gates)) gates).

(** [tf.reshape(gates, [batch_size, length, nb_buckets])] on the rows of a
    [[batch_size * length, nb_buckets]] tensor. *)
Definition reshape_batch (batch_size length : nat) (rows : list (list Q))
    : list (list (list Q)) :=
  map (fun b => firstn length (skipn (b * length) rows)) (seq 0 batch_size).

(** The loop over the heads in [get_gates_head], lines 5802-5809. *)
Fixpoint get_gates_head_loop (batch_size length depth : nat)
    (l : list (Lsh.LshGating * list (list Q)))
    : py (list (list (list (list Q)))) :=
  match l with
  | [] => ret []
  | (lsh, single_x) :: l' =>
      gates <- Lsh.get_gates lsh
                 (QOps.mk_matrix (batch_size * length) depth single_x) ;;
      let gates := reshape_batch batch_size length (QOps.rows gates) in
      list_gates <- get_gates_head_loop batch_size length depth l' ;;
      ret (gates :: list_gates)
  end.

(** [tf.transpose(x, [1, 0, 2, 3])] on a tensor whose first axis has [n]
    entries and whose second has [m]. *)
Definition transpose_first_two {A : Type} (n m : nat) (x : list (list (list A)))
    : list (list (list A)) :=
  map (fun j => map (fun i => nth j (nth i x []) []) (seq 0 n)) (seq 0 m).

(** [get_gates_head], nested in [sparse_dot_product_attention_truncated],
    lines 5781-5822.  [x] is [[batch, heads, length, depth]]; [list_lsh] holds
    the gating object of every head. *)
Definition get_gates_head (list_lsh : list Lsh.LshGating)
    (batch_size nb_heads length depth : nat)
    (x : list (list (list (list Q)))) (add_first : bool)
    : py (list (list (list (list Q)))) :=
  (* [heads, batch * length, depth] *)
  let list_x := map (@List.concat (list Q)) (transpose_first_two batch_size nb_heads x) in
  list_gates <- get_gates_head_loop batch_size length depth
                  (List.combine list_lsh list_x) ;;
  (* [batch, heads, length, nb_buckets] *)
  let gates := transpose_first_two (List.length list_gates) batch_size list_gates in
  ret (if add_first then map (map add_first_position) gates else gates).

(** [combine_first_two_dimensions], lines 1186-1200. *)
Definition combine_first_two_dimensions {A : Type} (x : list (list A)) : list A :=
  List.concat x.

(** [to_float(tf.greater(x, 0.0))]. *)
Definition greater_than_zero (x : Q) : Q := if QOps.Qlt_bool 0 x then 1%Q else 0%Q.

(** [depth_qk ** -0.5] on a Python int. *)
Definition rsqrt_int (depth_qk : Z) : py R :=
  if (depth_qk =? 0)%Z
  then raise (ZeroDivisionError "0.0 cannot be raised to a negative power")
  else if (depth_qk <? 0)%Z
  then raise (TypeError "complex scale")
  else ret (/ sqrt (IZR depth_qk))%R.

(** The capacity of lines 1454-1461:
    [tf.minimum(length, tf.to_int32(group_target_size *
    multiplicative_overhead + additive_overhead))]. *)
Definition group_capacity (length : nat)
    (group_target_size multiplicative_overhead additive_overhead : Q) : Z :=
  Z.min (Z.of_nat length)
        (to_int32 (group_target_size * multiplicative_overhead + additive_overhead)%Q).

(** [q_group_target_size], line 1450. *)
Definition q_group_target_size (length_q num_groups : nat) : Q :=
  (inject_Z (Z.of_nat length_q) / inject_Z (Z.of_nat num_groups))%Q.

(** [m_group_target_size], lines 1451-1453. *)
Definition m_group_target_size (length_kv num_groups : nat)
    (memory_target_density : Q) : Q :=
  (inject_Z (Z.of_nat length_kv) * memory_target_density /
   inject_Z (Z.of_nat num_groups))%Q.

(** The memory requests of lines 1444-1447, for one element of the batch. *)
Definition memory_requests (m_pred_biased : list (list Q)) : list (list Q) :=
  add_first_position (map (map greater_than_zero) m_pred_biased).

(** The query requests of lines 1442-1443, for one element of the batch. *)
Definition query_requests (num_groups : nat) (q_pred_biased : list (list Q))
    : list (list Q) :=
  map (fun r => QOps.one_hot (QOps.argmax r) num_groups) q_pred_biased.

(** The weights of lines 1472-1482 for one bucket:
    [exp(log_softmax(logits + bias))]. *)
Definition grouped_weights (q k bias : list (list R)) : list (list R) :=
  map (fun l => map exp (log_softmax l)) (add_bias (matmul_qk q k) bias).

(** The two dispatchers of [grouped_attention_multihead], lines 1442-1463. *)
Definition grouped_dispatchers (length_q length_kv num_groups : nat)
    (memory_target_density multiplicative_overhead additive_overhead : Q)
    (q_pred_biased m_pred_biased : list (list (list Q)))
    : TruncatingDispatcher * TruncatingDispatcher :=
  let q_requests := map (query_requests num_groups) q_pred_biased in
  let m_requests := map memory_requests m_pred_biased in
  let capacity_q :=
    group_capacity length_q (q_group_target_size length_q num_groups)
      multiplicative_overhead additive_overhead in
  let capacity_m :=
    group_capacity length_kv
      (m_group_target_size length_kv num_groups memory_target_density)
      multiplicative_overhead additive_overhead in
  (mk_TruncatingDispatcher q_requests num_groups (Z.to_nat capacity_q),
   mk_TruncatingDispatcher m_requests num_groups (Z.to_nat capacity_m)).

(** The attention weights of [grouped_attention_multihead], lines 1466-1482,
    for queries already scaled:
    [[batch*heads, num_groups, capacity_q, capacity_m]]. *)
Definition grouped_attention_weights (mask_right : bool)
    (q_dispatcher m_dispatcher : TruncatingDispatcher) (depth_qk depth_v : nat)
    (q kv : list (list (list R))) : list (list (list (list R))) :=
  let dispatched_q := dispatch q_dispatcher depth_qk q in
  let dispatched_kv := dispatch m_dispatcher (depth_qk + depth_v) kv in
  let k := map (map (map (firstn depth_qk))) dispatched_kv in
  let bias := batched_bias mask_right q_dispatcher m_dispatcher in
  map3 (map3 grouped_weights) dispatched_q k bias.

(** [grouped_attention_multihead], lines 1333-1489: from the divisibility
    checks to [q_dispatcher.combine(o)].  The outputs of the dense layers are
    arguments: [q] and [kv] are the projections after [split_heads] and
    [combine_first_two_dimensions], [[batch*heads, length, depth]], and so
    are the biased predictions [q_pred_biased] and [m_pred_biased],
    [[batch*heads, length, num_groups]]. *)
Definition grouped_attention_multihead
    (length_q length_kv : nat)
    (total_key_depth total_value_depth num_heads : Z)
    (num_groups : nat)
    (memory_target_density multiplicative_overhead additive_overhead : Q)
    (mask_right : bool)
    (q kv : list (list (list R)))
    (q_pred_biased m_pred_biased : list (list (list Q)))
    : py (list (list (list R))) :=
  Config.grouped_attention_multihead_checks
    total_key_depth total_value_depth num_heads
    (fun depth_qk depth_v =>
       scale <- rsqrt_int depth_qk ;;
       let depth_qk := Z.to_nat depth_qk in
       let depth_v := Z.to_nat depth_v in
       let q := map (map (vscale scale)) q in
       let (q_dispatcher, m_dispatcher) :=
         grouped_dispatchers length_q length_kv num_groups
           memory_target_density multiplicative_overhead additive_overhead
           q_pred_biased m_pred_biased in
       let dispatched_kv := dispatch m_dispatcher (depth_qk + depth_v) kv in
       let v := map (map (map (fun r => firstn depth_v (skipn depth_qk r))))
                    dispatched_kv in
       let weights :=
         grouped_attention_weights mask_right q_dispatcher m_dispatcher
           depth_qk depth_v q kv in
       let o := map2 (map2 (matmul_wv depth_v)) weights v in
       ret (combine q_dispatcher depth_v o)).

(** The property that, with a non-empty memory, no group of
    [grouped_attention_multihead] is ever left without a key. *)
Definition key_sets_never_empty : Prop :=
  forall (length_q length_kv num_groups : nat) (density mult add : Q)
         (q_pred m_pred : list (list (list Q))),
    (1 <= length_kv)%nat ->
    Forall (fun m => List.length m = length_kv /\
                     Forall (fun row => List.length row = num_groups) m)
           m_pred ->
    let m_dispatcher :=
      snd (grouped_dispatchers length_q length_kv num_groups density mult add
             q_pred m_pred) in
    forall requests : list (list Q),
      In requests (_requests m_dispatcher) ->
      forall e : nat, (e < num_groups)%nat ->
        kept requests (_expert_capacity m_dispatcher) e <> [].

(** The tokens of the gating code as the attention kernel sees them. *)
Definition to_reals (x : list (list (list Q))) : list (list (list R)) :=
  map (map (map Q2R)) x.

(** The weights [sparse_dot_product_attention_truncated], lines 5734-5837,
    makes [dot_product_batched_head] compute, together with the gates it
    passes: the gates of the queries, the gates of the keys with the first
    position added to every bucket, and the two first dimensions combined.
    Queries and keys have one length, as the function requires. *)
Definition sparse_weights (list_lsh : list Lsh.LshGating)
    (batch_size nb_heads length depth nb_buckets : nat)
    (q k : list (list (list (list Q)))) (mask_right : bool)
    : py (list (list (list Q)) * list (list (list Q)) *
          list (list (list (list R)))) :=
  gates_q <- get_gates_head list_lsh batch_size nb_heads length depth q false ;;
  gates_k <- get_gates_head list_lsh batch_size nb_heads length depth k true ;;
  let gates_q := combine_first_two_dimensions gates_q in
  let gates_k := combine_first_two_dimensions gates_k in
  w <- dot_product_batched_head_weights nb_buckets length length depth
         (to_reals (combine_first_two_dimensions q))
         (to_reals (combine_first_two_dimensions k))
         gates_q gates_k mask_right ;;
  ret (gates_q, gates_k, w).

(** The property that under [mask_right] no query of
    [sparse_dot_product_attention_truncated] gives any weight to a key of its
    bucket whose original position is after its own. *)
Definition no_weight_on_future_keys : Prop :=
  forall (list_lsh : list Lsh.LshGating)
         (batch_size nb_heads length depth H : nat)
         (q k : list (list (list (list Q))))
         (gates_q gates_k : list (list (list Q)))
         (w : list (list (list (list R))))
         (q_dispatcher k_dispatcher : TruncatingDispatcher)
         (b e i j tq tk : nat),
    Forall (Lsh.built depth H) list_lsh ->
    sparse_weights list_lsh batch_size nb_heads length depth (2 ^ H) q k true =
      inr (gates_q, gates_k, w) ->
    get_dispatcher (2 ^ H) length gates_q = inr q_dispatcher ->
    get_dispatcher (2 ^ H) length gates_k = inr k_dispatcher ->
    nth_error (slots (nth b gates_q []) (_expert_capacity q_dispatcher) e) i =
      Some (Some tq) ->
    nth_error (slots (nth b gates_k []) (_expert_capacity k_dispatcher) e) j =
      Some (Some tk) ->
    (tq < tk)%nat ->
    nth j (nth i (nth e (nth b w []) []) []) 0%R = 0%R.

(** The same property of [grouped_attention_multihead], whose weights are
    those of [grouped_attention_weights] between its two dispatchers. *)
Definition no_weight_on_future_keys_of_groups : Prop :=
  forall (length_q length_kv num_groups : nat) (density mult add : Q)
         (q_pred m_pred : list (list (list Q)))
         (depth_qk depth_v : nat) (q kv : list (list (list R)))
         (b e i j tq tk : nat),
    let d := grouped_dispatchers length_q length_kv num_groups density mult add
               q_pred m_pred in
    nth_error (slots (nth b (_requests (fst d)) []) (_expert_capacity (fst d)) e) i =
      Some (Some tq) ->
    nth_error (slots (nth b (_requests (snd d)) []) (_expert_capacity (snd d)) e) j =
      Some (Some tk) ->
    (tq < tk)%nat ->
    nth j (nth i (nth e (nth b
      (grouped_attention_weights true (fst d) (snd d) depth_qk depth_v q kv)
      []) []) []) 0%R = 0%R.



End Sparse.

(** ** Padding masks and attention biases *)

Module Masks.

Import Dtype Zip.
Local Open Scope Q_scope.

(** [tf.cast(b, tf.float32)] on a boolean tensor entry. *)
Definition bool_to_float (b : bool) : Q := if b then 1 else 0.

(** [embedding_to_padding], lines 926-939, on an [emb] of shape
    [[batch, length, depth]]. *)
Definition embedding_to_padding (emb : list (list (list Q))) : list (list Q) :=
  let emb_sum := map (map (fun e => Sparse.qsum (map Qabs e))) emb in
  map (map (fun s => bool_to_float (Qeq_bool s 0))) emb_sum.

(** [padding_to_length], lines 943-952, on a [padding] of shape
    [[batch, length]]; the number cast by [tf.to_int32] is a count of
    positions. *)
Definition padding_to_length (padding : list (list Q)) : list Z :=
  let non_padding := map (map (fun p => 1 - p)) padding in
  map (fun r => Sparse.truncate (Sparse.qsum r)) non_padding.

(** [attention_bias_ignore_padding], lines 1020-1030.  [tensor_type] is the
    dtype of [memory_padding], of shape [[batch, memory_length]]; the result
    has shape [[batch, 1, 1, memory_length]]. *)
Definition attention_bias_ignore_padding (tensor_type : dtype)
    (memory_padding : list (list Q)) : list (list (list (list Q))) :=
  let ret := map (map (fun p => p * large_compatible_negative tensor_type))
                 memory_padding in
  map (fun r => [[r]]) ret.

Fixpoint py_map {A B : Type} (f : A -> py B) (l : list A) : py (list B) :=
  match l with
  | [] => ret []
  | a :: l' => b <- f a ;; r <- py_map f l' ;; ret (b :: r)
  end.

(** [tf.squeeze(x, axis=[1, 2])] on a rank-4 tensor: both axes have to have
    one entry. *)
Definition squeeze_1_2 {A : Type} (x : list (list (list (list A))))
    : py (list (list A)) :=
  py_map (fun b => match b with
                   | [[r]] => ret r
                   | _ => raise (ValueError "Can not squeeze dim")
                   end) x.

(** [attention_bias_to_padding], lines 1034-1049. *)
Definition attention_bias_to_padding {A : Type}
    (attention_bias : list (list (list (list Q)))) (cast_fn : bool -> A)
    : py (list (list A)) :=
  squeeze_1_2
    (map (map (map (map (fun b => cast_fn (QOps.Qlt_bool b (- (1)))))))
         attention_bias).

(** Broadcasting a binary operation along one axis: equal sizes pair up, a
    size of one is repeated, anything else is a shape error. *)
Definition broadcast2 {A B C : Type} (f : A -> B -> C)
    (la : list A) (lb : list B) : py (list C) :=
  if (List.length la =? List.length lb)%nat then ret (map2 f la lb)
  else match la, lb with
       | [a], _ => ret (map (f a) lb)
       | _, [b] => ret (map (fun a => f a b) la)
       | _, _ => raise (ValueError "Incompatible shapes")
       end.

(** [attention_bias_same_segment], lines 999-1016.  [tensor_type] is the
    dtype of [memory_segment_id]; the arguments have shapes
    [[batch, query_length]] and [[batch, memory_length]], the result
    [[batch, 1, query_length, memory_length]]. *)
Definition attention_bias_same_segment (tensor_type : dtype)
    (query_segment_id memory_segment_id : list (list Q))
    : py (list (list (list (list Q)))) :=
  ret <- broadcast2
           (fun q m =>
              map (fun qi =>
                     map (fun mj =>
                            bool_to_float (negb (Qeq_bool qi mj)) *
                            large_compatible_negative tensor_type) m) q)
           query_segment_id memory_segment_id ;;
  Monad.ret (map (fun r => [r]) ret).

(** [tf.cumsum(x, axis=1)] along one row. *)
Fixpoint cumsum_from (acc : Q) (l : list Q) : list Q :=
  match l with
  | [] => []
  | x :: l' => (acc + x) :: cumsum_from (acc + x) l'
  end.

Definition cumsum (l : list Q) : list Q := cumsum_from 0 l.

(** [tf.cumsum(x, axis=1, exclusive=True)] along one row. *)
Fixpoint cumsum_exclusive_from (acc : Q) (l : list Q) : list Q :=
  match l with
  | [] => []
  | x :: l' => acc :: cumsum_exclusive_from (acc + x) l'
  end.

Definition cumsum_exclusive (l : list Q) : list Q := cumsum_exclusive_from 0 l.

(** [attention_bias_prepend_inputs_full_attention], lines 1053-1081, on a
    [padding] of shape [[batch, length]]; the result has shape
    [[batch, 1, length, length]]. *)
Definition attention_bias_prepend_inputs_full_attention
    (padding : list (list Q)) : list (list (list (list Q))) :=
  let in_target := map cumsum_exclusive padding in
  let target_pos := map cumsum in_target in
  let illegal_connections :=
    map (fun tp => map (fun tp_i => map (fun tp_j => QOps.Qlt_bool tp_i tp_j) tp) tp)
        target_pos in
  let bias :=
    map (map (map (fun c => bool_to_float c * - (1000000000 # 1))))
        illegal_connections in
  map (fun b => [b]) bias.

(** [attention_bias_proximal], lines 1085-1096; the result has shape
    [[1, 1, length, length]]. *)
Definition attention_bias_proximal (length : nat) : list (list (list (list R))) :=
  let r := map INR (seq 0 length) in
  let diff := map (fun ri => map (fun rj => (rj - ri)%R) r) r in
  [[map (map (fun d => (- ln (1 + Rabs d))%R)) diff]].

End Masks.

(** ** Splitting the channels into heads *)

Module Heads.

Local Open Scope Z_scope.

(** [tf.reshape] of a row of [count * size] entries to [[count, size]]. *)
Definition chunks {A : Type} (count size : nat) (l : list A) : list (list A) :=
  map (fun i => firstn size (skipn (i * size) l)) (seq 0 count).

(** [split_last_dimension], lines 1151-1167, on an [x] of static shape
    [[batch, length, m]].  A reshape to a negative size is a TensorFlow
    error. *)
Definition split_last_dimension {A : Type} (m : Z)
    (x : list (list (list A))) (n : Z) : py (list (list (list (list A)))) :=
  r <- py_mod m n ;;
  if negb (r =? 0) then raise AssertionError
  else
    size <- py_floordiv m n ;;
    if (n <? 0) || (size <? 0)
    then raise (ValueError "Shape must not contain negative sizes")
    else ret (map (map (chunks (Z.to_nat n) (Z.to_nat size))) x).

(** [combine_last_two_dimensions], lines 1171-1182, on a rank-4 [x]. *)
Definition combine_last_two_dimensions {A : Type}
    (x : list (list (list (list A)))) : list (list (list A)) :=
  map (map (@List.concat A)) x.

(** [split_heads], lines 1204-1214.  [length] and [m] are the static
    dimensions 1 and 2 of [x]. *)
Definition split_heads {A : Type} (length : nat) (m : Z)
    (x : list (list (list A))) (num_heads : Z)
    : py (list (list (list (list A)))) :=
  y <- split_last_dimension m x num_heads ;;
  ret (map (Sparse.transpose_first_two length (Z.to_nat num_heads)) y).

(** [combine_heads], lines 1248-1257.  [num_heads] and [length] are the
    static dimensions 1 and 2 of [x]. *)
Definition combine_heads {A : Type} (num_heads length : nat)
    (x : list (list (list (list A)))) : list (list (list A)) :=
  combine_last_two_dimensions
    (map (Sparse.transpose_first_two num_heads length) x).

End Heads.

(** ** Relative positions *)

Module Relative.

Import QOps.
Local Open Scope Z_scope.

(** [tf.range(start, limit)]. *)
Definition tf_range (start limit : Z) : list Z :=
  map (fun i => start + Z.of_nat i) (seq 0 (Z.to_nat (limit - start))).

(** [l[start:]], where a negative [start] counts from the end. *)
Definition slice_from {A : Type} (start : Z) (l : list A) : list A :=
  let start := if start <? 0 then Z.max 0 (Z.of_nat (List.length l) + start)
               else start in
  skipn (Z.to_nat start) l.

(** [tf.clip_by_value(t, clip_value_min, clip_value_max)]: the minimum with
    [clip_value_max] is taken first, then the maximum with
    [clip_value_min]. *)
Definition clip_by_value (t clip_value_min clip_value_max : Z) : Z :=
  Z.max (Z.min t clip_value_max) clip_value_min.

(** [_generate_relative_positions_matrix], lines 1676-1694. *)
Definition _generate_relative_positions_matrix
    (length_q length_k max_relative_position : Z) (cache : bool)
    : list (list Z) :=
  let distance_mat :=
    if negb cache then
      let '(range_vec_q, range_vec_k) :=
        if length_q =? length_k
        then (tf_range 0 length_q, tf_range 0 length_q)
        else let range_vec_k := tf_range 0 length_k in
             (slice_from (- length_q) range_vec_k, range_vec_k) in
      map (fun q => map (fun k => k - q) range_vec_k) range_vec_q
    else [tf_range (- length_k + 1) 1] in
  let distance_mat_clipped :=
    map (map (fun d => clip_by_value d (- max_relative_position)
                                     max_relative_position)) distance_mat in
  map (map (fun d => d + max_relative_position)) distance_mat_clipped.

(** [tf.gather(params, index)] for one index: an index outside of the table
    is an error. *)
Definition gather (params : list (list Q)) (index : Z) : py (list Q) :=
  match (if index <? 0 then None else nth_error params (Z.to_nat index)) with
  | Some row => ret row
  | None => raise (IndexError "indices is not in [0, params.shape[0])")
  end.

(** [_generate_relative_positions_embeddings], lines 1697-1708.  [stored] is
    what the variable store holds under ["embeddings"]. *)
Definition _generate_relative_positions_embeddings
    (stored : matrix) (length_q length_k : Z) (depth : nat)
    (max_relative_position : Z) (cache : bool)
    : py (list (list (list Q))) :=
  let relative_positions_matrix :=
    _generate_relative_positions_matrix length_q length_k
      max_relative_position cache in
  let vocab_size := max_relative_position * 2 + 1 in
  if vocab_size <? 0 then raise (ValueError "Shape must not contain negative sizes")
  else
    embeddings_table <- tf_get_variable stored (Z.to_nat vocab_size) depth ;;
    Masks.py_map (Masks.py_map (gather (rows embeddings_table)))
                 relative_positions_matrix.

End Relative.

(** ** Decoding steps in blocked raster-scan order *)

Module Decode.

Import Zip.
Local Open Scope Z_scope.

(** The value a 32-bit signed integer holds after an overflow. *)
Definition wrap_int32 (z : Z) : Z := (z + 2 ^ 31) mod 2 ^ 32 - 2 ^ 31.

(** [np.prod(l, dtype=np.int32)]. *)
Definition np_prod_int32 (l : list Z) : Z := wrap_int32 (fold_right Z.mul 1 l).

(** [a // b] and [a % b] on NumPy integers: as on Python ints, except that a
    zero divisor gives 0 (and a warning) instead of raising. *)
Definition np_floordiv (a b : Z) : Z := if b =? 0 then 0 else a / b.

Definition np_mod (a b : Z) : Z := if b =? 0 then 0 else a mod b.

(** The two loops of [decode_step_to_index], lines 5021-5028: the radices
    are visited last to first, and each digit is put in front of the ones
    found so far. *)
Fixpoint raster_loop (reversed : list Z) (step : Z) (index : list Z) : list Z :=
  match reversed with
  | [] => index
  | q :: rest => raster_loop rest (np_floordiv step q) (np_mod step q :: index)
  end.

(** [decode_step_to_index], lines 5001-5033.  [decode_step] is a Python int;
    the quotient by the NumPy product makes the steps NumPy integers, on
    which [//] and [%] by zero give 0.  Only the product is computed in 32
    bits: the steps are 64 bits wide, and the quotients and remainders of
    the loops are bounded by their arguments. *)
Definition decode_step_to_index (decode_step : Z)
    (query_shape tensor_shape : list Z) : py (list Z) :=
  if negb (List.length query_shape =? List.length tensor_shape)%nat
  then raise AssertionError
  else
    blocks_per_dimension <-
      Masks.py_map (fun tq => py_floordiv (fst tq) (snd tq))
                   (List.combine tensor_shape query_shape) ;;
    let items_in_block := np_prod_int32 query_shape in
    let step_block := np_floordiv decode_step items_in_block in
    let step_within_block := np_mod decode_step items_in_block in
    let block_index := raster_loop (rev blocks_per_dimension) step_block [] in
    let within_block_index :=
      raster_loop (rev query_shape) step_within_block [] in
    let final_index :=
      map3 (fun w b q => w + b * q) within_block_index block_index query_shape in
    ret final_index.



End Decode.

(** ** Relative and absolute indexing of attention logits *)

Module Skew.

Import Heads.

(** What [_relative_position_to_absolute_position_masked] does to the
    [[length, length]] matrix of one batch entry and head.  [zero] is the
    value [tf.pad] fills in. *)
Definition relative_to_absolute_masked {A : Type} (zero : A) (length : nat)
    (m : list (list A)) : list (list A) :=
  (* tf.pad(x, [[0, 0], [0, 0], [0, 0], [1, 0]]) *)
  let m := map (cons zero) m in
  (* tf.reshape(x, [batch, heads, 1 + length, length]) *)
  let m := chunks (1 + length) length (List.concat m) in
  (* tf.slice(x, [0, 0, 1, 0], [-1, -1, -1, -1]) *)
  skipn 1 m.

(** [_relative_position_to_absolute_position_masked], lines 1836-1860, on
    an [x] of static shape [[batch, heads, length, length]]. *)
Definition _relative_position_to_absolute_position_masked {A : Type} (zero : A)
    (length : nat) (x : list (list (list (list A))))
    : list (list (list (list A))) :=
  map (map (relative_to_absolute_masked zero length)) x.

(** What [_absolute_position_to_relative_position_masked] does to one
    matrix. *)
Definition absolute_to_relative_masked {A : Type} (zero : A) (length : nat)
    (m : list (list A)) : list (list A) :=
  (* tf.pad(x, [[0, 0], [0, 0], [1, 0], [0, 0]]) *)
  let m := repeat zero length :: m in
  (* tf.reshape(x, [batch, heads, length, length + 1]) *)
  let m := chunks length (length + 1) (List.concat m) in
  (* tf.slice(x, [0, 0, 0, 1], [batch, heads, length, length]) *)
  map (fun r => firstn length (skipn 1 r)) (firstn length m).

(** [_absolute_position_to_relative_position_masked], lines 1863-1887.  The
    slice takes the whole of the first two axes. *)
Definition _absolute_position_to_relative_position_masked {A : Type} (zero : A)
    (length : nat) (x : list (list (list (list A))))
    : list (list (list (list A))) :=
  map (map (absolute_to_relative_masked zero length)) x.

(** What [_absolute_position_to_relative_position_unmasked] does to one
    matrix. *)
Definition absolute_to_relative_unmasked {A : Type} (zero : A) (length : nat)
    (m : list (list A)) : list (list A) :=
  (* tf.pad(x, [[0, 0], [0, 0], [0, 0], [0, length - 1]]) *)
  let m := map (fun r => r ++ repeat zero (length - 1)) m in
  (* tf.reshape(x, [batch, heads, length ** 2 + length * (length - 1)]) *)
  let x_flat := List.concat m in
  (* tf.pad(x_flat, [[0, 0], [0, 0], [length, 0]]) *)
  let x_flat := repeat zero length ++ x_flat in
  (* tf.reshape(x_flat, [batch, heads, length, 2 * length]) *)
  let m := chunks length (2 * length) x_flat in
  (* tf.slice(x, [0, 0, 0, 1], [batch, heads, length, 2 * length - 1]) *)
  map (fun r => firstn (2 * length - 1) (skipn 1 r)) (firstn length m).

(** [_absolute_position_to_relative_position_unmasked], lines 2041-2069.
    With [length = 0] the first padding is negative. *)
Definition _absolute_position_to_relative_position_unmasked {A : Type} (zero : A)
    (length : nat) (x : list (list (list (list A))))
    : py (list (list (list (list A)))) :=
  if (length =? 0)%nat then raise (ValueError "Paddings must be non-negative")
  else ret (map (map (absolute_to_relative_unmasked zero length)) x).

(** What [_relative_position_to_absolute_position_unmasked] does to the
    [[length, 2 * length - 1]] matrix of one batch entry and head. *)
Definition relative_to_absolute_unmasked {A : Type} (zero : A) (length : nat)
    (m : list (list A)) : list (list A) :=
  (* tf.concat([x, col_pad], axis=3) *)
  let m := map (fun r => r ++ [zero]) m in
  (* tf.reshape(x, [batch, heads, length * 2 * length]) *)
  let flat_x := List.concat m in
  (* tf.concat([flat_x, flat_pad], axis=2) *)
  let flat_x_padded := flat_x ++ repeat zero (length - 1) in
  (* tf.reshape(flat_x_padded, [batch, heads, length + 1, 2 * length - 1]) *)
  let final_x := chunks (length + 1) (2 * length - 1) flat_x_padded in
  (* final_x[:, :, :, length - 1:] *)
  let final_x := map (skipn (length - 1)) final_x in
  (* final_x[:, :, :length, :] *)
  firstn length final_x.

(** [_relative_position_to_absolute_position_unmasked], lines 2819-2846.
    With [length = 0] the flat padding has a negative size. *)
Definition _relative_position_to_absolute_position_unmasked {A : Type} (zero : A)
    (length : nat) (x : list (list (list (list A))))
    : py (list (list (list (list A)))) :=
  if (length =? 0)%nat then raise (ValueError "Dimension -1 must be >= 0")
  else ret (map (map (relative_to_absolute_unmasked zero length)) x).

End Skew.

(** ** Padding to whole blocks *)

Module Blocks.

Local Open Scope Z_scope.

(** [l[i]] on a Python list. *)
Definition list_index (l : list Z) (i : nat) : py Z :=
  match nth_error l i with
  | Some v => ret v
  | None => raise (IndexError "list index out of range")
  end.

(** [tf.pad(x, [[0, 0], [0, height_padding], [0, width_padding], [0, 0]])]
    on an [x] of static shape [[batch, h, w, depth]]; [zero] is the value
    [tf.pad] fills in. *)
Definition pad_height_width {A : Type} (zero : A) (w depth : nat)
    (height_padding width_padding : nat) (x : list (list (list (list A))))
    : list (list (list (list A))) :=
  map (fun xb =>
         map (fun row => row ++ repeat (repeat zero depth) width_padding) xb ++
         repeat (repeat (repeat zero depth) (w + width_padding)) height_padding)
      x.

(** [pad_to_multiple_2d], lines 3671-3696, the branch for an [x] of rank 4
    and static shape [[batch, h, w, depth]]; the branch for rank 5 does the
    same below a [heads] axis.  A negative padding is a TensorFlow error. *)
Definition pad_to_multiple_2d {A : Type} (zero : A) (h w depth : nat)
    (x : list (list (list (list A)))) (block_shape : list Z)
    : py (list (list (list (list A)))) :=
  block_h <- list_index block_shape 0 ;;
  height_padding <- py_mod (- Z.of_nat h) block_h ;;
  block_w <- list_index block_shape 1 ;;
  width_padding <- py_mod (- Z.of_nat w) block_w ;;
  if (height_padding <? 0) || (width_padding <? 0)
  then raise (ValueError "Paddings must be non-negative")
  else ret (pad_height_width zero w depth (Z.to_nat height_padding)
              (Z.to_nat width_padding) x).

End Blocks.

(** ** Timing signals *)

Module Timing.

Local Open Scope R_scope.

(** [math.log(float(max_timescale) / float(min_timescale))]: the division
    raises on a zero divisor and the logarithm outside of its domain. *)
Definition log_timescale_ratio (min_timescale max_timescale : R) : py R :=
  if Req_dec_T min_timescale 0
  then raise (ZeroDivisionError "float division by zero")
  else if Rle_lt_dec (max_timescale / min_timescale) 0
  then raise (ValueError "math domain error")
  else ret (ln (max_timescale / min_timescale)).

(** [get_timing_signal_1d], lines 416-464; the result has shape
    [[1, length, channels]]. *)
Definition get_timing_signal_1d (length channels : nat)
    (min_timescale max_timescale : R) (start_index : Z)
    : py (list (list (list R))) :=
  let position :=
    map (fun i => IZR (Z.of_nat i + start_index)) (seq 0 length) in
  let num_timescales := (channels / 2)%nat in
  ratio <- log_timescale_ratio min_timescale max_timescale ;;
  let log_timescale_increment := ratio / Rmax (INR num_timescales - 1) 1 in
  let inv_timescales :=
    map (fun i => min_timescale * exp (INR i * - log_timescale_increment))
        (seq 0 num_timescales) in
  let scaled_time := map (fun p => map (fun t => p * t) inv_timescales) position in
  let signal := map (fun r => map sin r ++ map cos r) scaled_time in
  let signal := map (fun r => r ++ repeat 0 (channels mod 2)) signal in
  ret [signal].

End Timing.

(** * Theorems *)

(** ** Sentinels *)

Module DtypeFacts.

Import Dtype.
Local Open Scope Q_scope.

Lemma dtype_eqb_spec (a b : dtype) : reflect (a = b) (dtype_eqb a b).
Proof. destruct a, b; simpl; constructor; congruence. Qed.

Lemma float16_min_representable : float16_representable float16_min.
Proof.
  exists (-2047)%Z, 5%Z. repeat split; try lia; reflexivity.
Qed.

Ltac exponent_cases e :=
  assert (e = -24 \/ e = -23 \/ e = -22 \/ e = -21 \/ e = -20 \/ e = -19 \/
          e = -18 \/ e = -17 \/ e = -16 \/ e = -15 \/ e = -14 \/ e = -13 \/
          e = -12 \/ e = -11 \/ e = -10 \/ e = -9 \/ e = -8 \/ e = -7 \/
          e = -6 \/ e = -5 \/ e = -4 \/ e = -3 \/ e = -2 \/ e = -1 \/
          e = 0 \/ e = 1 \/ e = 2 \/ e = 3 \/ e = 4 \/ e = 5)%Z by lia.

(** A finite binary16 number has magnitude at most 65504. *)
Lemma float16_representable_bound (x : Q) :
  float16_representable x ->
  - float16_max_magnitude <= x <= float16_max_magnitude.
Proof.
  intros (m & e & Hm & He & Hx). rewrite Hx. clear Hx x.
  exponent_cases e.
  repeat match goal with
         | H : _ \/ _ |- _ => destruct H as [H | H]
         end; subst e;
    unfold float16_max_magnitude, Qle, inject_Z; simpl; split; lia.
Qed.

Lemma standard_sentinel_not_float16 :
  ~ float16_representable (- (1000000000 # 1)).
Proof.
  intros H. apply float16_representable_bound in H.
  destruct H as [H _]. unfold float16_max_magnitude, Qle in H. simpl in H. lia.
Qed.

(** C9. [large_compatible_negative] returns [tf.float16.min], a finite
    binary16 number, for [float16], and [-1e9], which binary16 cannot
    represent, for every other type. *)
Theorem large_compatible_negative_type_appropriate :
  large_compatible_negative float16 = float16_min /\
  float16_representable (large_compatible_negative float16) /\
  (forall t : dtype, t <> float16 ->
     large_compatible_negative t = - (1000000000 # 1)) /\
  ~ float16_representable (- (1000000000 # 1)).
Proof.
  split; [reflexivity |].
  split; [exact float16_min_representable |].
  split; [| exact standard_sentinel_not_float16].
  intros t Ht. unfold large_compatible_negative.
  destruct (dtype_eqb_spec t float16); [contradiction | reflexivity].
Qed.

Lemma large_compatible_negative_float32 :
  large_compatible_negative float32 = - (1000000000 # 1).
Proof.
  apply (proj1 (proj2 (proj2 large_compatible_negative_type_appropriate))).
  discriminate.
Defined.

End DtypeFacts.

(** ** Configuration errors *)

Module ConfigFacts.

Import Config.

Lemma py_mod_nonzero (a b : Z) : b <> 0%Z -> py_mod a b = inr (a mod b)%Z.
Proof.
  intros Hb. unfold py_mod. destruct (Z.eqb_spec b 0); [contradiction | reflexivity].
Qed.

Lemma py_floordiv_nonzero (a b : Z) : b <> 0%Z -> py_floordiv a b = inr (a / b)%Z.
Proof.
  intros Hb. unfold py_floordiv.
  destruct (Z.eqb_spec b 0); [contradiction | reflexivity].
Qed.

Lemma py_mod_zero_divisor (a : Z) :
  py_mod a 0 = inl (ZeroDivisionError "integer division or modulo by zero").
Proof. reflexivity. Qed.

Lemma mod_zero_iff_divide (a b : Z) :
  b <> 0%Z -> ((a mod b =? 0)%Z = true <-> (b | a)%Z).
Proof.
  intros Hb. rewrite Z.eqb_eq. split.
  - intros H. exists (a / b)%Z. pose proof (Z.div_mod a b Hb). lia.
  - intros [c Hc]. subst a. apply Z.mod_mul. exact Hb.
Qed.

Lemma not_divide_mod (a b : Z) :
  b <> 0%Z -> ~ (b | a)%Z -> negb (a mod b =? 0)%Z = true.
Proof.
  intros Hb Hd. destruct (a mod b =? 0)%Z eqn:E; [| reflexivity].
  apply mod_zero_iff_divide in E; [contradiction | exact Hb].
Qed.

Lemma divide_mod (a b : Z) :
  b <> 0%Z -> (b | a)%Z -> negb (a mod b =? 0)%Z = false.
Proof.
  intros Hb Hd. apply (mod_zero_iff_divide a b Hb) in Hd. now rewrite Hd.
Qed.

Section Checks.

Context {T : Type}.

Lemma multihead_attention_key_depth (tkd tvd nh : Z) (rest : py T) :
  nh <> 0%Z -> ~ (nh | tkd)%Z ->
  multihead_attention tkd tvd nh rest = inl (ValueError (key_depth_msg tkd nh)).
Proof.
  intros Hnh Hd. unfold multihead_attention.
  rewrite (py_mod_nonzero _ _ Hnh). simpl.
  now rewrite (not_divide_mod _ _ Hnh Hd).
Qed.

Lemma multihead_attention_value_depth (tkd tvd nh : Z) (rest : py T) :
  nh <> 0%Z -> (nh | tkd)%Z -> ~ (nh | tvd)%Z ->
  multihead_attention tkd tvd nh rest = inl (ValueError (value_depth_msg tvd nh)).
Proof.
  intros Hnh Hk Hd. unfold multihead_attention.
  rewrite (py_mod_nonzero _ _ Hnh). simpl.
  rewrite (divide_mod _ _ Hnh Hk).
  rewrite (py_mod_nonzero _ _ Hnh). simpl.
  now rewrite (not_divide_mod _ _ Hnh Hd).
Qed.

Lemma grouped_checks_key_depth (tkd tvd nh : Z) (rest : Z -> Z -> py T) :
  nh <> 0%Z -> ~ (nh | tkd)%Z ->
  grouped_attention_multihead_checks tkd tvd nh rest =
  inl (ValueError (key_depth_msg tkd nh)).
Proof.
  intros Hnh Hd. unfold grouped_attention_multihead_checks.
  rewrite (py_mod_nonzero _ _ Hnh). simpl.
  now rewrite (not_divide_mod _ _ Hnh Hd).
Qed.

Lemma grouped_checks_value_depth (tkd tvd nh : Z) (rest : Z -> Z -> py T) :
  nh <> 0%Z -> (nh | tkd)%Z -> ~ (nh | tvd)%Z ->
  grouped_attention_multihead_checks tkd tvd nh rest =
  inl (ValueError (value_depth_msg tvd nh)).
Proof.
  intros Hnh Hk Hd. unfold grouped_attention_multihead_checks.
  rewrite (py_mod_nonzero _ _ Hnh). simpl.
  rewrite (divide_mod _ _ Hnh Hk).
  rewrite (py_floordiv_nonzero _ _ Hnh). simpl.
  rewrite (py_mod_nonzero _ _ Hnh). simpl.
  now rewrite (not_divide_mod _ _ Hnh Hd).
Qed.

(** When both depths are divisible the checks hand over to the rest of the
    function: they reject nothing else. *)
Lemma multihead_attention_accepts (tkd tvd nh : Z) (rest : py T) :
  nh <> 0%Z -> (nh | tkd)%Z -> (nh | tvd)%Z ->
  multihead_attention tkd tvd nh rest = rest.
Proof.
  intros Hnh Hk Hv. unfold multihead_attention.
  rewrite (py_mod_nonzero _ _ Hnh). simpl.
  rewrite (divide_mod _ _ Hnh Hk).
  rewrite (py_mod_nonzero _ _ Hnh). simpl.
  now rewrite (divide_mod _ _ Hnh Hv).
Qed.

(** With zero heads the modulo itself raises, before any message is built. *)
Lemma multihead_attention_zero_heads (tkd tvd : Z) (rest : py T) :
  multihead_attention tkd tvd 0 rest =
  inl (ZeroDivisionError "integer division or modulo by zero").
Proof. reflexivity. Qed.

(** A depth the head count does not divide never gets past the checks,
    zero heads included. *)
Lemma multihead_attention_rejects (tkd tvd nh : Z) (rest : py T) :
  ~ (nh | tkd)%Z \/ ~ (nh | tvd)%Z ->
  raises (multihead_attention tkd tvd nh rest).
Proof.
  intros H. destruct (Z.eq_dec nh 0) as [-> | Hnh]; [exact I |].
  destruct (tkd mod nh =? 0)%Z eqn:Ek.
  - apply (mod_zero_iff_divide tkd nh Hnh) in Ek.
    destruct H as [H | H]; [contradiction |].
    now rewrite (multihead_attention_value_depth tkd tvd nh rest Hnh Ek H).
  - assert (Hk : ~ (nh | tkd)%Z).
    { intros Hd. apply (mod_zero_iff_divide tkd nh Hnh) in Hd. congruence. }
    now rewrite (multihead_attention_key_depth tkd tvd nh rest Hnh Hk).
Qed.

End Checks.

(** C5. Configuration errors raise [ValueError] with a message that names
    the offending values, whatever the rest of the function would do:
    a key or value depth the (non-zero) head count does not divide in
    [multihead_attention] and [grouped_attention_multihead], an unset or
    zero [max_relative_position] in [dot_product_attention_relative], an
    unset [factor] or [multihead_params] in
    [multihead_self_attention_reduced]; and no head count, zero included,
    lets an indivisible depth through. *)
Theorem configuration_errors_fail_fast :
  (forall (T : Type) (tkd tvd nh : Z) (rest : py T),
     nh <> 0%Z ->
     (~ (nh | tkd)%Z ->
      multihead_attention tkd tvd nh rest =
      inl (ValueError (key_depth_msg tkd nh))) /\
     ((nh | tkd)%Z -> ~ (nh | tvd)%Z ->
      multihead_attention tkd tvd nh rest =
      inl (ValueError (value_depth_msg tvd nh)))) /\
  (forall length_q length_kv (tkd tvd nh : Z) num_groups density mult add
          mask_right q kv q_pred m_pred,
     nh <> 0%Z ->
     (~ (nh | tkd)%Z ->
      Sparse.grouped_attention_multihead length_q length_kv tkd tvd nh
        num_groups density mult add mask_right q kv q_pred m_pred =
      inl (ValueError (key_depth_msg tkd nh))) /\
     ((nh | tkd)%Z -> ~ (nh | tvd)%Z ->
      Sparse.grouped_attention_multihead length_q length_kv tkd tvd nh
        num_groups density mult add mask_right q kv q_pred m_pred =
      inl (ValueError (value_depth_msg tvd nh)))) /\
  (forall (T : Type) (max_relative_position : option Z) (rest : py T),
     max_relative_position = None \/ max_relative_position = Some 0%Z ->
     dot_product_attention_relative max_relative_position rest =
     inl (ValueError (max_relative_position_msg max_relative_position))) /\
  (forall (T K V M : Type) (memory_antecedent : option M) (factor : option Z)
          (multihead_params : option (list (K * V))) (rest : py T),
     factor = None \/ multihead_params = None ->
     multihead_self_attention_reduced memory_antecedent factor
       multihead_params rest =
     inl (ValueError "factor and multihead_params should be set")) /\
  (forall (T : Type) (tkd tvd nh : Z) (rest : py T),
     ~ (nh | tkd)%Z \/ ~ (nh | tvd)%Z ->
     raises (multihead_attention tkd tvd nh rest)).
Proof.
  split; [| split; [| split; [| split]]];
    [| | | | intros; now apply multihead_attention_rejects].
  - intros T tkd tvd nh rest Hnh. split.
    + now apply multihead_attention_key_depth.
    + now apply multihead_attention_value_depth.
  - intros. unfold Sparse.grouped_attention_multihead. split.
    + now apply grouped_checks_key_depth.
    + now apply grouped_checks_value_depth.
  - intros T mrp rest [-> | ->]; reflexivity.
  - intros T K V M ma factor mp rest [-> | ->].
    + reflexivity.
    + unfold multihead_self_attention_reduced.
      destruct (negb (truthy_opt_int factor)); reflexivity.
Qed.

Lemma configuration_errors_at_ten_by_three :
  multihead_attention 10 12 3 (inr tt) = inl (ValueError (key_depth_msg 10 3)) /\
  multihead_attention 12 10 3 (inr tt) = inl (ValueError (value_depth_msg 10 3)) /\
  dot_product_attention_relative (Some 0%Z) (inr tt) =
    inl (ValueError (max_relative_position_msg (Some 0%Z))) /\
  multihead_self_attention_reduced (K := nat) (V := nat) (@None nat) None
    (Some [(1%nat, 1%nat)]) (inr tt) =
    inl (ValueError "factor and multihead_params should be set").
Proof.
  pose proof configuration_errors_fail_fast as (Hm & _ & Hr & Hf & _).
  assert (H3 : 3%Z <> 0%Z) by lia.
  assert (N10 : ~ (3 | 10)%Z) by (intros [c Hc]; lia).
  assert (D12 : (3 | 12)%Z) by (exists 4%Z; lia).
  split; [| split; [| split]].
  - apply (proj1 (Hm unit 10 12 3 (inr tt) H3)%Z); exact N10.
  - apply (proj2 (Hm unit 12 10 3 (inr tt) H3)%Z); [exact D12 | exact N10].
  - apply Hr. now right.
  - apply Hf. now left.
Defined.

Example key_depth_message :
  key_depth_msg 10 3 =
  "Key depth (10) must be divisible by the number of attention heads (3).".
Proof. reflexivity. Qed.

End ConfigFacts.

(** ** LSH gating *)

Module LshFacts.

Import QOps Lsh.

Lemma pos_bits_length (p : positive) :
  forall H : nat, (Pos.to_nat p < 2 ^ H)%nat -> (List.length (pos_bits p) <= H)%nat.
Proof.
  induction p as [p IH | p IH |]; intros [| H] Hlt.
  - pose proof (Pos2Nat.is_pos p~1). rewrite Nat.pow_0_r in Hlt. lia.
  - rewrite Pos2Nat.inj_xI, Nat.pow_succ_r' in Hlt.
    specialize (IH H). simpl. lia.
  - pose proof (Pos2Nat.is_pos p~0). rewrite Nat.pow_0_r in Hlt. lia.
  - rewrite Pos2Nat.inj_xO, Nat.pow_succ_r' in Hlt.
    specialize (IH H). simpl. lia.
  - rewrite Nat.pow_0_r in Hlt. rewrite Pos2Nat.inj_1 in Hlt. lia.
  - simpl. lia.
Qed.

Lemma bin_length (H i : nat) :
  (0 < H)%nat -> (i < 2 ^ H)%nat -> (List.length (bin i) <= H)%nat.
Proof.
  intros HH Hi. unfold bin. destruct (N.of_nat i) as [| p] eqn:E; simpl; [lia |].
  rewrite length_rev. apply pos_bits_length.
  assert (Pos.to_nat p = i) by lia. lia.
Qed.

Lemma _idx_to_bits_length (H i : nat) :
  (0 < H)%nat -> (i < 2 ^ H)%nat -> List.length (_idx_to_bits H i) = H.
Proof.
  intros HH Hi. unfold _idx_to_bits, zfill.
  rewrite length_map, length_app, repeat_length.
  pose proof (bin_length H i HH Hi). lia.
Qed.

(** The lookup matrix holds nothing but [1] and [-1]. *)
Lemma _idx_to_bits_plus_minus_one (H i : nat) :
  Forall (fun x : Q => x = 1%Q \/ x = (- (1))%Q) (_idx_to_bits H i).
Proof.
  unfold _idx_to_bits. apply Forall_forall. intros x Hx.
  apply in_map_iff in Hx. destruct Hx as ([|] & <- & _); auto.
Qed.

Lemma pow2_pos (H : nat) : (0 < 2 ^ H)%nat.
Proof. induction H; simpl; lia. Qed.

Lemma t_group_rectangular (H : nat) :
  (0 < H)%nat ->
  tf_constant (map (_idx_to_bits H) (seq 0 (2 ^ H))) =
  inr (mk_matrix (2 ^ H) H (map (_idx_to_bits H) (seq 0 (2 ^ H)))).
Proof.
  intros HH. unfold tf_constant.
  assert (Hw : List.length (hd [] (map (_idx_to_bits H) (seq 0 (2 ^ H)))) = H).
  { pose proof (pow2_pos H). destruct (2 ^ H)%nat as [| n] eqn:E; [lia |].
    simpl. apply _idx_to_bits_length; [exact HH | lia]. }
  rewrite Hw.
  replace (forallb _ _) with true.
  - rewrite length_map, length_seq. reflexivity.
  - symmetry. apply forallb_forall. intros r Hr.
    apply in_map_iff in Hr. destruct Hr as (i & <- & Hi).
    apply in_seq in Hi. apply Nat.eqb_eq. apply _idx_to_bits_length; lia.
Qed.

Lemma init_single_replica (stored : matrix) (depth H : nat) (trainable : bool) :
  (0 < H)%nat -> nrows stored = depth -> ncols stored = H ->
  __init__ stored depth H 1 trainable =
  inr (mk_LshGating depth H (2 ^ H) 1 trainable stored
         (mk_matrix (2 ^ H) H (map (_idx_to_bits H) (seq 0 (2 ^ H))))).
Proof.
  intros HH Hr Hc. unfold __init__. simpl.
  unfold tf_get_variable. rewrite Hr, Hc.
  replace (H * Pos.to_nat 1)%nat with H by (simpl; lia).
  rewrite !Nat.eqb_refl. simpl.
  rewrite (t_group_rectangular H HH). reflexivity.
Qed.

Lemma init_inversion (stored : matrix) (depth H : nat) (trainable : bool)
    (lsh : LshGating) :
  (0 < H)%nat ->
  __init__ stored depth H 1 trainable = inr lsh ->
  lsh = mk_LshGating depth H (2 ^ H) 1 trainable stored
          (mk_matrix (2 ^ H) H (map (_idx_to_bits H) (seq 0 (2 ^ H)))) /\
  nrows stored = depth /\ ncols stored = H.
Proof.
  intros HH. unfold __init__. simpl. unfold tf_get_variable.
  replace (H * Pos.to_nat 1)%nat with H by (simpl; lia).
  destruct (Nat.eqb_spec (nrows stored) depth) as [Hr | Hr]; simpl;
    [| discriminate].
  destruct (Nat.eqb_spec (ncols stored) H) as [Hc | Hc]; simpl;
    [| discriminate].
  rewrite (t_group_rectangular H HH). simpl.
  intros E. injection E as <-. auto.
Qed.

(** C10. Constructing [LshGating] with [nb_replicat] other than [1] fails on
    the assertion; with [nb_replicat = 1] the assertion never fails, and the
    construction completes once the stored variable has the requested
    shape. *)
Theorem lsh_gating_requires_single_replica :
  forall (stored : matrix) (depth H : nat) (nb_replicat : Z) (trainable : bool),
    (nb_replicat <> 1%Z ->
     __init__ stored depth H nb_replicat trainable = inl AssertionError) /\
    (nb_replicat = 1%Z ->
     __init__ stored depth H nb_replicat trainable <> inl AssertionError /\
     ((0 < H)%nat -> nrows stored = depth -> ncols stored = H ->
      exists lsh, __init__ stored depth H nb_replicat trainable = inr lsh /\
                  Lsh.nb_replicat lsh = 1%Z /\ nb_buckets lsh = (2 ^ H)%nat)).
Proof.
  intros stored depth H nb_replicat trainable. split.
  - intros Hn. unfold __init__.
    destruct (Z.eqb_spec nb_replicat 1); [contradiction | reflexivity].
  - intros ->. split.
    + unfold __init__. simpl. unfold tf_get_variable.
      destruct (_ && _)%bool; simpl; [| discriminate].
      unfold tf_constant. destruct (forallb _ _); simpl; discriminate.
    + intros HH Hr Hc. eexists. split.
      * apply init_single_replica; assumption.
      * split; reflexivity.
Qed.

Lemma lsh_gating_single_replica_built :
  __init__ (mk_matrix 2 1 [[1%Q]; [(- (1))%Q]]) 2 1 2 false = inl AssertionError /\
  exists lsh,
    __init__ (mk_matrix 2 1 [[1%Q]; [(- (1))%Q]]) 2 1 1 false = inr lsh /\
    Lsh.nb_replicat lsh = 1%Z /\ nb_buckets lsh = (2 ^ 1)%nat.
Proof.
  split.
  - apply (proj1 (lsh_gating_requires_single_replica
                    (mk_matrix 2 1 [[1%Q]; [(- (1))%Q]]) 2 1 2 false)).
    discriminate.
  - apply (proj2 (lsh_gating_requires_single_replica
                    (mk_matrix 2 1 [[1%Q]; [(- (1))%Q]]) 2 1 1 false) eq_refl);
      [lia | reflexivity | reflexivity].
Defined.

Lemma argmax_from_lt (l : list Q) :
  forall (best : Q) (best_i i : nat),
    (best_i < i)%nat -> (argmax_from best best_i i l < i + List.length l)%nat.
Proof.
  induction l as [| x l IH]; intros best best_i i Hlt; simpl.
  - lia.
  - destruct (Qlt_bool best x).
    + specialize (IH x i (S i)). lia.
    + specialize (IH best best_i (S i)). lia.
Qed.

Lemma argmax_lt (l : list Q) : l <> [] -> (argmax l < List.length l)%nat.
Proof.
  destruct l as [| x l]; [congruence |]. intros _. simpl.
  pose proof (argmax_from_lt l x 0%nat 1%nat). lia.
Qed.

Lemma one_hot_length (i n : nat) : List.length (one_hot i n) = n.
Proof. unfold one_hot. now rewrite length_map, length_seq. Qed.

Lemma nth_one_hot (i n j : nat) :
  (j < n)%nat -> nth j (one_hot i n) 0%Q = if (j =? i)%nat then 1%Q else 0%Q.
Proof.
  intros Hj. unfold one_hot.
  set (f := fun j : nat => if (j =? i)%nat then 1%Q else 0%Q).
  rewrite (nth_indep _ 0%Q (f 0%nat))
    by (rewrite length_map, length_seq; exact Hj).
  rewrite (map_nth f), seq_nth by exact Hj. reflexivity.
Qed.

Lemma filter_eqb_seq (b : nat) :
  forall n s : nat, (s <= b < s + n)%nat ->
    filter (fun j => (j =? b)%nat) (seq s n) = [b].
Proof.
  induction n as [| n IH]; intros s Hb; [lia |]. simpl.
  destruct (Nat.eqb_spec s b) as [-> | Hne].
  - f_equal. clear IH Hb. generalize (Nat.le_refl (S b)).
    generalize (S b) at 2 3. revert n.
    induction n as [| n IH]; intros s Hs; [reflexivity |]. simpl.
    destruct (Nat.eqb_spec s b); [lia |]. apply IH. lia.
  - apply IH. lia.
Qed.

(** A one-hot row assigns its token to exactly one bucket. *)
Lemma assigned_buckets_one_hot (b n : nat) :
  (b < n)%nat -> assigned_buckets (one_hot b n) = [b].
Proof.
  intros Hb. unfold assigned_buckets. rewrite one_hot_length.
  rewrite (filter_ext_in _ (fun j => (j =? b)%nat)).
  - apply filter_eqb_seq. lia.
  - intros j Hj. apply in_seq in Hj. rewrite nth_one_hot by lia.
    destruct (j =? b)%nat; reflexivity.
Qed.

Lemma bucket_scores_length (self : LshGating) (token : list Q) :
  List.length (bucket_scores self token) = nb_buckets self.
Proof. unfold bucket_scores. now rewrite length_map, length_seq. Qed.

Lemma bucket_of_token_lt (self : LshGating) (token : list Q) :
  (0 < nb_buckets self)%nat -> (bucket_of_token self token < nb_buckets self)%nat.
Proof.
  intros Hpos. unfold bucket_of_token.
  pose proof (bucket_scores_length self token) as Hl.
  assert (Hne : bucket_scores self token <> []).
  { intros E. rewrite E in Hl. simpl in Hl. lia. }
  pose proof (argmax_lt _ Hne). lia.
Qed.

(** [get_gates] computes what the description says. *)
Lemma get_gates_refines (stored : matrix) (depth H : nat) (trainable : bool)
    (lsh : LshGating) (x : matrix) :
  (0 < H)%nat ->
  __init__ stored depth H 1 trainable = inr lsh ->
  ncols x = depth ->
  get_gates lsh x =
  inr (mk_matrix (nrows x) (2 ^ H)
         (map (fun token => one_hot (bucket_of_token lsh token) (2 ^ H)) (rows x))).
Proof.
  intros HH Hinit Hx.
  destruct (init_inversion _ _ _ _ _ HH Hinit) as (-> & Hr & Hc).
  unfold get_gates, matmul, matmul_transpose_b. simpl.
  rewrite Hx, Hr, Nat.eqb_refl. simpl.
  rewrite Hc, Nat.eqb_refl. simpl.
  f_equal. f_equal. rewrite !map_map. apply map_ext. intros token.
  unfold bucket_of_token, bucket_scores, sign_pattern, scale_row. simpl.
  rewrite Hc, !map_map. reflexivity.
Qed.

(** C7. For a gating object built with [nb_hyperplanes > 0] and any input
    of shape [[length, depth]], [get_gates] returns a [[length,
    2^nb_hyperplanes]] tensor whose row for a token is the one-hot vector of
    the arg-max bucket of the token's sign pattern scored against the
    [+1/-1] lookup matrix; every token is assigned to exactly one bucket. *)
Theorem get_gates_one_bucket_per_token :
  forall (stored : matrix) (depth H : nat) (trainable : bool)
         (lsh : LshGating) (x : matrix),
    (0 < H)%nat ->
    __init__ stored depth H 1 trainable = inr lsh ->
    ncols x = depth ->
    exists gates : matrix,
      get_gates lsh x = inr gates /\
      nrows gates = nrows x /\
      ncols gates = (2 ^ H)%nat /\
      rows gates =
        map (fun token => one_hot (bucket_of_token lsh token) (2 ^ H)) (rows x) /\
      Forall (fun r => Forall (fun g : Q => g = 1%Q \/ g = (- (1))%Q) r /\
                       List.length r = H)
             (rows (t_group lsh)) /\
      List.length (rows (t_group lsh)) = (2 ^ H)%nat /\
      Forall (fun row =>
                List.length row = (2 ^ H)%nat /\
                exists b, (b < 2 ^ H)%nat /\ assigned_buckets row = [b])
             (rows gates).
Proof.
  intros stored depth H trainable lsh x HH Hinit Hx.
  eexists. split; [apply (get_gates_refines _ _ _ _ _ _ HH Hinit Hx) |].
  destruct (init_inversion _ _ _ _ _ HH Hinit) as (E & Hr & Hc).
  simpl. repeat split.
  - subst lsh. simpl. apply Forall_forall. intros r Hin.
    apply in_map_iff in Hin. destruct Hin as (i & <- & Hi).
    apply in_seq in Hi. split.
    + apply _idx_to_bits_plus_minus_one.
    + apply _idx_to_bits_length; lia.
  - subst lsh. simpl. now rewrite length_map, length_seq.
  - apply Forall_forall. intros row Hin.
    apply in_map_iff in Hin. destruct Hin as (token & <- & _).
    split; [apply one_hot_length |].
    exists (bucket_of_token lsh token).
    assert (Hlt : (bucket_of_token lsh token < 2 ^ H)%nat).
    { replace (2 ^ H)%nat with (nb_buckets lsh) by (subst lsh; reflexivity).
      apply bucket_of_token_lt. subst lsh. simpl. apply pow2_pos. }
    split; [exact Hlt |]. now apply assigned_buckets_one_hot.
Qed.

(** Two tokens, one hyperplane [x0 - x1 = 0], two buckets. *)
Lemma get_gates_two_tokens :
  exists gates : matrix,
    get_gates
      (mk_LshGating 2 1 2 1 false (mk_matrix 2 1 [[1%Q]; [(- (1))%Q]])
         (mk_matrix 2 1 [[(- (1))%Q]; [1%Q]]))
      (mk_matrix 2 2 [[3%Q; 1%Q]; [1%Q; 3%Q]]) = inr gates /\
    rows gates = [[0%Q; 1%Q]; [1%Q; 0%Q]].
Proof.
  destruct (get_gates_one_bucket_per_token
              (mk_matrix 2 1 [[1%Q]; [(- (1))%Q]]) 2 1 false
              (mk_LshGating 2 1 2 1 false (mk_matrix 2 1 [[1%Q]; [(- (1))%Q]])
                 (mk_matrix 2 1 [[(- (1))%Q]; [1%Q]]))
              (mk_matrix 2 2 [[3%Q; 1%Q]; [1%Q; 3%Q]]))
    as (gates & Hg & _ & _ & Hrows & _).
  - lia.
  - reflexivity.
  - reflexivity.
  - exists gates. split; [exact Hg |]. rewrite Hrows. reflexivity.
Defined.

(** Without hyperplanes the lookup matrix has one column and the sign
    pattern none: [get_gates] cannot multiply them. *)
Lemma get_gates_no_hyperplane (trainable : bool) (x : matrix) :
  ncols x = 0%nat ->
  exists lsh,
    __init__ (mk_matrix 0 0 []) 0 0 1 trainable = inr lsh /\
    get_gates lsh x = inl (ValueError "Dimensions must be equal").
Proof.
  intros Hx. eexists. split; [reflexivity |].
  unfold get_gates, matmul. simpl. rewrite Hx. reflexivity.
Qed.

End LshFacts.

(** ** Dispatch and combine *)

Module DispatchFacts.

Import Vec Dispatch.

Lemma vadd_zero_r (x : list R) :
  forall depth : nat, List.length x = depth -> vadd x (vzero depth) = x.
Proof.
  induction x as [| a x IH]; intros [| depth] Hlen; simpl in *;
    try discriminate; try reflexivity.
  unfold vadd in *. simpl. f_equal; [lra |]. apply IH. lia.
Qed.

Lemma vscale_one (x : list R) : vscale 1 x = x.
Proof.
  unfold vscale. induction x as [| a x IH]; simpl; [reflexivity |].
  f_equal; [lra | exact IH].
Qed.

Lemma Q2R_one (g : Q) : (g == 1)%Q -> Q2R g = 1%R.
Proof.
  intros H. rewrite (Qeq_eqR _ _ H). unfold Q2R. simpl. lra.
Qed.

Lemma map_nth_seq {A : Type} (l : list A) (d : A) :
  map (fun t => nth t l d) (seq 0 (List.length l)) = l.
Proof.
  apply (nth_ext _ _ d d).
  - now rewrite length_map, length_seq.
  - intros n Hn. rewrite length_map, length_seq in Hn.
    rewrite (nth_indep _ d ((fun t => nth t l d) 0%nat))
      by (now rewrite length_map, length_seq).
    rewrite (map_nth (fun t => nth t l d)), seq_nth by exact Hn. reflexivity.
Qed.

Lemma nth_map_seq {A : Type} (f : nat -> A) (n e : nat) (d : A) :
  (e < n)%nat -> nth e (map f (seq 0 n)) d = f e.
Proof.
  intros He. rewrite (nth_indep _ d (f 0%nat))
    by (now rewrite length_map, length_seq).
  rewrite (map_nth f), seq_nth by exact He. reflexivity.
Qed.

Lemma flat_map_ext_in {A B : Type} (f g : A -> list B) (l : list A) :
  (forall a, In a l -> f a = g a) -> flat_map f l = flat_map g l.
Proof.
  induction l as [| a l IH]; intros H; simpl; [reflexivity |].
  rewrite (H a) by now left. f_equal. apply IH. intros b Hb. apply H. now right.
Qed.

Lemma flat_map_nil {A B : Type} (f : A -> list B) (l : list A) :
  (forall a, In a l -> f a = []) -> flat_map f l = [].
Proof.
  induction l as [| a l IH]; intros H; simpl; [reflexivity |].
  rewrite (H a) by now left. apply IH. intros b Hb. apply H. now right.
Qed.

(** Of a duplicate-free list only one element can pass an equality test. *)
Lemma flat_map_single {A B : Type} (f : A -> list B) (l : list A) (a : A) :
  NoDup l -> In a l -> (forall b, In b l -> b <> a -> f b = []) ->
  flat_map f l = f a.
Proof.
  induction l as [| x l IH]; intros Hnd Hin Hf; [contradiction |].
  inversion Hnd as [| ? ? Hx Hnd']; subst. simpl.
  destruct Hin as [-> | Hin].
  - rewrite (flat_map_nil f l); [apply app_nil_r |].
    intros b Hb. apply Hf; [now right |]. intros ->. contradiction.
  - rewrite (Hf x); [| now left | intros ->; contradiction]. simpl.
    apply IH; [exact Hnd' | exact Hin |].
    intros b Hb. apply Hf. now right.
Qed.

Lemma combine_map_r {A B : Type} (f : A -> B) (l : list A) :
  List.combine l (map f l) = map (fun a => (a, f a)) l.
Proof. induction l as [| a l IH]; simpl; [reflexivity | now rewrite IH]. Qed.

Lemma In_firstn {A : Type} (n : nat) (l : list A) (x : A) :
  In x (firstn n l) -> In x l.
Proof.
  intros H. rewrite <- (firstn_skipn n l). apply in_or_app. now left.
Qed.

Section OneSequence.

Variable requests : list (list Q).
Variable num_experts : nat.
Variable expert_capacity : nat.

Lemma assigned_NoDup (e : nat) : NoDup (assigned requests e).
Proof. unfold assigned. apply NoDup_filter, seq_NoDup. Qed.

Lemma NoDup_firstn {A : Type} (n : nat) (l : list A) : NoDup l -> NoDup (firstn n l).
Proof.
  revert n. induction l as [| a l IH]; intros [| n] H; simpl; try constructor.
  - inversion H; subst. intros Hin. apply In_firstn in Hin. contradiction.
  - inversion H; subst. now apply IH.
Qed.

Lemma kept_NoDup (e : nat) : NoDup (kept requests expert_capacity e).
Proof. apply NoDup_firstn, assigned_NoDup. Qed.

(** A bucket never holds more tokens than its capacity. *)
Lemma kept_length (e : nat) :
  (List.length (kept requests expert_capacity e) <= expert_capacity)%nat.
Proof. unfold kept. rewrite length_firstn. lia. Qed.

Lemma kept_assigned (t e : nat) :
  In t (kept requests expert_capacity e) -> In t (assigned requests e).
Proof. unfold kept. apply In_firstn. Qed.

Lemma assigned_iff (t e : nat) :
  In t (assigned requests e) <->
  (t < List.length requests)%nat /\ requested requests t e = true.
Proof.
  unfold assigned. rewrite filter_In, in_seq. intuition lia.
Qed.

Lemma is_kept_iff (t e : nat) :
  is_kept requests expert_capacity t e = true <->
  In t (kept requests expert_capacity e).
Proof.
  unfold is_kept. rewrite existsb_exists. split.
  - intros (x & Hx & E). apply Nat.eqb_eq in E. now subst.
  - intros H. exists t. split; [exact H | apply Nat.eqb_refl].
Qed.

Lemma slots_length (e : nat) :
  List.length (slots requests expert_capacity e) = expert_capacity.
Proof.
  unfold slots. rewrite length_app, length_map, repeat_length.
  pose proof (kept_length e). lia.
Qed.

Lemma flat_map_map {A B C : Type} (g : A -> B) (f : B -> list C) (l : list A) :
  flat_map f (map g l) = flat_map (fun a => f (g a)) l.
Proof. induction l as [| a l IH]; simpl; [reflexivity | now rewrite IH]. Qed.

(** What bucket [e] gives back to token [t] after a dispatch: the token's
    own row, weighted by its gate, if the bucket kept it. *)
Lemma contributions_dispatch (depth : nat) (inp : list (list R)) (t e : nat) :
  (e < num_experts)%nat ->
  contributions requests expert_capacity t e
    (nth e (dispatch1 requests num_experts expert_capacity depth inp) []) =
  if is_kept requests expert_capacity t e
  then [vscale (Q2R (request requests t e)) (nth t inp (vzero depth))]
  else [].
Proof.
  intros He. unfold dispatch1. rewrite nth_map_seq by exact He.
  unfold contributions. rewrite combine_map_r, flat_map_map. simpl.
  unfold slots. rewrite flat_map_app, flat_map_map.
  rewrite (flat_map_nil _ (repeat None _)), app_nil_r.
  2:{ intros s Hs. apply repeat_spec in Hs. now subst s. }
  destruct (is_kept requests expert_capacity t e) eqn:K.
  - apply is_kept_iff in K.
    rewrite (flat_map_single _ _ t (kept_NoDup e) K).
    + now rewrite Nat.eqb_refl.
    + intros b _ Hb. destruct (Nat.eqb_spec b t); [contradiction | reflexivity].
  - apply flat_map_nil. intros b Hb.
    destruct (Nat.eqb_spec b t) as [-> | _]; [| reflexivity].
    apply is_kept_iff in Hb. congruence.
Qed.

Section HardGating.

Variable bucket_of : nat -> nat.
Hypothesis Hhard : hard_gating num_experts requests bucket_of.

Lemma requested_hard (t e : nat) :
  (t < List.length requests)%nat -> (e < num_experts)%nat ->
  requested requests t e = (e =? bucket_of t)%nat.
Proof.
  intros Ht He. destruct (Hhard t Ht) as [_ Hreq]. specialize (Hreq e He).
  unfold requested. destruct (e =? bucket_of t)%nat.
  - destruct (Qeq_bool (request requests t e) 0) eqn:E; [| reflexivity].
    apply Qeq_bool_iff in E. rewrite Hreq in E. discriminate.
  - apply Qeq_bool_iff in Hreq. now rewrite Hreq.
Qed.

Lemma not_kept_elsewhere (t e : nat) :
  (t < List.length requests)%nat -> (e < num_experts)%nat -> e <> bucket_of t ->
  is_kept requests expert_capacity t e = false.
Proof.
  intros Ht He Hne.
  destruct (is_kept requests expert_capacity t e) eqn:K; [| reflexivity].
  apply is_kept_iff, kept_assigned, assigned_iff in K. destruct K as [_ K].
  rewrite (requested_hard t e Ht He) in K. apply Nat.eqb_eq in K. contradiction.
Qed.

(** After a dispatch, [combine] gives a token its own row back when its
    bucket kept it, and a zero row when the bucket dropped it. *)
Lemma combine_dispatch_hard (depth : nat) (inp : list (list R)) :
  Forall (fun row => List.length row = depth) inp ->
  combine1 requests num_experts expert_capacity depth
    (dispatch1 requests num_experts expert_capacity depth inp) =
  map (fun t => if is_kept requests expert_capacity t (bucket_of t)
                then nth t inp (vzero depth)
                else vzero depth)
      (seq 0 (List.length requests)).
Proof.
  intros Hrows. unfold combine1. apply map_ext_in. intros t Ht.
  apply in_seq in Ht. destruct (Hhard t) as [Hb Hreq]; [lia |].
  rewrite (flat_map_ext_in _
             (fun e => if is_kept requests expert_capacity t e
                       then [vscale (Q2R (request requests t e))
                                    (nth t inp (vzero depth))]
                       else [])).
  2:{ intros e He. apply in_seq in He. apply contributions_dispatch. lia. }
  rewrite (flat_map_single _ _ (bucket_of t)).
  - destruct (is_kept requests expert_capacity t (bucket_of t)); [| reflexivity].
    specialize (Hreq (bucket_of t) Hb). rewrite Nat.eqb_refl in Hreq.
    rewrite (Q2R_one _ Hreq), vscale_one. simpl.
    apply vadd_zero_r.
    destruct (Nat.lt_ge_cases t (List.length inp)) as [Hlt | Hge].
    + rewrite Forall_forall in Hrows. apply Hrows. now apply nth_In.
    + rewrite nth_overflow by exact Hge. apply repeat_length.
  - apply seq_NoDup.
  - apply in_seq. lia.
  - intros e He Hne. apply in_seq in He.
    rewrite not_kept_elsewhere; [reflexivity | lia | lia | exact Hne].
Qed.

Lemma kept_when_within_capacity (t : nat) :
  within_capacity requests num_experts expert_capacity ->
  (t < List.length requests)%nat ->
  is_kept requests expert_capacity t (bucket_of t) = true.
Proof.
  intros Hcap Ht. destruct (Hhard t Ht) as [Hb _].
  apply is_kept_iff. unfold kept. rewrite firstn_all2 by (apply Hcap, Hb).
  apply assigned_iff. split; [exact Ht |].
  rewrite requested_hard by assumption. apply Nat.eqb_refl.
Qed.

Lemma combine_dispatch_within_capacity (depth : nat) (inp : list (list R)) :
  within_capacity requests num_experts expert_capacity ->
  List.length inp = List.length requests ->
  Forall (fun row => List.length row = depth) inp ->
  combine1 requests num_experts expert_capacity depth
    (dispatch1 requests num_experts expert_capacity depth inp) = inp.
Proof.
  intros Hcap Hlen Hrows. rewrite (combine_dispatch_hard depth inp Hrows).
  etransitivity; [| apply (map_nth_seq inp (vzero depth))]. rewrite Hlen.
  apply map_ext_in. intros t Ht. apply in_seq in Ht.
  rewrite kept_when_within_capacity; [reflexivity | exact Hcap | lia].
Qed.

End HardGating.

End OneSequence.

Lemma identity_gating_length (n : nat) : List.length (identity_gating n) = n.
Proof. unfold identity_gating. now rewrite length_map, length_seq. Qed.

Lemma identity_gating_request (n t e : nat) :
  (t < n)%nat -> (e < n)%nat ->
  request (identity_gating n) t e = if (e =? t)%nat then 1%Q else 0%Q.
Proof.
  intros Ht He. unfold request, identity_gating.
  rewrite (nth_map_seq (fun t => QOps.one_hot t n)) by exact Ht.
  now apply LshFacts.nth_one_hot.
Qed.

Lemma identity_gating_hard (n : nat) :
  hard_gating n (identity_gating n) (fun t => t).
Proof.
  intros t Ht. rewrite identity_gating_length in Ht. split; [exact Ht |].
  intros e He. rewrite identity_gating_request by assumption. reflexivity.
Qed.

Lemma filter_seq_le_one (f : nat -> bool) (b : nat) :
  forall n s : nat,
    (forall j, (s <= j < s + n)%nat -> f j = true -> j = b) ->
    (List.length (filter f (seq s n)) <= 1)%nat.
Proof.
  induction n as [| n IH]; intros s H; simpl; [lia |].
  destruct (f s) eqn:E.
  - assert (s = b) by (apply H; [lia | exact E]). subst s. simpl.
    rewrite (proj2 (length_zero_iff_nil _)); [lia |].
    destruct (filter f (seq (S b) n)) as [| j l] eqn:F; [reflexivity |].
    assert (Hj : In j (filter f (seq (S b) n))) by (rewrite F; now left).
    apply filter_In in Hj. destruct Hj as [Hj Hf]. apply in_seq in Hj.
    assert (j = b) by (apply H; [lia | exact Hf]). lia.
  - apply IH. intros j Hj. apply H. lia.
Qed.

Lemma identity_gating_within_capacity (n capacity : nat) :
  (1 <= capacity)%nat -> within_capacity (identity_gating n) n capacity.
Proof.
  intros Hc e He. unfold assigned. rewrite identity_gating_length.
  pose proof (filter_seq_le_one (fun t => requested (identity_gating n) t e) e n 0)
    as H.
  assert (Hone : (List.length
                    (filter (fun t => requested (identity_gating n) t e) (seq 0 n))
                  <= 1)%nat).
  { apply H. intros j Hj Hreq.
    rewrite (requested_hard (identity_gating n) n (fun t => t)
               (identity_gating_hard n)) in Hreq.
    - apply Nat.eqb_eq in Hreq. now symmetry.
    - rewrite identity_gating_length. lia.
    - exact He. }
  lia.
Qed.

Lemma combine_dispatch_batch (num_experts capacity depth : nat) :
  forall (requests : list (list (list Q))) (inp : list (list (list R))),
    Forall2 (fun r x => well_formed_input num_experts depth r x /\
                        within_capacity r num_experts capacity)
            requests inp ->
    combine (mk_TruncatingDispatcher requests num_experts capacity) depth
      (dispatch (mk_TruncatingDispatcher requests num_experts capacity) depth inp)
    = inp.
Proof.
  intros requests inp H. unfold combine, dispatch. simpl.
  induction H as [| r x requests inp [(Hlen & Hrows & bucket_of & Hhard) Hcap] _ IH];
    simpl; [reflexivity |].
  f_equal; [| exact IH].
  now apply (combine_dispatch_within_capacity r num_experts capacity bucket_of).
Qed.

(** C1. Under a hard gating, [combine] after [dispatch] gives every token
    its own row back, except that a token its bucket dropped for lack of
    capacity gets a zero row; when no bucket is over capacity the batch comes
    back unchanged, and so it does under the identity gating with any
    capacity of at least one. *)
Theorem dispatch_combine_round_trip :
  (forall (requests : list (list Q)) (num_experts capacity depth : nat)
          (bucket_of : nat -> nat) (inp : list (list R)),
     hard_gating num_experts requests bucket_of ->
     Forall (fun row => List.length row = depth) inp ->
     combine1 requests num_experts capacity depth
       (dispatch1 requests num_experts capacity depth inp) =
     map (fun t => if is_kept requests capacity t (bucket_of t)
                   then nth t inp (vzero depth)
                   else vzero depth)
         (seq 0 (List.length requests))) /\
  (forall (num_experts capacity depth : nat)
          (requests : list (list (list Q))) (inp : list (list (list R))),
     Forall2 (fun r x => well_formed_input num_experts depth r x /\
                         within_capacity r num_experts capacity)
             requests inp ->
     combine (mk_TruncatingDispatcher requests num_experts capacity) depth
       (dispatch (mk_TruncatingDispatcher requests num_experts capacity) depth inp)
     = inp) /\
  (forall (n capacity depth : nat) (inp : list (list R)),
     (1 <= capacity)%nat ->
     List.length inp = n ->
     Forall (fun row => List.length row = depth) inp ->
     combine (mk_TruncatingDispatcher [identity_gating n] n capacity) depth
       (dispatch (mk_TruncatingDispatcher [identity_gating n] n capacity) depth [inp])
     = [inp]).
Proof.
  split; [| split].
  - intros. now apply combine_dispatch_hard.
  - intros. now apply combine_dispatch_batch.
  - intros n capacity depth inp Hc Hlen Hrows.
    apply combine_dispatch_batch. constructor; [| constructor].
    split.
    + split; [now rewrite identity_gating_length |].
      split; [exact Hrows |].
      exists (fun t => t). apply identity_gating_hard.
    + now apply identity_gating_within_capacity.
Qed.

Lemma round_robin_gating_hard (n num_experts : nat) :
  (0 < num_experts)%nat ->
  hard_gating num_experts (round_robin_gating n num_experts)
    (fun t => t mod num_experts)%nat.
Proof.
  intros HE t Ht. unfold round_robin_gating in Ht.
  rewrite length_map, length_seq in Ht.
  split; [apply Nat.mod_upper_bound; lia |].
  intros e He. unfold request, round_robin_gating.
  rewrite (nth_map_seq (fun t => QOps.one_hot (t mod num_experts) num_experts))
    by exact Ht.
  rewrite LshFacts.nth_one_hot by exact He. reflexivity.
Qed.

(** The scenario of the specification: ten tokens, four buckets, round
    robin, capacity three. *)
Example scenario_buckets :
  map (kept (round_robin_gating 10 4) 3) (seq 0 4) =
  [[0; 4; 8]; [1; 5; 9]; [2; 6]; [3; 7]]%nat.
Proof. reflexivity. Qed.

(** With capacity two the last token of buckets 0 and 1 is dropped. *)
Example scenario_buckets_truncated :
  map (kept (round_robin_gating 10 4) 2) (seq 0 4) =
  [[0; 4]; [1; 5]; [2; 6]; [3; 7]]%nat.
Proof. reflexivity. Qed.

Lemma scenario_round_trip :
  combine (mk_TruncatingDispatcher [round_robin_gating 10 4] 4 3) 1
    (dispatch (mk_TruncatingDispatcher [round_robin_gating 10 4] 4 3) 1
       [scenario_tokens])
  = [scenario_tokens].
Proof.
  apply (proj1 (proj2 dispatch_combine_round_trip)).
  constructor; [| constructor]. split.
  - split; [reflexivity |]. split.
    + unfold scenario_tokens. apply Forall_forall. intros row Hrow.
      apply in_map_iff in Hrow. destruct Hrow as (t & <- & _). reflexivity.
    + exists (fun t => t mod 4)%nat. apply round_robin_gating_hard. lia.
  - intros e He.
    do 4 (destruct e as [| e]; [vm_compute; lia |]). lia.
Defined.

End DispatchFacts.

(** ** Shapes and capacities *)

Module ShapeFacts.

Import Vec Dispatch Sparse DispatchFacts.

Lemma dispatch1_shape (requests : list (list Q)) (num_experts capacity depth : nat)
    (inp : list (list R)) :
  Forall (fun row => List.length row = depth) inp ->
  has_shape num_experts capacity depth
    (dispatch1 requests num_experts capacity depth inp).
Proof.
  intros Hrows. unfold has_shape, dispatch1. split.
  - now rewrite length_map, length_seq.
  - apply Forall_forall. intros bucket Hb.
    apply in_map_iff in Hb. destruct Hb as (e & <- & _). split.
    + rewrite length_map. apply slots_length.
    + apply Forall_forall. intros row Hrow.
      apply in_map_iff in Hrow. destruct Hrow as ([t |] & <- & _); simpl.
      * destruct (Nat.lt_ge_cases t (List.length inp)) as [Hlt | Hge].
        -- rewrite Forall_forall in Hrows. apply Hrows. now apply nth_In.
        -- rewrite nth_overflow by exact Hge. apply repeat_length.
      * apply repeat_length.
Qed.

Lemma dispatch_shape (d : TruncatingDispatcher) (depth : nat)
    (inp : list (list (list R))) :
  Forall (Forall (fun row => List.length row = depth)) inp ->
  Forall (has_shape (_num_experts d) (_expert_capacity d) depth)
         (dispatch d depth inp).
Proof.
  intros Hinp. unfold dispatch. apply Forall_forall. intros x Hx.
  apply in_map_iff in Hx. destruct Hx as ((r & i) & <- & Hin).
  apply dispatch1_shape. rewrite Forall_forall in Hinp. apply Hinp.
  now apply in_combine_r in Hin.
Qed.

Lemma truncate_integer (x : Q) (n : Z) : (x == inject_Z n)%Q -> truncate x = n.
Proof.
  unfold Qeq, truncate, inject_Z. simpl. intros H.
  rewrite Z.mul_1_r in H. rewrite H. apply Z.quot_mul. discriminate.
Qed.

Lemma qsum_indicator (l : list Q) :
  forall b : nat,
    (forall e, (e < List.length l)%nat ->
       (nth e l 0 == if (e =? b)%nat then 1 else 0)%Q) ->
    (qsum l == if (b <? List.length l)%nat then 1 else 0)%Q.
Proof.
  induction l as [| x l IH]; intros b H; simpl; [reflexivity |].
  pose proof (H 0%nat ltac:(simpl; lia)) as H0. simpl in H0.
  destruct b as [| b].
  - assert (E : (qsum l == 0)%Q).
    { rewrite (IH (List.length l)).
      + rewrite Nat.ltb_irrefl. reflexivity.
      + intros e He. specialize (H (S e) ltac:(simpl; lia)). simpl in H.
        destruct (Nat.eqb_spec e (List.length l)); [lia | exact H]. }
    fold (qsum l). rewrite E, H0. reflexivity.
  - assert (E : (qsum l == if (b <? List.length l)%nat then 1 else 0)%Q).
    { apply IH. intros e He. specialize (H (S e) ltac:(simpl; lia)). exact H. }
    fold (qsum l). rewrite E, H0.
    change (S b <? S (List.length l))%nat with (b <? List.length l)%nat.
    destruct (b <? List.length l)%nat; reflexivity.
Qed.

Lemma qsum_one_hot (b n : nat) : (b < n)%nat -> (qsum (QOps.one_hot b n) == 1)%Q.
Proof.
  intros Hb. rewrite (qsum_indicator _ b).
  - rewrite LshFacts.one_hot_length.
    destruct (Nat.ltb_spec b n); [reflexivity | lia].
  - intros e He. rewrite LshFacts.one_hot_length in He.
    rewrite LshFacts.nth_one_hot by exact He. reflexivity.
Qed.

Lemma qsum_repeat_one (n : nat) : (qsum (repeat 1%Q n) == inject_Z (Z.of_nat n))%Q.
Proof.
  induction n as [| n IH]; [reflexivity |].
  cbn [repeat qsum fold_right]. fold (qsum (repeat 1%Q n)). rewrite IH.
  rewrite Nat2Z.inj_succ. unfold Z.succ. rewrite inject_Z_plus. ring.
Qed.

(** Every token of a one-hot gating counts once. *)
Lemma qsum_one_hot_rows (num_experts : nat) (gates : list (list Q)) :
  one_hot_rows num_experts gates ->
  (qsum (map qsum gates) == inject_Z (Z.of_nat (List.length gates)))%Q.
Proof.
  induction 1 as [| row gates (b & Hb & ->) _ IH]; [reflexivity |].
  cbn [map qsum fold_right List.length].
  fold (qsum (QOps.one_hot b num_experts)). fold (qsum (map qsum gates)).
  rewrite IH, (qsum_one_hot b num_experts Hb).
  rewrite Nat2Z.inj_succ. unfold Z.succ. rewrite inject_Z_plus. ring.
Qed.

Lemma reduce_max_constant (c : Q) (l : list Q) :
  l <> [] -> Forall (fun x => (x == c)%Q) l -> (reduce_max l == c)%Q.
Proof.
  destruct l as [| x l]; [congruence |]. intros _ H.
  inversion H as [| ? ? Hx Hl]; subst. clear H. simpl.
  revert x Hx. induction Hl as [| y l Hy _ IH]; intros x Hx; simpl; [exact Hx |].
  apply IH. rewrite Hx, Hy. apply Q.max_id.
Qed.

Lemma get_dispatcher_constant_count (nb_buckets length : nat) (count : Z)
    (gates : list (list (list Q))) :
  (0 < nb_buckets)%nat -> gates <> [] ->
  Forall (fun g => (qsum (map qsum g) == inject_Z count)%Q) gates ->
  get_dispatcher nb_buckets length gates =
  inr (mk_TruncatingDispatcher gates nb_buckets
         (Z.to_nat (Z.min (Z.of_nat length)
                          (count / Z.of_nat nb_buckets * 2)))).
Proof.
  intros Hnb Hne Hcount. unfold get_dispatcher.
  rewrite (truncate_integer _ count).
  - unfold py_floordiv.
    destruct (Z.eqb_spec (Z.of_nat nb_buckets) 0); [lia | reflexivity].
  - apply reduce_max_constant.
    + destruct gates; [congruence | discriminate].
    + apply Forall_forall. intros x Hx. apply in_map_iff in Hx.
      destruct Hx as (g & <- & Hg). rewrite Forall_forall in Hcount.
      now apply Hcount.
Qed.

(** The capacity of the query dispatcher of the LSH path. *)
Lemma get_dispatcher_one_hot (nb_buckets length : nat)
    (gates : list (list (list Q))) :
  (0 < nb_buckets)%nat -> gates <> [] ->
  Forall (fun g => List.length g = length /\ one_hot_rows nb_buckets g) gates ->
  get_dispatcher nb_buckets length gates =
  inr (mk_TruncatingDispatcher gates nb_buckets
         (Z.to_nat (Z.min (Z.of_nat length)
                          (Z.of_nat length / Z.of_nat nb_buckets * 2)))).
Proof.
  intros Hnb Hne Hg. apply get_dispatcher_constant_count; try assumption.
  apply Forall_forall. intros g Hin. rewrite Forall_forall in Hg.
  destruct (Hg g Hin) as [<- Hone]. now apply (qsum_one_hot_rows nb_buckets).
Qed.

Lemma map_constant_seq {A : Type} (c : A) (n : nat) :
  forall s : nat, map (fun _ => c) (seq s n) = repeat c n.
Proof. induction n as [| n IH]; intros s; simpl; [reflexivity | now rewrite IH]. Qed.

Lemma add_first_rest (num_experts : nat) (rest : list (list Q)) :
  one_hot_rows num_experts rest ->
  forall s : nat, (1 <= s)%nat ->
    map (fun tg : nat * list Q =>
           map (fun g => Qmax g (first_position (fst tg))) (snd tg))
        (List.combine (seq s (List.length rest)) rest) = rest.
Proof.
  induction 1 as [| row rest (b & Hb & ->) _ IH]; intros s Hs; [reflexivity |].
  simpl. f_equal; [| apply IH; lia].
  unfold first_position. destruct (Nat.eqb_spec s 0); [lia |].
  unfold QOps.one_hot. rewrite map_map. apply map_ext. intros j.
  destruct (j =? b)%nat; reflexivity.
Qed.

(** On one-hot gates, adding the first position turns the first row into
    ones and changes nothing else. *)
Lemma add_first_one_hot (num_experts : nat) (row : list Q) (rest : list (list Q)) :
  one_hot_rows num_experts (row :: rest) ->
  add_first_position (row :: rest) = repeat 1%Q num_experts :: rest.
Proof.
  intros H. inversion H as [| ? ? (b & Hb & ->) Hrest]; subst.
  unfold add_first_position. simpl. f_equal.
  - unfold QOps.one_hot. rewrite map_map.
    rewrite <- (map_constant_seq 1%Q num_experts 0). apply map_ext. intros j.
    destruct (j =? b)%nat; reflexivity.
  - now apply (add_first_rest num_experts).
Qed.

Lemma qsum_add_first (num_experts length : nat) (g : list (list Q)) :
  (0 < length)%nat -> List.length g = length -> one_hot_rows num_experts g ->
  (qsum (map qsum (add_first_position g)) ==
   inject_Z (Z.of_nat num_experts + Z.of_nat length - 1))%Q.
Proof.
  intros Hpos Hlen Hone. destruct g as [| row rest]; [simpl in Hlen; lia |].
  rewrite (add_first_one_hot num_experts row rest Hone).
  cbn [map qsum fold_right].
  fold (qsum (repeat 1%Q num_experts)). fold (qsum (map qsum rest)).
  inversion Hone; subst.
  rewrite qsum_repeat_one, (qsum_one_hot_rows num_experts rest) by assumption.
  rewrite <- inject_Z_plus. simpl List.length.
  apply inject_Z_injective. lia.
Qed.

(** The capacity of the key dispatcher of the LSH path, whose gates have the
    first position added to every bucket. *)
Lemma get_dispatcher_add_first (nb_buckets length : nat)
    (gates : list (list (list Q))) :
  (0 < nb_buckets)%nat -> (0 < length)%nat -> gates <> [] ->
  Forall (fun g => List.length g = length /\ one_hot_rows nb_buckets g) gates ->
  get_dispatcher nb_buckets length (map add_first_position gates) =
  inr (mk_TruncatingDispatcher (map add_first_position gates) nb_buckets
         (Z.to_nat
            (Z.min (Z.of_nat length)
                   ((Z.of_nat nb_buckets + Z.of_nat length - 1) /
                    Z.of_nat nb_buckets * 2)))).
Proof.
  intros Hnb Hlen Hne Hg. apply get_dispatcher_constant_count.
  - exact Hnb.
  - destruct gates; [congruence | discriminate].
  - apply Forall_forall. intros g' Hin. apply in_map_iff in Hin.
    destruct Hin as (g & <- & Hin). rewrite Forall_forall in Hg.
    destruct (Hg g Hin) as [Hl Hone]. now apply qsum_add_first.
Qed.

Lemma Forall_firstn {A : Type} (P : A -> Prop) (n : nat) (l : list A) :
  Forall P l -> Forall P (firstn n l).
Proof.
  intros H. apply Forall_forall. intros x Hx. rewrite Forall_forall in H.
  apply H. now apply In_firstn in Hx.
Qed.

Lemma Forall_skipn {A : Type} (P : A -> Prop) (n : nat) (l : list A) :
  Forall P l -> Forall P (skipn n l).
Proof.
  intros H. apply Forall_forall. intros x Hx. rewrite Forall_forall in H.
  apply H. rewrite <- (firstn_skipn n l). apply in_or_app. now right.
Qed.

Lemma concat_length_uniform {A : Type} (n : nat) (l : list (list A)) :
  Forall (fun x => List.length x = n) l ->
  List.length (List.concat l) = (List.length l * n)%nat.
Proof.
  induction 1 as [| x l Hx _ IH]; simpl; [reflexivity |].
  rewrite length_app, IH, Hx. reflexivity.
Qed.

Section GatesHead.

Variables batch_size nb_heads length depth H : nat.
Hypothesis HH : (0 < H)%nat.

(** What the gates of one sequence of one head look like. *)
Local Abbreviation lsh_gates :=
  (fun g : list (list Q) => List.length g = length /\ one_hot_rows (2 ^ H) g).

Lemma reshape_batch_one_hot (rows : list (list Q)) :
  List.length rows = (batch_size * length)%nat ->
  one_hot_rows (2 ^ H) rows ->
  List.length (reshape_batch batch_size length rows) = batch_size /\
  Forall lsh_gates (reshape_batch batch_size length rows).
Proof.
  intros Hlen Hone. unfold reshape_batch. split.
  - now rewrite length_map, length_seq.
  - apply Forall_forall. intros g Hg. apply in_map_iff in Hg.
    destruct Hg as (b & <- & Hb). apply in_seq in Hb. split.
    + rewrite length_firstn, length_skipn, Hlen. nia.
    + unfold one_hot_rows. now apply Forall_firstn, Forall_skipn.
Qed.

Lemma get_gates_rows_one_hot (lsh : Lsh.LshGating) (single_x : list (list Q)) :
  Lsh.built depth H lsh ->
  exists rows,
    Lsh.get_gates lsh (QOps.mk_matrix (batch_size * length) depth single_x) =
    inr (QOps.mk_matrix (batch_size * length) (2 ^ H) rows) /\
    List.length rows = List.length single_x /\
    one_hot_rows (2 ^ H) rows.
Proof.
  intros (stored & trainable & Hinit).
  exists (map (fun token => QOps.one_hot (Lsh.bucket_of_token lsh token) (2 ^ H))
              single_x).
  split.
  - exact (LshFacts.get_gates_refines stored depth H trainable lsh
             (QOps.mk_matrix (batch_size * length) depth single_x)
             HH Hinit eq_refl).
  - split; [now rewrite length_map |].
    apply Forall_forall. intros row Hrow. apply in_map_iff in Hrow.
    destruct Hrow as (token & <- & _).
    exists (Lsh.bucket_of_token lsh token). split; [| reflexivity].
    destruct (LshFacts.init_inversion _ _ _ _ _ HH Hinit) as (E & _ & _).
    replace (2 ^ H)%nat with (Lsh.nb_buckets lsh) by (subst lsh; reflexivity).
    apply LshFacts.bucket_of_token_lt. subst lsh. simpl. apply LshFacts.pow2_pos.
Qed.

Lemma get_gates_head_loop_one_hot (l : list (Lsh.LshGating * list (list Q))) :
  Forall (fun p => Lsh.built depth H (fst p) /\
                   List.length (snd p) = (batch_size * length)%nat) l ->
  exists list_gates,
    get_gates_head_loop batch_size length depth l = inr list_gates /\
    List.length list_gates = List.length l /\
    Forall (fun gh => List.length gh = batch_size /\ Forall lsh_gates gh)
           list_gates.
Proof.
  induction 1 as [| [lsh single_x] l [Hb Hlen] _ (list_gates & IH & IHl & IHf)];
    simpl in *.
  - exists []. repeat split. constructor.
  - destruct (get_gates_rows_one_hot lsh single_x Hb) as (rows & -> & Hr & Hone).
    simpl. rewrite IH. simpl. eexists. split; [reflexivity |].
    split; [simpl; now rewrite IHl |].
    constructor; [| exact IHf].
    apply reshape_batch_one_hot; [lia | exact Hone].
Qed.

(** The gates of the LSH path: every sequence of every head gets [length]
    one-hot rows, and with [add_first] the first position is added to each. *)
Lemma get_gates_head_one_hot (list_lsh : list Lsh.LshGating)
    (x : list (list (list (list Q)))) :
  List.length list_lsh = nb_heads ->
  Forall (Lsh.built depth H) list_lsh ->
  List.length x = batch_size ->
  Forall (fun xb => List.length xb = nb_heads /\
                    Forall (fun xh => List.length xh = length) xb) x ->
  exists gates,
    get_gates_head list_lsh batch_size nb_heads length depth x false = inr gates /\
    get_gates_head list_lsh batch_size nb_heads length depth x true =
      inr (map (map add_first_position) gates) /\
    List.length (combine_first_two_dimensions gates) = (batch_size * nb_heads)%nat /\
    Forall lsh_gates (combine_first_two_dimensions gates).
Proof.
  intros Hlsh Hbuilt Hx Hshape. unfold get_gates_head.
  set (list_x := map (@List.concat (list Q))
                     (transpose_first_two batch_size nb_heads x)).
  assert (Hlx : List.length list_x = nb_heads).
  { unfold list_x, transpose_first_two. now rewrite !length_map, length_seq. }
  assert (Hl : Forall (fun p => Lsh.built depth H (fst p) /\
                                List.length (snd p) = (batch_size * length)%nat)
                      (List.combine list_lsh list_x)).
  { apply Forall_forall. intros [lsh sx] Hin. simpl. split.
    - rewrite Forall_forall in Hbuilt. apply Hbuilt.
      now apply in_combine_l in Hin.
    - apply in_combine_r in Hin. unfold list_x, transpose_first_two in Hin.
      rewrite map_map in Hin. apply in_map_iff in Hin.
      destruct Hin as (h & <- & Hh). apply in_seq in Hh.
      rewrite (concat_length_uniform length).
      + now rewrite length_map, length_seq.
      + apply Forall_forall. intros xh Hxh. apply in_map_iff in Hxh.
        destruct Hxh as (i & <- & Hi). apply in_seq in Hi.
        rewrite Forall_forall in Hshape.
        destruct (Hshape (nth i x [])) as [Hn Hrows]; [apply nth_In; lia |].
        rewrite Forall_forall in Hrows. apply Hrows. apply nth_In. lia. }
  destruct (get_gates_head_loop_one_hot _ Hl) as (list_gates & -> & Hlg & Hf).
  simpl. eexists. split; [reflexivity |]. split; [reflexivity |].
  rewrite length_combine, Hlsh, Hlx, Nat.min_id in Hlg.
  assert (Hall : Forall (fun gb => List.length gb = nb_heads /\ Forall lsh_gates gb)
                   (transpose_first_two (List.length list_gates) batch_size
                      list_gates)).
  { unfold transpose_first_two. apply Forall_forall. intros gb Hgb.
    apply in_map_iff in Hgb. destruct Hgb as (b & <- & Hb). apply in_seq in Hb.
    split; [now rewrite length_map, length_seq |].
    apply Forall_forall. intros g Hg. apply in_map_iff in Hg.
    destruct Hg as (h & <- & Hh). apply in_seq in Hh.
    rewrite Forall_forall in Hf.
    destruct (Hf (nth h list_gates [])) as [Hn Hg]; [apply nth_In; lia |].
    rewrite Forall_forall in Hg. apply Hg. apply nth_In. lia. }
  unfold combine_first_two_dimensions. split.
  - rewrite (concat_length_uniform nb_heads).
    + unfold transpose_first_two. now rewrite length_map, length_seq.
    + eapply Forall_impl; [| exact Hall]. now intros gb [Hn _].
  - apply Forall_concat. eapply Forall_impl; [| exact Hall]. now intros gb [_ Hg].
Qed.

End GatesHead.

(** The two dispatchers of the LSH path, from the tokens to the
    capacities: [get_gates_head] on the queries, [get_gates_head] with
    [add_first] on the keys, [combine_first_two_dimensions], and
    [get_dispatcher]. *)
Lemma lsh_path_capacities (batch_size nb_heads length depth H : nat)
    (list_lsh : list Lsh.LshGating) (x : list (list (list (list Q)))) :
  (0 < H)%nat -> (0 < batch_size)%nat -> (0 < nb_heads)%nat -> (0 < length)%nat ->
  List.length list_lsh = nb_heads ->
  Forall (Lsh.built depth H) list_lsh ->
  List.length x = batch_size ->
  Forall (fun xb => List.length xb = nb_heads /\
                    Forall (fun xh => List.length xh = length) xb) x ->
  exists gates gates_first : list (list (list (list Q))),
    get_gates_head list_lsh batch_size nb_heads length depth x false = inr gates /\
    get_gates_head list_lsh batch_size nb_heads length depth x true =
      inr gates_first /\
    get_dispatcher (2 ^ H) length (combine_first_two_dimensions gates) =
    inr (mk_TruncatingDispatcher (combine_first_two_dimensions gates) (2 ^ H)
           (Z.to_nat (Z.min (Z.of_nat length)
                            (Z.of_nat length / Z.of_nat (2 ^ H) * 2)))) /\
    get_dispatcher (2 ^ H) length (combine_first_two_dimensions gates_first) =
    inr (mk_TruncatingDispatcher (combine_first_two_dimensions gates_first) (2 ^ H)
           (Z.to_nat
              (Z.min (Z.of_nat length)
                     ((Z.of_nat (2 ^ H) + Z.of_nat length - 1) /
                      Z.of_nat (2 ^ H) * 2)))) /\
    combine_first_two_dimensions gates_first =
      map add_first_position (combine_first_two_dimensions gates) /\
    Forall (fun g => List.length g = length /\ one_hot_rows (2 ^ H) g)
           (combine_first_two_dimensions gates) /\
    List.length (combine_first_two_dimensions gates) =
      (batch_size * nb_heads)%nat.
Proof.
  intros HH Hb Hh Hl Hlsh Hbuilt Hx Hshape.
  destruct (get_gates_head_one_hot batch_size nb_heads length depth H HH
              list_lsh x Hlsh Hbuilt Hx Hshape)
    as (gates & Hq & Hk & Hlen & Hone).
  exists gates, (map (map add_first_position) gates).
  assert (Hne : combine_first_two_dimensions gates <> []).
  { intros E. rewrite E in Hlen. simpl in Hlen. nia. }
  assert (Hc : combine_first_two_dimensions (map (map add_first_position) gates) =
               map add_first_position (combine_first_two_dimensions gates)).
  { unfold combine_first_two_dimensions. symmetry. apply concat_map. }
  pose proof (LshFacts.pow2_pos H) as Hpow.
  repeat split; try assumption.
  - now apply get_dispatcher_one_hot.
  - rewrite Hc. now apply get_dispatcher_add_first.
Qed.

(** C2. Whatever the bucket count [B], the capacity [C] and the input, a
    dispatched sequence has shape [[B, C, D]]; the dispatchers of
    [grouped_attention_multihead] get their bucket count and capacities from
    the lengths and the hyperparameters alone, and so do the dispatchers of
    the LSH path of [dot_product_batched_head], for one-hot query gates and
    for key gates with the first position added, as [get_gates_head]
    produces them from any tokens. *)
Theorem dispatch_shape_is_static :
  (forall (d : TruncatingDispatcher) (depth : nat) (inp : list (list (list R))),
     Forall (Forall (fun row => List.length row = depth)) inp ->
     Forall (has_shape (_num_experts d) (_expert_capacity d) depth)
            (dispatch d depth inp)) /\
  (forall (length_q length_kv num_groups : nat) (density mult add : Q)
          (q_pred m_pred : list (list (list Q))),
     let d := grouped_dispatchers length_q length_kv num_groups density mult add
                q_pred m_pred in
     _num_experts (fst d) = num_groups /\
     _num_experts (snd d) = num_groups /\
     _expert_capacity (fst d) =
       Z.to_nat (group_capacity length_q
                   (q_group_target_size length_q num_groups) mult add) /\
     _expert_capacity (snd d) =
       Z.to_nat (group_capacity length_kv
                   (m_group_target_size length_kv num_groups density) mult add)) /\
  (forall (nb_buckets length : nat) (gates : list (list (list Q))),
     (0 < nb_buckets)%nat -> (0 < length)%nat -> gates <> [] ->
     Forall (fun g => List.length g = length /\ one_hot_rows nb_buckets g) gates ->
     get_dispatcher nb_buckets length gates =
     inr (mk_TruncatingDispatcher gates nb_buckets
            (Z.to_nat (Z.min (Z.of_nat length)
                             (Z.of_nat length / Z.of_nat nb_buckets * 2)))) /\
     get_dispatcher nb_buckets length (map add_first_position gates) =
     inr (mk_TruncatingDispatcher (map add_first_position gates) nb_buckets
            (Z.to_nat
               (Z.min (Z.of_nat length)
                      ((Z.of_nat nb_buckets + Z.of_nat length - 1) /
                       Z.of_nat nb_buckets * 2))))) /\
  (forall (batch_size nb_heads length depth H : nat)
          (list_lsh : list Lsh.LshGating) (x : list (list (list (list Q)))),
     (0 < H)%nat -> (0 < batch_size)%nat -> (0 < nb_heads)%nat ->
     (0 < length)%nat ->
     List.length list_lsh = nb_heads ->
     Forall (Lsh.built depth H) list_lsh ->
     List.length x = batch_size ->
     Forall (fun xb => List.length xb = nb_heads /\
                       Forall (fun xh => List.length xh = length) xb) x ->
     exists (gates gates_first : list (list (list (list Q))))
            (q_dispatcher k_dispatcher : TruncatingDispatcher),
       get_gates_head list_lsh batch_size nb_heads length depth x false =
         inr gates /\
       get_gates_head list_lsh batch_size nb_heads length depth x true =
         inr gates_first /\
       get_dispatcher (2 ^ H) length (combine_first_two_dimensions gates) =
         inr q_dispatcher /\
       get_dispatcher (2 ^ H) length (combine_first_two_dimensions gates_first) =
         inr k_dispatcher /\
       _num_experts q_dispatcher = (2 ^ H)%nat /\
       _num_experts k_dispatcher = (2 ^ H)%nat /\
       _expert_capacity q_dispatcher =
         Z.to_nat (Z.min (Z.of_nat length)
                         (Z.of_nat length / Z.of_nat (2 ^ H) * 2)) /\
       _expert_capacity k_dispatcher =
         Z.to_nat (Z.min (Z.of_nat length)
                         ((Z.of_nat (2 ^ H) + Z.of_nat length - 1) /
                          Z.of_nat (2 ^ H) * 2))).
Proof.
  split; [| split; [| split]].
  - exact dispatch_shape.
  - intros. subst d. unfold grouped_dispatchers. simpl. auto.
  - intros nb_buckets length gates Hnb Hlen Hne Hg. split.
    + now apply get_dispatcher_one_hot.
    + now apply get_dispatcher_add_first.
  - intros batch_size nb_heads length depth H list_lsh x
      HH Hb Hh Hl Hlsh Hbuilt Hx Hshape.
    destruct (lsh_path_capacities batch_size nb_heads length depth H list_lsh x
                HH Hb Hh Hl Hlsh Hbuilt Hx Hshape)
      as (gates & gates_first & Hq & Hk & Hqd & Hkd & _).
    exists gates, gates_first. eexists. eexists.
    repeat split; try eassumption; reflexivity.
Qed.

(** Five tokens in two buckets: capacity four for the queries and five for
    the keys, whichever buckets the tokens go to. *)
Lemma lsh_capacity_five_tokens :
  get_dispatcher 2 5 [map (fun b => QOps.one_hot b 2) [0; 1; 1; 0; 1]%nat] =
  inr (mk_TruncatingDispatcher
         [map (fun b => QOps.one_hot b 2) [0; 1; 1; 0; 1]%nat] 2 4) /\
  get_dispatcher 2 5
    (map add_first_position [map (fun b => QOps.one_hot b 2) [0; 1; 1; 0; 1]%nat]) =
  inr (mk_TruncatingDispatcher
         (map add_first_position
            [map (fun b => QOps.one_hot b 2) [0; 1; 1; 0; 1]%nat]) 2 5).
Proof.
  assert (Hg : Forall (fun g => List.length g = 5%nat /\ one_hot_rows 2 g)
                 [map (fun b => QOps.one_hot b 2) [0; 1; 1; 0; 1]%nat]).
  { constructor; [| constructor]. split; [reflexivity |]. simpl.
    repeat (constructor; [eexists; split; [| reflexivity]; lia |]).
    constructor. }
  assert (H2 : (0 < 2)%nat) by lia.
  assert (H5 : (0 < 5)%nat) by lia.
  assert (Hne : [map (fun b => QOps.one_hot b 2) [0; 1; 1; 0; 1]%nat] <> [])
    by discriminate.
  exact (proj1 (proj2 (proj2 dispatch_shape_is_static))
           2%nat 5%nat _ H2 H5 Hne Hg).
Defined.

End ShapeFacts.

(** ** Forced first position *)

Module FirstPositionFacts.

Import Vec Dispatch Kernel Sparse DispatchFacts ShapeFacts.

Lemma nth_add_first_position (gates : list (list Q)) (t : nat) :
  (t < List.length gates)%nat ->
  nth t (add_first_position gates) [] =
  map (fun g => Qmax g (first_position t)) (nth t gates []).
Proof.
  intros Ht. unfold add_first_position.
  set (f := fun tg : nat * list Q =>
              map (fun g => Qmax g (first_position (fst tg))) (snd tg)).
  change (@nil Q) with (f (0%nat, [])) at 1.
  rewrite (map_nth f), combine_nth by (now rewrite length_seq).
  rewrite seq_nth by exact Ht. reflexivity.
Qed.

Lemma add_first_position_length (gates : list (list Q)) :
  List.length (add_first_position gates) = List.length gates.
Proof.
  unfold add_first_position.
  rewrite length_map, length_combine, length_seq. lia.
Qed.

Lemma request_add_first_position (gates : list (list Q)) (t e : nat) :
  (t < List.length gates)%nat -> (e < List.length (nth t gates []))%nat ->
  request (add_first_position gates) t e =
  Qmax (request gates t e) (first_position t).
Proof.
  intros Ht He. unfold request. rewrite nth_add_first_position by exact Ht.
  set (f := fun g => Qmax g (first_position t)).
  rewrite (nth_indep _ 0%Q (f 0%Q)) by (now rewrite length_map).
  now rewrite (map_nth f).
Qed.

(** The first position is requested for every bucket, whatever the gates. *)
Lemma first_position_requested (gates : list (list Q)) (e : nat) :
  (0 < List.length gates)%nat -> (e < List.length (nth 0 gates []))%nat ->
  requested (add_first_position gates) 0 e = true.
Proof.
  intros Hlen He. unfold requested.
  rewrite request_add_first_position by assumption.
  destruct (Qeq_bool _ 0) eqn:E; [| reflexivity].
  apply Qeq_bool_iff in E.
  pose proof (Q.le_max_r (request gates 0 e) (first_position 0)) as Hle.
  rewrite E in Hle. unfold first_position in Hle. simpl in Hle.
  unfold Qle in Hle. simpl in Hle. lia.
Qed.

Lemma request_memory_requests (m_pred_biased : list (list Q)) (t e : nat) :
  (t < List.length m_pred_biased)%nat ->
  (e < List.length (nth t m_pred_biased []))%nat ->
  request (memory_requests m_pred_biased) t e =
  Qmax (greater_than_zero (request m_pred_biased t e)) (first_position t).
Proof.
  intros Ht He. unfold memory_requests.
  assert (Hrow : nth t (map (map greater_than_zero) m_pred_biased) [] =
                 map greater_than_zero (nth t m_pred_biased [])).
  { change (@nil Q) with (map greater_than_zero []) at 1. apply map_nth. }
  rewrite request_add_first_position.
  - f_equal. unfold request. rewrite Hrow.
    rewrite (nth_indep _ 0%Q (greater_than_zero 0%Q)) by (now rewrite length_map).
    apply map_nth.
  - now rewrite length_map.
  - rewrite Hrow. now rewrite length_map.
Qed.

Lemma Qlt_bool_iff (a b : Q) : QOps.Qlt_bool a b = true <-> (a < b)%Q.
Proof.
  unfold QOps.Qlt_bool. rewrite negb_true_iff. split.
  - intros H. apply Qnot_le_lt. intros Hle. apply Qle_bool_iff in Hle. congruence.
  - intros H. destruct (Qle_bool b a) eqn:E; [| reflexivity].
    apply Qle_bool_iff in E. apply Qle_not_lt in E. contradiction.
Qed.

(** A memory token asks for group [e] exactly when its biased score for [e]
    is positive, or when it is the first memory position. *)
Lemma memory_requests_threshold (m_pred_biased : list (list Q)) (t e : nat) :
  (t < List.length m_pred_biased)%nat ->
  (e < List.length (nth t m_pred_biased []))%nat ->
  (requested (memory_requests m_pred_biased) t e = true <->
   (0 < request m_pred_biased t e)%Q \/ t = 0%nat).
Proof.
  intros Ht He. unfold requested.
  rewrite request_memory_requests by assumption.
  unfold greater_than_zero, first_position.
  destruct (QOps.Qlt_bool 0 (request m_pred_biased t e)) eqn:G;
    destruct (Nat.eqb_spec t 0) as [T | T].
  - split; [intros _; now right | intros _; reflexivity].
  - split; [intros _; left; now apply Qlt_bool_iff | intros _; reflexivity].
  - split; [intros _; now right | intros _; reflexivity].
  - split; [intros H; discriminate |].
    intros [H | H]; [| contradiction].
    apply Qlt_bool_iff in H. congruence.
Qed.

(** When the first position is requested for a bucket of capacity at least
    one, it fills the first slot of the bucket: the bucket has a real key. *)
Lemma first_slot_is_first_position (requests : list (list Q)) (capacity e : nat) :
  (0 < List.length requests)%nat -> (1 <= capacity)%nat ->
  requested requests 0 e = true ->
  exists others, slots requests capacity e = Some 0%nat :: others.
Proof.
  intros Hlen Hcap Hreq. unfold slots, kept, assigned.
  destruct (List.length requests) as [| n]; [lia |].
  destruct capacity as [| c]; [lia |].
  simpl. rewrite Hreq. simpl. eexists. reflexivity.
Qed.

Lemma truncate_ge_one (x : Q) : (1 <= x)%Q -> (1 <= truncate x)%Z.
Proof.
  unfold Qle, truncate. simpl. intros H.
  apply Z.quot_le_lower_bound; lia.
Qed.

Lemma truncate_lt (x : Q) (n : Z) :
  (0 <= x)%Q -> (x < inject_Z n)%Q -> (truncate x < n)%Z.
Proof.
  unfold Qle, Qlt, truncate, inject_Z. simpl. intros H0 H.
  apply Z.quot_lt_upper_bound; lia.
Qed.

(** Within the range of a signed 32-bit integer the cast is the
    truncation. *)
Lemma to_int32_in_range (x : Q) :
  (- 2 ^ 31 <= truncate x < 2 ^ 31)%Z -> to_int32 x = truncate x.
Proof.
  intros [Hlo Hhi]. unfold to_int32. cbv zeta.
  destruct (Z.leb_spec (- 2 ^ 31) (truncate x)); [| lia].
  destruct (Z.ltb_spec (truncate x) (2 ^ 31)); [reflexivity | lia].
Qed.

Lemma to_int32_ge_one (x : Q) :
  (1 <= x)%Q -> (x < inject_Z (2 ^ 31))%Q -> (1 <= to_int32 x)%Z.
Proof.
  intros H1 H2. pose proof (truncate_ge_one x H1) as Hge.
  assert (H0 : (0 <= x)%Q) by (apply Qle_trans with 1%Q; [discriminate | exact H1]).
  pose proof (truncate_lt x (2 ^ 31) H0 H2) as Hlt.
  rewrite to_int32_in_range; lia.
Qed.

(** With an additive overhead of at least one and no negative
    hyperparameter, a non-empty memory gets a capacity of at least one, as
    long as a signed 32-bit integer holds the size the capacity is cast
    from. *)
Lemma memory_capacity_positive (length_kv num_groups : nat) (density mult add : Q) :
  (1 <= length_kv)%nat ->
  (0 <= density)%Q -> (0 <= mult)%Q -> (1 <= add)%Q ->
  (m_group_target_size length_kv num_groups density * mult + add <
   inject_Z (2 ^ 31))%Q ->
  (1 <= group_capacity length_kv
          (m_group_target_size length_kv num_groups density) mult add)%Z.
Proof.
  intros Hlen Hd Hm Ha Hrange. unfold group_capacity.
  apply Z.min_glb; [lia |]. apply to_int32_ge_one; [| exact Hrange].
  assert (Ht : (0 <= m_group_target_size length_kv num_groups density)%Q).
  { unfold m_group_target_size, Qdiv. apply Qmult_le_0_compat.
    - apply Qmult_le_0_compat; [| exact Hd].
      unfold Qle, inject_Z. simpl. lia.
    - destruct num_groups as [| n]; [unfold Qle; simpl; lia |].
      apply Qinv_le_0_compat. unfold Qle, inject_Z. simpl. lia. }
  pose proof (Qmult_le_0_compat _ _ Ht Hm) as Hp.
  apply Qle_trans with (0 + add)%Q.
  - rewrite Qplus_0_l. exact Ha.
  - apply Qplus_le_compat; [exact Hp | apply Qle_refl].
Qed.

Lemma key_capacity_positive (nb_buckets length : nat) :
  (0 < nb_buckets)%nat -> (0 < length)%nat ->
  (1 <= Z.min (Z.of_nat length)
          ((Z.of_nat nb_buckets + Z.of_nat length - 1) / Z.of_nat nb_buckets * 2))%Z.
Proof.
  intros Hnb Hlen. apply Z.min_glb; [lia |].
  assert (1 <= (Z.of_nat nb_buckets + Z.of_nat length - 1) / Z.of_nat nb_buckets)%Z.
  { apply Z.div_le_lower_bound; lia. }
  lia.
Qed.

Lemma exp_sum_positive (logits : list R) :
  logits <> [] -> (0 < rsum (map exp logits))%R.
Proof.
  destruct logits as [| x l]; [congruence |]. intros _. simpl.
  assert (H : (0 <= rsum (map exp l))%R).
  { induction l as [| y l IH]; simpl; [lra |].
    pose proof (exp_pos y). lra. }
  pose proof (exp_pos x). lra.
Qed.

Lemma first_row_length {A : Type} (width : nat) (g : list (list A)) :
  (0 < List.length g)%nat -> Forall (fun row => List.length row = width) g ->
  List.length (nth 0 g []) = width.
Proof.
  intros Hlen H. destruct g as [| row g]; [simpl in Hlen; lia |].
  now inversion H.
Qed.

Lemma one_hot_rows_width (num_experts : nat) (g : list (list Q)) :
  one_hot_rows num_experts g ->
  Forall (fun row => List.length row = num_experts) g.
Proof.
  intros H. apply Forall_forall. intros row Hrow.
  unfold one_hot_rows in H. rewrite Forall_forall in H.
  destruct (H row Hrow) as (b & _ & ->). apply LshFacts.one_hot_length.
Qed.

(** The capacity of the memory dispatcher is never more than the length of
    the memory. *)
Lemma memory_capacity_le_length (length_q length_kv num_groups : nat)
    (density mult add : Q) (q_pred m_pred : list (list (list Q))) :
  (_expert_capacity
     (snd (grouped_dispatchers length_q length_kv num_groups density mult add
             q_pred m_pred)) <= length_kv)%nat.
Proof.
  unfold grouped_dispatchers, group_capacity. simpl. lia.
Qed.

(** In [grouped_attention_multihead] the first memory position fills the
    first slot of every group, when the groups have a slot at all. *)
Lemma grouped_first_slot (length_q length_kv num_groups : nat) (density mult add : Q)
    (q_pred m_pred : list (list (list Q))) :
  Forall (fun m => List.length m = length_kv /\
                   Forall (fun row => List.length row = num_groups) m)
         m_pred ->
  let m_dispatcher :=
    snd (grouped_dispatchers length_q length_kv num_groups density mult add
           q_pred m_pred) in
  (1 <= _expert_capacity m_dispatcher)%nat ->
  forall requests : list (list Q),
    In requests (_requests m_dispatcher) ->
    forall e : nat, (e < num_groups)%nat ->
      exists others,
        slots requests (_expert_capacity m_dispatcher) e = Some 0%nat :: others.
Proof.
  intros Hshape m_dispatcher Hcap requests Hin e He.
  pose proof (memory_capacity_le_length length_q length_kv num_groups
                density mult add q_pred m_pred) as Hlen.
  fold m_dispatcher in Hlen.
  assert (Hr : _requests m_dispatcher = map memory_requests m_pred) by reflexivity.
  rewrite Hr in Hin. clear Hr.
  generalize dependent (_expert_capacity m_dispatcher). intros capacity Hcap Hlen.
  apply in_map_iff in Hin. destruct Hin as (m & <- & Hin).
  rewrite Forall_forall in Hshape. destruct (Hshape m Hin) as [Hl Hrows].
  unfold memory_requests. apply first_slot_is_first_position.
  - rewrite add_first_position_length, length_map. lia.
  - lia.
  - apply first_position_requested.
    + rewrite length_map. lia.
    + apply Nat.lt_le_trans with num_groups; [exact He |].
      rewrite (first_row_length num_groups); [lia | rewrite length_map; lia |].
      apply Forall_forall. intros row Hrow. apply in_map_iff in Hrow.
      destruct Hrow as (row' & <- & Hrow'). rewrite length_map.
      rewrite Forall_forall in Hrows. now apply Hrows.
Qed.

(** So it does in the key dispatcher of one-hot gates with the first
    position added. *)
Lemma lsh_first_slot (nb_buckets length : nat) (gates : list (list (list Q))) :
  (0 < nb_buckets)%nat -> (0 < length)%nat -> gates <> [] ->
  Forall (fun g => List.length g = length /\ one_hot_rows nb_buckets g) gates ->
  exists k_dispatcher : TruncatingDispatcher,
    get_dispatcher nb_buckets length (map add_first_position gates) =
    inr k_dispatcher /\
    forall requests : list (list Q),
      In requests (_requests k_dispatcher) ->
      forall e : nat, (e < nb_buckets)%nat ->
        exists others,
          slots requests (_expert_capacity k_dispatcher) e = Some 0%nat :: others.
Proof.
  intros Hnb Hlen Hne Hg.
  eexists. split; [now apply get_dispatcher_add_first |].
  simpl. intros requests Hin e He.
  apply in_map_iff in Hin. destruct Hin as (g & <- & Hin).
  rewrite Forall_forall in Hg. destruct (Hg g Hin) as [Hl Hone].
  pose proof (key_capacity_positive nb_buckets length Hnb Hlen) as Hcap.
  apply first_slot_is_first_position.
  - rewrite add_first_position_length. lia.
  - lia.
  - apply first_position_requested; [lia |].
    rewrite (first_row_length nb_buckets); [exact He | lia |].
    now apply one_hot_rows_width.
Qed.

(** And so it does for the keys of [sparse_dot_product_attention_truncated],
    whatever the keys are. *)
Lemma lsh_path_first_slot (batch_size nb_heads length depth H : nat)
    (list_lsh : list Lsh.LshGating) (k : list (list (list (list Q)))) :
  (0 < H)%nat -> (0 < batch_size)%nat -> (0 < nb_heads)%nat -> (0 < length)%nat ->
  List.length list_lsh = nb_heads ->
  Forall (Lsh.built depth H) list_lsh ->
  List.length k = batch_size ->
  Forall (fun kb => List.length kb = nb_heads /\
                    Forall (fun kh => List.length kh = length) kb) k ->
  exists (gates_k : list (list (list (list Q)))) (k_dispatcher : TruncatingDispatcher),
    get_gates_head list_lsh batch_size nb_heads length depth k true = inr gates_k /\
    get_dispatcher (2 ^ H) length (combine_first_two_dimensions gates_k) =
      inr k_dispatcher /\
    forall requests : list (list Q),
      In requests (_requests k_dispatcher) ->
      forall e : nat, (e < 2 ^ H)%nat ->
        exists others,
          slots requests (_expert_capacity k_dispatcher) e = Some 0%nat :: others.
Proof.
  intros HH Hb Hh Hl Hlsh Hbuilt Hk Hshape.
  destruct (lsh_path_capacities batch_size nb_heads length depth H list_lsh k
              HH Hb Hh Hl Hlsh Hbuilt Hk Hshape)
    as (gates & gates_first & _ & Hgk & _ & _ & Hc & Hone & Hlen).
  assert (Hne : combine_first_two_dimensions gates <> []).
  { intros E. rewrite E in Hlen. simpl in Hlen. nia. }
  destruct (lsh_first_slot (2 ^ H) length (combine_first_two_dimensions gates)
              (LshFacts.pow2_pos H) Hl Hne Hone) as (kd & Hkd & Hslots).
  exists gates_first, kd. rewrite Hc. auto.
Qed.

(** C8, amended. A memory token asks for group [e] exactly when its biased
    score for [e] exceeds zero, except that the first memory position asks
    for every group; in [grouped_attention_multihead], whenever the capacity
    of the groups is at least one, and in the key dispatcher of the LSH path
    (non-empty sequence), where it always is, the first position then fills
    the first slot of every bucket, so that no bucket is without a real key
    and the normaliser of a softmax over the key axis is positive. *)
Theorem first_position_in_every_group :
  (forall (m_pred_biased : list (list Q)) (t e : nat),
     (t < List.length m_pred_biased)%nat ->
     (e < List.length (nth t m_pred_biased []))%nat ->
     (requested (memory_requests m_pred_biased) t e = true <->
      (0 < request m_pred_biased t e)%Q \/ t = 0%nat)) /\
  (forall (length_q length_kv num_groups : nat) (density mult add : Q)
          (q_pred m_pred : list (list (list Q))),
     Forall (fun m => List.length m = length_kv /\
                      Forall (fun row => List.length row = num_groups) m)
            m_pred ->
     let m_dispatcher :=
       snd (grouped_dispatchers length_q length_kv num_groups density mult add
              q_pred m_pred) in
     (1 <= _expert_capacity m_dispatcher)%nat ->
     forall requests : list (list Q),
       In requests (_requests m_dispatcher) ->
       forall e : nat, (e < num_groups)%nat ->
         exists others,
           slots requests (_expert_capacity m_dispatcher) e = Some 0%nat :: others) /\
  (forall (batch_size nb_heads length depth H : nat)
          (list_lsh : list Lsh.LshGating) (k : list (list (list (list Q)))),
     (0 < H)%nat -> (0 < batch_size)%nat -> (0 < nb_heads)%nat ->
     (0 < length)%nat ->
     List.length list_lsh = nb_heads ->
     Forall (Lsh.built depth H) list_lsh ->
     List.length k = batch_size ->
     Forall (fun kb => List.length kb = nb_heads /\
                       Forall (fun kh => List.length kh = length) kb) k ->
     exists (gates_k : list (list (list (list Q))))
            (k_dispatcher : TruncatingDispatcher),
       get_gates_head list_lsh batch_size nb_heads length depth k true =
         inr gates_k /\
       get_dispatcher (2 ^ H) length (combine_first_two_dimensions gates_k) =
         inr k_dispatcher /\
       forall requests : list (list Q),
         In requests (_requests k_dispatcher) ->
         forall e : nat, (e < 2 ^ H)%nat ->
           exists others,
             slots requests (_expert_capacity k_dispatcher) e =
             Some 0%nat :: others) /\
  (forall logits : list R, logits <> [] -> (0 < rsum (map exp logits))%R).
Proof.
  split; [| split; [| split]].
  - exact memory_requests_threshold.
  - exact grouped_first_slot.
  - exact lsh_path_first_slot.
  - exact exp_sum_positive.
Qed.

(** Without additive overhead a small target size rounds to a capacity of
    zero, and the forced first position is dropped like any other token. *)
Lemma zero_capacity_counterexample : ~ key_sets_never_empty.
Proof.
  intros H.
  assert (Hs : Forall (fun m : list (list Q) =>
                         List.length m = 2%nat /\
                         Forall (fun row => List.length row = 4%nat) m)
                      [[[0%Q; 0%Q; 0%Q; 0%Q]; [0%Q; 0%Q; 0%Q; 0%Q]]]).
  { repeat constructor. }
  apply (H 2%nat 2%nat 4%nat (1 # 10)%Q (5 # 4)%Q 0%Q []
           [[[0%Q; 0%Q; 0%Q; 0%Q]; [0%Q; 0%Q; 0%Q; 0%Q]]]
           (Nat.le_succ_diag_r 1) Hs _ (or_introl eq_refl) 0%nat).
  - lia.
  - reflexivity.
Qed.

Example zero_capacity :
  group_capacity 2 (m_group_target_size 2 4 (1 # 10)) (5 # 4) 0 = 0%Z.
Proof. reflexivity. Qed.

(** Two memory positions, two groups: the second position only likes group
    1, the first is in both groups. *)
Lemma first_position_two_groups :
  map (fun e => slots (memory_requests [[(- (1))%Q; (- (2))%Q]; [(- (1))%Q; 3%Q]]) 2 e)
      [0; 1]%nat =
  [[Some 0; None]; [Some 0; Some 1]]%nat /\
  exists others,
    slots (memory_requests [[(- (1))%Q; (- (2))%Q]; [(- (1))%Q; 3%Q]]) 2 1 =
    Some 0%nat :: others.
Proof.
  split; [reflexivity |].
  assert (Hs : Forall (fun m : list (list Q) =>
                         List.length m = 2%nat /\
                         Forall (fun row => List.length row = 2%nat) m)
                      [[[(- (1))%Q; (- (2))%Q]; [(- (1))%Q; 3%Q]]]).
  { repeat constructor. }
  exact (proj1 (proj2 first_position_in_every_group) 2%nat 2%nat 2%nat
           2%Q (5 # 4)%Q 8%Q [] [[[(- (1))%Q; (- (2))%Q]; [(- (1))%Q; 3%Q]]]
           Hs (Nat.le_succ_diag_r 1) _ (or_introl eq_refl) 1%nat ltac:(lia)).
Defined.

End FirstPositionFacts.

(** ** Masking in the attention kernel *)

Module KernelFacts.

Import Zip Vec Dispatch Kernel Sparse DispatchFacts.
Local Open Scope R_scope.

Lemma rsum_exp_nonneg (l : list R) : 0 <= rsum (map exp l).
Proof.
  induction l as [| x l IH]; simpl; [lra |]. pose proof (exp_pos x). lra.
Qed.

Lemma exp_le_rsum (l : list R) (j : nat) :
  (j < List.length l)%nat -> exp (nth j l 0) <= rsum (map exp l).
Proof.
  revert j. induction l as [| x l IH]; intros j Hj; simpl in *; [lia |].
  destruct j as [| j].
  - pose proof (rsum_exp_nonneg l). lra.
  - specialize (IH j ltac:(lia)). pose proof (exp_pos x). lra.
Qed.

Lemma nth_softmax (l : list R) (j : nat) :
  (j < List.length l)%nat ->
  nth j (softmax l) 0 = exp (nth j l 0) / rsum (map exp l).
Proof.
  intros Hj. unfold softmax.
  set (f := fun x => exp x / rsum (map exp l)).
  rewrite (nth_indep _ 0 (f 0)) by (now rewrite length_map).
  apply (map_nth f).
Qed.

(** A softmax weight is positive: in exact arithmetic no finite bias makes
    it zero. *)
Lemma softmax_positive (l : list R) (j : nat) :
  (j < List.length l)%nat -> 0 < nth j (softmax l) 0.
Proof.
  intros Hj. rewrite nth_softmax by exact Hj.
  pose proof (exp_le_rsum l j Hj). pose proof (exp_pos (nth j l 0)).
  apply Rdiv_lt_0_compat; lra.
Qed.

(** One weight against another of the same row: never more than the
    exponential of the difference of the logits. *)
Lemma softmax_le_ratio (l : list R) (j j' : nat) :
  (j < List.length l)%nat -> (j' < List.length l)%nat ->
  nth j (softmax l) 0 <= exp (nth j l 0 - nth j' l 0).
Proof.
  intros Hj Hj'. rewrite nth_softmax by exact Hj.
  pose proof (exp_le_rsum l j' Hj') as Hle.
  pose proof (exp_pos (nth j' l 0)) as Hp'.
  pose proof (exp_pos (nth j l 0)) as Hp.
  unfold Rminus. rewrite exp_plus, exp_Ropp. unfold Rdiv.
  apply Rmult_le_compat_l; [lra |].
  apply Rinv_le_contravar; lra.
Qed.

(** [exp(log_softmax)] is [softmax]: both paths weigh the keys alike. *)
Lemma exp_log_softmax (l : list R) : map exp (log_softmax l) = softmax l.
Proof.
  unfold log_softmax, softmax. rewrite map_map. apply map_ext_in.
  intros x Hx.
  assert (Hs : 0 < rsum (map exp l)).
  { apply FirstPositionFacts.exp_sum_positive. intros ->. contradiction. }
  unfold Rminus. rewrite exp_plus, exp_Ropp, exp_ln by exact Hs. reflexivity.
Qed.

Lemma grouped_weights_attention_weights (q k bias : list (list R)) :
  grouped_weights q k bias = attention_weights q k (Some bias).
Proof.
  unfold grouped_weights, attention_weights. apply map_ext.
  intros l. apply exp_log_softmax.
Qed.

Lemma nth_map_default {A B : Type} (f : A -> B) (l : list A) (j : nat) (a : A) (b : B) :
  (j < List.length l)%nat -> nth j (map f l) b = f (nth j l a).
Proof.
  intros Hj. rewrite (nth_indep _ b (f a)) by (now rewrite length_map).
  apply map_nth.
Qed.

Lemma nth_combine_lt {A B : Type} (la : list A) (lb : list B) (a : A) (b : B) :
  forall j : nat, (j < List.length la)%nat -> (j < List.length lb)%nat ->
    nth j (List.combine la lb) (a, b) = (nth j la a, nth j lb b).
Proof.
  revert lb. induction la as [| x la IH]; intros [| y lb] j Ha Hb; simpl in *;
    try lia.
  destruct j as [| j]; [reflexivity |]. apply IH; lia.
Qed.

Lemma nth_map2 {A B C : Type} (f : A -> B -> C) (la : list A) (lb : list B)
    (j : nat) (a : A) (b : B) (c : C) :
  (j < List.length la)%nat -> (j < List.length lb)%nat ->
  nth j (map2 f la lb) c = f (nth j la a) (nth j lb b).
Proof.
  intros Ha Hb. unfold map2.
  rewrite (nth_map_default _ _ _ (a, b)) by (rewrite length_combine; lia).
  now rewrite nth_combine_lt.
Qed.

Lemma nth_map3 {A B C D : Type} (f : A -> B -> C -> D)
    (la : list A) (lb : list B) (lc : list C) (j : nat)
    (a : A) (b : B) (c : C) (d : D) :
  (j < List.length la)%nat -> (j < List.length lb)%nat ->
  (j < List.length lc)%nat ->
  nth j (map3 f la lb lc) d = f (nth j la a) (nth j lb b) (nth j lc c).
Proof.
  intros Ha Hb Hc. unfold map3.
  rewrite (nth_map2 _ _ _ _ (a, b) c) by (try rewrite length_combine; lia).
  now rewrite nth_combine_lt.
Qed.

Lemma nth_vadd (a b : list R) (j : nat) :
  (j < List.length a)%nat -> (j < List.length b)%nat ->
  nth j (vadd a b) 0 = nth j a 0 + nth j b 0.
Proof.
  intros Ha Hb. unfold vadd.
  rewrite (nth_map_default _ _ _ (0, 0)) by (rewrite length_combine; lia).
  now rewrite nth_combine_lt.
Qed.

(** The logit of query row [i] against key row [j], with its bias. *)
Lemma nth_logits (q k bias : list (list R)) (i j : nat) :
  (i < List.length q)%nat -> (i < List.length bias)%nat ->
  (j < List.length k)%nat -> (j < List.length (nth i bias []))%nat ->
  nth j (nth i (add_bias (matmul_qk q k) bias) []) 0 =
  rdot (nth i q []) (nth j k []) + nth j (nth i bias []) 0.
Proof.
  intros Hq Hb Hk Hbj. unfold add_bias, matmul_qk.
  rewrite (nth_map_default _ _ _ ([], [])) by (rewrite length_combine, length_map; lia).
  rewrite nth_combine_lt by (try rewrite length_map; lia). simpl.
  rewrite (nth_map_default _ _ _ []) by exact Hq.
  rewrite nth_vadd by (try rewrite length_map; lia).
  now rewrite (nth_map_default _ _ _ []) by exact Hk.
Qed.

Lemma logits_row_length (q k bias : list (list R)) (i : nat) :
  (i < List.length q)%nat -> (i < List.length bias)%nat ->
  List.length (nth i bias []) = List.length k ->
  List.length (nth i (add_bias (matmul_qk q k) bias) []) = List.length k.
Proof.
  intros Hq Hb Hbl. unfold add_bias, matmul_qk.
  rewrite (nth_map_default _ _ _ ([], [])) by (rewrite length_combine, length_map; lia).
  rewrite nth_combine_lt by (try rewrite length_map; lia). simpl.
  rewrite (nth_map_default _ _ _ []) by exact Hq.
  unfold vadd. rewrite length_map, length_combine, length_map. lia.
Qed.

(** The weight of key row [j] for query row [i] is at most the exponential
    of its biased logit minus that of any other key row [j']. *)
Lemma attention_weight_le_ratio (q k bias : list (list R)) (i j j' : nat) :
  (i < List.length q)%nat -> (i < List.length bias)%nat ->
  List.length (nth i bias []) = List.length k ->
  (j < List.length k)%nat -> (j' < List.length k)%nat ->
  nth j (nth i (attention_weights q k (Some bias)) []) 0 <=
  exp ((rdot (nth i q []) (nth j k []) + nth j (nth i bias []) 0) -
       (rdot (nth i q []) (nth j' k []) + nth j' (nth i bias []) 0)).
Proof.
  intros Hq Hb Hbl Hj Hj'. unfold attention_weights.
  assert (Hi : (i < List.length (add_bias (matmul_qk q k) bias))%nat).
  { unfold add_bias, matmul_qk. rewrite length_map, length_combine, length_map. lia. }
  rewrite (nth_map_default _ _ _ []) by exact Hi.
  pose proof (logits_row_length q k bias i Hq Hb Hbl) as Hlen.
  rewrite <- !nth_logits by lia.
  apply softmax_le_ratio; lia.
Qed.

Lemma exp_monotone (x y : R) : x <= y -> exp x <= exp y.
Proof.
  intros [H | ->]; [left; now apply exp_increasing | right; reflexivity].
Qed.

Lemma nth_bucket_bias (mask_right : bool) (qc : list nat) (knp : list R)
    (kc : list nat) (i j : nat) :
  (i < List.length qc)%nat -> (j < List.length knp)%nat ->
  (j < List.length kc)%nat ->
  nth j (nth i (bucket_bias mask_right qc knp kc) []) 0 =
  bias_entry mask_right (nth i qc 0%nat) (nth j knp 0) (nth j kc 0%nat).
Proof.
  intros Hi Hj Hj'. unfold bucket_bias.
  rewrite (nth_map_default _ _ _ 0%nat) by exact Hi.
  rewrite (nth_map_default _ _ _ (0, 0%nat)) by (rewrite length_combine; lia).
  now rewrite nth_combine_lt.
Qed.

Lemma bucket_bias_row_length (mask_right : bool) (qc : list nat) (knp : list R)
    (kc : list nat) (i : nat) :
  (i < List.length qc)%nat -> List.length knp = List.length kc ->
  List.length (nth i (bucket_bias mask_right qc knp kc) []) = List.length kc.
Proof.
  intros Hi Hl. unfold bucket_bias.
  rewrite (nth_map_default _ _ _ 0%nat) by exact Hi.
  rewrite length_map, length_combine. lia.
Qed.

(** A real key the mask lets through has no bias. *)
Lemma bias_entry_visible (mask_right : bool) (qc kc : nat) :
  mask_right = false \/ (kc <= qc)%nat ->
  bias_entry mask_right qc 1 kc = 0.
Proof.
  intros H. unfold bias_entry. destruct mask_right.
  - destruct H as [H | H]; [discriminate |].
    destruct (Nat.ltb_spec qc kc); [lia | lra].
  - lra.
Qed.

(** A padding slot carries a bias of at most [-1e9]. *)
Lemma bias_entry_padding (mask_right : bool) (qc kc : nat) :
  bias_entry mask_right qc 0 kc <= - 1000000000.
Proof.
  unfold bias_entry. destruct mask_right; [| lra].
  destruct (qc <? kc)%nat; lra.
Qed.

(** Under [mask_right] so does a key at a position after the query's. *)
Lemma bias_entry_future (qc kc : nat) (np : R) :
  (qc < kc)%nat -> np <= 1 -> bias_entry true qc np kc <= - 1000000000.
Proof.
  intros H Hnp. unfold bias_entry.
  destruct (Nat.ltb_spec qc kc); [lra | lia].
Qed.

Lemma slot_nonpadding_le_one (s : option nat) : slot_nonpadding s <= 1.
Proof. destruct s; simpl; lra. Qed.

Lemma nth_slots_map {A : Type} (f : option nat -> A) (requests : list (list Q))
    (capacity e j : nat) (s : option nat) (d : A) :
  nth_error (slots requests capacity e) j = Some s ->
  nth j (map f (slots requests capacity e)) d = f s.
Proof.
  intros H. apply nth_error_nth. now apply map_nth_error.
Qed.

Lemma nth_error_slots_lt (requests : list (list Q)) (capacity e j : nat)
    (s : option nat) :
  nth_error (slots requests capacity e) j = Some s -> (j < capacity)%nat.
Proof.
  intros H. rewrite <- (slots_length requests capacity e).
  apply nth_error_Some. congruence.
Qed.

Section Bucket.

Variable mask_right : bool.
Variables rq rk : list (list Q).
Variables num_experts_q num_experts_k capacity_q capacity_k depth : nat.
Variables q k : list (list R).
Variable e : nat.
Hypothesis Heq : (e < num_experts_q)%nat.
Hypothesis Hek : (e < num_experts_k)%nat.

(** The weights of bucket [e] of one element of the batch. *)
Local Abbreviation bucket_weights :=
  (attention_weights
     (nth e (dispatch1 rq num_experts_q capacity_q depth q) [])
     (nth e (dispatch1 rk num_experts_k capacity_k depth k) [])
     (Some (bucket_bias mask_right
              (nth e (length_coordinate1 rq num_experts_q capacity_q) [])
              (nth e (nonpadding1 rk num_experts_k capacity_k) [])
              (nth e (length_coordinate1 rk num_experts_k capacity_k) [])))).

(** Slot against slot: the weight of key slot [j] for query slot [i] is at
    most the exponential of its biased logit minus that of key slot [j']. *)
Lemma bucket_weight_le_ratio (i j j' : nat) (sq sk sk' : option nat) :
  nth_error (slots rq capacity_q e) i = Some sq ->
  nth_error (slots rk capacity_k e) j = Some sk ->
  nth_error (slots rk capacity_k e) j' = Some sk' ->
  nth j (nth i bucket_weights []) 0 <=
  exp ((rdot (slot_row depth q sq) (slot_row depth k sk) +
        bias_entry mask_right (slot_coordinate sq) (slot_nonpadding sk)
          (slot_coordinate sk)) -
       (rdot (slot_row depth q sq) (slot_row depth k sk') +
        bias_entry mask_right (slot_coordinate sq) (slot_nonpadding sk')
          (slot_coordinate sk'))).
Proof.
  intros Hsq Hsk Hsk'.
  pose proof (nth_error_slots_lt _ _ _ _ _ Hsq) as Hi.
  pose proof (nth_error_slots_lt _ _ _ _ _ Hsk) as Hj.
  pose proof (nth_error_slots_lt _ _ _ _ _ Hsk') as Hj'.
  unfold dispatch1, nonpadding1, length_coordinate1.
  rewrite !nth_map_seq by assumption.
  set (qb := map (slot_row depth q) (slots rq capacity_q e)).
  set (kb := map (slot_row depth k) (slots rk capacity_k e)).
  set (qc := map slot_coordinate (slots rq capacity_q e)).
  set (knp := map slot_nonpadding (slots rk capacity_k e)).
  set (kc := map slot_coordinate (slots rk capacity_k e)).
  assert (Lqb : List.length qb = capacity_q)
    by (unfold qb; now rewrite length_map, slots_length).
  assert (Lkb : List.length kb = capacity_k)
    by (unfold kb; now rewrite length_map, slots_length).
  assert (Lqc : List.length qc = capacity_q)
    by (unfold qc; now rewrite length_map, slots_length).
  assert (Lknp : List.length knp = capacity_k)
    by (unfold knp; now rewrite length_map, slots_length).
  assert (Lkc : List.length kc = capacity_k)
    by (unfold kc; now rewrite length_map, slots_length).
  assert (Lb : List.length (bucket_bias mask_right qc knp kc) = capacity_q)
    by (unfold bucket_bias; now rewrite length_map).
  pose proof (attention_weight_le_ratio qb kb (bucket_bias mask_right qc knp kc)
                i j j') as H.
  rewrite !nth_bucket_bias in H by lia.
  unfold qb, kb, qc, knp, kc in H.
  rewrite (nth_slots_map _ _ _ _ _ _ _ Hsq) in H.
  rewrite !(nth_slots_map _ _ _ _ _ _ _ Hsk) in H.
  rewrite !(nth_slots_map _ _ _ _ _ _ _ Hsk') in H.
  rewrite (nth_slots_map slot_coordinate _ _ _ _ _ _ Hsq) in H.
  apply H; fold qb kb qc knp kc; try lia.
  rewrite bucket_bias_row_length; lia.
Qed.

(** A masked key slot against a visible real key of the same bucket. *)
Lemma masked_weight_bound (i j j' : nat) (sq sk : option nat) (tk' : nat) :
  nth_error (slots rq capacity_q e) i = Some sq ->
  nth_error (slots rk capacity_k e) j = Some sk ->
  nth_error (slots rk capacity_k e) j' = Some (Some tk') ->
  sk = None \/
    (mask_right = true /\ (slot_coordinate sq < slot_coordinate sk)%nat) ->
  mask_right = false \/ (tk' <= slot_coordinate sq)%nat ->
  nth j (nth i bucket_weights []) 0 <=
  exp (rdot (slot_row depth q sq) (slot_row depth k sk) -
       rdot (slot_row depth q sq) (nth tk' k (vzero depth)) - 1000000000).
Proof.
  intros Hsq Hsk Hsk' Hmasked Hvisible.
  eapply Rle_trans; [apply (bucket_weight_le_ratio i j j' sq sk (Some tk'));
                     assumption |].
  apply exp_monotone. simpl slot_nonpadding. simpl slot_coordinate at 4.
  rewrite (bias_entry_visible mask_right _ tk' Hvisible). simpl slot_row.
  assert (Hb : bias_entry mask_right (slot_coordinate sq) (slot_nonpadding sk)
                 (slot_coordinate sk) <= - 1000000000).
  { destruct Hmasked as [-> | [-> Hlt]].
    - apply bias_entry_padding.
    - apply bias_entry_future; [exact Hlt | apply slot_nonpadding_le_one]. }
  lra.
Qed.

End Bucket.

Lemma dispatch_length (d : TruncatingDispatcher) (depth : nat)
    (inp : list (list (list R))) :
  List.length (dispatch d depth inp) =
  Nat.min (List.length (_requests d)) (List.length inp).
Proof. unfold dispatch. now rewrite length_map, length_combine. Qed.

Lemma nth_dispatch (d : TruncatingDispatcher) (depth : nat)
    (inp : list (list (list R))) (b : nat) :
  (b < List.length (_requests d))%nat -> (b < List.length inp)%nat ->
  nth b (dispatch d depth inp) [] =
  dispatch1 (nth b (_requests d) []) (_num_experts d) (_expert_capacity d)
    depth (nth b inp []).
Proof.
  intros Hr Hi. unfold dispatch.
  rewrite (nth_map_default _ _ _ ([], [])) by (rewrite length_combine; lia).
  now rewrite nth_combine_lt.
Qed.

Lemma dispatch1_length (requests : list (list Q)) (num_experts capacity depth : nat)
    (inp : list (list R)) :
  List.length (dispatch1 requests num_experts capacity depth inp) = num_experts.
Proof. unfold dispatch1. now rewrite length_map, length_seq. Qed.

Lemma map2_length {A B C : Type} (f : A -> B -> C) (la : list A) (lb : list B) :
  List.length (map2 f la lb) = Nat.min (List.length la) (List.length lb).
Proof. unfold map2. now rewrite length_map, length_combine. Qed.

Lemma map3_length {A B C D : Type} (f : A -> B -> C -> D)
    (la : list A) (lb : list B) (lc : list C) :
  List.length (map3 f la lb lc) =
  Nat.min (Nat.min (List.length la) (List.length lb)) (List.length lc).
Proof. unfold map3. now rewrite map2_length, length_combine. Qed.

(** The bias of bucket [e] of element [b] of the batch. *)
Lemma nth_batched_bias (mask_right : bool) (qd kd : TruncatingDispatcher) (b e : nat) :
  (b < List.length (_requests qd))%nat -> (b < List.length (_requests kd))%nat ->
  (e < _num_experts qd)%nat -> (e < _num_experts kd)%nat ->
  nth e (nth b (batched_bias mask_right qd kd) []) [] =
  bucket_bias mask_right
    (nth e (length_coordinate1 (nth b (_requests qd) []) (_num_experts qd)
              (_expert_capacity qd)) [])
    (nth e (nonpadding1 (nth b (_requests kd) []) (_num_experts kd)
              (_expert_capacity kd)) [])
    (nth e (length_coordinate1 (nth b (_requests kd) []) (_num_experts kd)
              (_expert_capacity kd)) []).
Proof.
  intros Hq Hk Heq Hek. unfold batched_bias, length_coordinate, nonpadding.
  rewrite (nth_map3 _ _ _ _ _ [] [] []) by (rewrite length_map; lia).
  rewrite !(nth_map_default _ _ _ []) by lia.
  rewrite (nth_map3 _ _ _ _ _ [] [] []);
    [reflexivity | | |];
    unfold length_coordinate1, nonpadding1; rewrite length_map, length_seq; lia.
Qed.

(** The weights of bucket [e] of element [b] of the batch are the kernel's
    weights on the dispatched rows of that bucket. *)
Lemma nth_batched_head_weights (mask_right : bool) (qd kd : TruncatingDispatcher)
    (depth : nat) (q k : list (list (list R))) (b e : nat) :
  (b < List.length (_requests qd))%nat -> (b < List.length q)%nat ->
  (b < List.length (_requests kd))%nat -> (b < List.length k)%nat ->
  (e < _num_experts qd)%nat -> (e < _num_experts kd)%nat ->
  nth e (nth b (batched_head_weights (dispatch qd depth q) (dispatch kd depth k)
                  (batched_bias mask_right qd kd)) []) [] =
  attention_weights
    (nth e (dispatch1 (nth b (_requests qd) []) (_num_experts qd)
              (_expert_capacity qd) depth (nth b q [])) [])
    (nth e (dispatch1 (nth b (_requests kd) []) (_num_experts kd)
              (_expert_capacity kd) depth (nth b k [])) [])
    (Some (bucket_bias mask_right
             (nth e (length_coordinate1 (nth b (_requests qd) [])
                       (_num_experts qd) (_expert_capacity qd)) [])
             (nth e (nonpadding1 (nth b (_requests kd) []) (_num_experts kd)
                       (_expert_capacity kd)) [])
             (nth e (length_coordinate1 (nth b (_requests kd) [])
                       (_num_experts kd) (_expert_capacity kd)) []))).
Proof.
  intros Hq Hq' Hk Hk' Heq Hek. unfold batched_head_weights.
  assert (Lb : List.length (batched_bias mask_right qd kd) =
               Nat.min (Nat.min (List.length (_requests qd))
                                (List.length (_requests kd)))
                       (List.length (_requests kd))).
  { unfold batched_bias, length_coordinate, nonpadding.
    now rewrite map3_length, !length_map. }
  rewrite (nth_map3 _ _ _ _ _ [] [] [])
    by (rewrite ?dispatch_length, ?Lb; lia).
  rewrite !nth_dispatch by assumption.
  assert (Lbb : List.length (nth b (batched_bias mask_right qd kd) []) =
                Nat.min (Nat.min (_num_experts qd) (_num_experts kd))
                        (_num_experts kd)).
  { unfold batched_bias, length_coordinate, nonpadding.
    rewrite (nth_map3 _ _ _ _ _ [] [] []) by (rewrite length_map; lia).
    rewrite !(nth_map_default _ _ _ []) by lia.
    rewrite map3_length. unfold length_coordinate1, nonpadding1.
    now rewrite !length_map, !length_seq. }
  rewrite (nth_map3 _ _ _ _ _ [] [] [])
    by (rewrite ?dispatch1_length, ?Lbb; lia).
  now rewrite nth_batched_bias.
Qed.

Lemma get_dispatcher_fields (nb_buckets length : nat)
    (gates : list (list (list Q))) (d : TruncatingDispatcher) :
  get_dispatcher nb_buckets length gates = inr d ->
  _requests d = gates /\ _num_experts d = nb_buckets.
Proof.
  unfold get_dispatcher, py_floordiv.
  destruct (Z.of_nat nb_buckets =? 0)%Z; simpl; [discriminate |].
  intros E. injection E as <-. auto.
Qed.

Lemma batched_head_weights_inversion (nb_buckets length_q length_k depth_q : nat)
    (q k : list (list (list R))) (gates_q gates_k : list (list (list Q)))
    (mask_right : bool) (w : list (list (list (list R))))
    (qd kd : TruncatingDispatcher) :
  dot_product_batched_head_weights nb_buckets length_q length_k depth_q
    q k gates_q gates_k mask_right = inr w ->
  get_dispatcher nb_buckets length_q gates_q = inr qd ->
  get_dispatcher nb_buckets length_k gates_k = inr kd ->
  w = batched_head_weights (dispatch qd depth_q q) (dispatch kd depth_q k)
        (batched_bias mask_right qd kd).
Proof.
  unfold dot_product_batched_head_weights. intros Hw Hq Hk.
  rewrite Hq, Hk in Hw. simpl in Hw. now injection Hw as <-.
Qed.

Lemma map4_as_map2_map3 {A B C D E F : Type} (h : A -> B -> D -> E)
    (g : E -> C -> F) (la : list A) (lb : list B) (lc : list C) (ld : list D) :
  map4 (fun a b c d => g (h a b d) c) la lb lc ld =
  map2 g (map3 h la lb ld) lc.
Proof.
  assert (Hnil : forall (X Y : Type) (l : list X), List.combine l (@nil Y) = [])
    by (intros X Y l; now destruct l).
  unfold map4, map3, map2. revert lb lc ld.
  induction la as [| a la IH]; intros lb lc ld; [reflexivity |].
  destruct lb as [| b lb]; [reflexivity |].
  destruct lc as [| c lc]; [rewrite !Hnil; reflexivity |].
  destruct ld as [| d ld]; [rewrite !Hnil; reflexivity |].
  simpl. f_equal. apply IH.
Qed.

Lemma map4_ext {A B C D E : Type} (f g : A -> B -> C -> D -> E)
    (la : list A) (lb : list B) (lc : list C) (ld : list D) :
  (forall a b c d, f a b c d = g a b c d) -> map4 f la lb lc ld = map4 g la lb lc ld.
Proof.
  intros H. unfold map4, map2. apply map_ext. intros p. apply H.
Qed.

(** The output of [dot_product_batched_head] is the combination of its
    weights with the dispatched values. *)
Lemma dot_product_batched_head_uses_weights
    (nb_buckets length_q length_k depth_q depth_v : nat)
    (q k v : list (list (list R))) (gates_q gates_k : list (list (list Q)))
    (mask_right : bool) (qd kd : TruncatingDispatcher)
    (w : list (list (list (list R)))) :
  get_dispatcher nb_buckets length_q gates_q = inr qd ->
  get_dispatcher nb_buckets length_k gates_k = inr kd ->
  dot_product_batched_head_weights nb_buckets length_q length_k depth_q
    q k gates_q gates_k mask_right = inr w ->
  dot_product_batched_head nb_buckets length_q length_k depth_q depth_v
    q k v gates_q gates_k mask_right =
  inr (combine qd depth_v
         (map2 (map2 (matmul_wv depth_v)) w (dispatch kd depth_v v))).
Proof.
  intros Hqd Hkd Hw.
  rewrite (batched_head_weights_inversion _ _ _ _ _ _ _ _ _ _ _ _ Hw Hqd Hkd).
  unfold dot_product_batched_head. rewrite Hqd, Hkd. simpl.
  f_equal. f_equal. unfold batched_attention, batched_head_weights.
  rewrite <- map4_as_map2_map3. apply map4_ext. intros qs ks vs bs.
  rewrite <- map4_as_map2_map3. reflexivity.
Qed.



Lemma firstn_vzero (n m : nat) : firstn n (vzero (n + m)) = vzero n.
Proof.
  unfold vzero. induction n as [| n IH]; simpl; [reflexivity | now rewrite IH].
Qed.

Lemma dispatch1_firstn (requests : list (list Q)) (num_experts capacity n m : nat)
    (x : list (list R)) :
  map (map (firstn n)) (dispatch1 requests num_experts capacity (n + m) x) =
  dispatch1 requests num_experts capacity n (map (firstn n) x).
Proof.
  unfold dispatch1. rewrite map_map. apply map_ext. intros e.
  rewrite map_map. apply map_ext. intros [t |]; simpl.
  - rewrite <- (firstn_vzero n m). symmetry. apply map_nth.
  - apply firstn_vzero.
Qed.

(** Splitting the dispatched keys and values is dispatching the keys. *)
Lemma dispatch_firstn (d : TruncatingDispatcher) (n m : nat)
    (kv : list (list (list R))) :
  map (map (map (firstn n))) (dispatch d (n + m) kv) =
  dispatch d n (map (map (firstn n)) kv).
Proof.
  unfold dispatch. revert kv. generalize (_requests d) as requests.
  induction requests as [| r requests IH]; intros kv; [reflexivity |].
  destruct kv as [| x kv]; [reflexivity |]. simpl.
  f_equal; [apply dispatch1_firstn | apply IH].
Qed.

Lemma map3_ext {A B C D : Type} (f g : A -> B -> C -> D)
    (la : list A) (lb : list B) (lc : list C) :
  (forall a b c, f a b c = g a b c) -> map3 f la lb lc = map3 g la lb lc.
Proof.
  intros H. unfold map3, map2. apply map_ext. intros p. apply H.
Qed.

Lemma grouped_attention_weights_batched (mask_right : bool)
    (qd md : TruncatingDispatcher) (depth_qk depth_v : nat)
    (q kv : list (list (list R))) :
  grouped_attention_weights mask_right qd md depth_qk depth_v q kv =
  batched_head_weights (dispatch qd depth_qk q)
    (dispatch md depth_qk (map (map (firstn depth_qk)) kv))
    (batched_bias mask_right qd md).
Proof.
  unfold grouped_attention_weights, batched_head_weights.
  rewrite dispatch_firstn. apply map3_ext. intros a b c.
  apply map3_ext. intros qb kb bb. apply grouped_weights_attention_weights.
Qed.

(** The bound for any two dispatchers: a masked key slot of a bucket against
    a visible real key of the same bucket. *)
Lemma masked_weight_bound_batched (mask_right : bool)
    (qd kd : TruncatingDispatcher) (depth : nat) (q k : list (list (list R)))
    (b e i j j' : nat) (sq sk : option nat) (tk' : nat) :
  (b < List.length (_requests qd))%nat -> (b < List.length q)%nat ->
  (b < List.length (_requests kd))%nat -> (b < List.length k)%nat ->
  (e < _num_experts qd)%nat -> (e < _num_experts kd)%nat ->
  nth_error (slots (nth b (_requests qd) []) (_expert_capacity qd) e) i = Some sq ->
  nth_error (slots (nth b (_requests kd) []) (_expert_capacity kd) e) j = Some sk ->
  nth_error (slots (nth b (_requests kd) []) (_expert_capacity kd) e) j' =
    Some (Some tk') ->
  sk = None \/
    (mask_right = true /\ (slot_coordinate sq < slot_coordinate sk)%nat) ->
  mask_right = false \/ (tk' <= slot_coordinate sq)%nat ->
  nth j (nth i (nth e (nth b
     (batched_head_weights (dispatch qd depth q) (dispatch kd depth k)
        (batched_bias mask_right qd kd)) []) []) []) 0 <=
  exp (rdot (slot_row depth (nth b q []) sq) (slot_row depth (nth b k []) sk) -
       rdot (slot_row depth (nth b q []) sq) (nth tk' (nth b k []) (vzero depth)) -
       1000000000).
Proof.
  intros Hq Hq' Hk Hk' Heq Hek Hsq Hsk Hsk' Hmasked Hvisible.
  rewrite nth_batched_head_weights by assumption.
  now apply (masked_weight_bound mask_right _ _ _ _ _ _ _ _ _ e Heq Hek i j j' sq sk tk').
Qed.

Lemma nth_map_firstn (n : nat) (kv : list (list (list R))) (b : nat) :
  nth b (map (map (firstn n)) kv) [] = map (firstn n) (nth b kv []).
Proof.
  change (@nil (list R)) with (map (firstn n) (@nil (list R))) at 1.
  apply map_nth.
Qed.

(** The first position, once a bucket asks for it, is in the first slot of
    the bucket as soon as the bucket has a slot. *)
Lemma first_slot_of_bucket (requests : list (list Q)) (capacity e j : nat)
    (s : option nat) :
  requested requests 0 e = true ->
  nth_error (slots requests capacity e) j = Some s ->
  nth_error (slots requests capacity e) 0 = Some (Some 0%nat).
Proof.
  intros Hreq Hj.
  pose proof (nth_error_slots_lt _ _ _ _ _ Hj) as Hcap.
  assert (Hlen : (0 < List.length requests)%nat).
  { destruct requests as [| r requests]; [| simpl; lia].
    unfold requested, request in Hreq. destruct e; discriminate. }
  destruct (FirstPositionFacts.first_slot_is_first_position requests capacity e)
    as (others & ->); [exact Hlen | lia | exact Hreq | reflexivity].
Qed.

Lemma get_dispatcher_capacity (nb_buckets length : nat)
    (gates : list (list (list Q))) (d : TruncatingDispatcher) :
  get_dispatcher nb_buckets length gates = inr d ->
  (_expert_capacity d <= length)%nat.
Proof.
  unfold get_dispatcher, py_floordiv.
  destruct (Z.of_nat nb_buckets =? 0)%Z; simpl; [discriminate |].
  intros E. injection E as <-. simpl. lia.
Qed.

(** Gates with the first position added ask every bucket for it. *)
Lemma added_first_position_requested (nb_buckets length : nat)
    (gates : list (list (list Q))) (b e : nat) :
  Forall (fun g => List.length g = length /\
                   Forall (fun row => List.length row = nb_buckets) g) gates ->
  (b < List.length gates)%nat -> (0 < length)%nat -> (e < nb_buckets)%nat ->
  requested (nth b (map add_first_position gates) []) 0 e = true.
Proof.
  intros Hshape Hb Hlen He.
  rewrite (nth_map_default _ _ _ []) by exact Hb.
  rewrite Forall_forall in Hshape.
  destruct (Hshape (nth b gates []) (nth_In _ _ Hb)) as [Hl Hrows].
  apply FirstPositionFacts.first_position_requested; [lia |].
  rewrite (FirstPositionFacts.first_row_length nb_buckets); [exact He | lia | exact Hrows].
Qed.

(** So do the memory requests of [grouped_attention_multihead]. *)
Lemma memory_first_position_requested (length_kv num_groups : nat)
    (m_pred : list (list (list Q))) (b e : nat) :
  Forall (fun m => List.length m = length_kv /\
                   Forall (fun row => List.length row = num_groups) m) m_pred ->
  (b < List.length m_pred)%nat -> (0 < length_kv)%nat -> (e < num_groups)%nat ->
  requested (nth b (map memory_requests m_pred) []) 0 e = true.
Proof.
  intros Hshape Hb Hlen He.
  rewrite (nth_map_default _ _ _ []) by exact Hb.
  rewrite Forall_forall in Hshape.
  destruct (Hshape (nth b m_pred []) (nth_In _ _ Hb)) as [Hl Hrows].
  unfold memory_requests.
  apply FirstPositionFacts.first_position_requested; [rewrite length_map; lia |].
  rewrite (FirstPositionFacts.first_row_length num_groups);
    [exact He | rewrite length_map; lia |].
  apply Forall_forall. intros row Hrow. apply in_map_iff in Hrow.
  destruct Hrow as (row' & <- & Hrow'). rewrite length_map.
  rewrite Forall_forall in Hrows. now apply Hrows.
Qed.

Lemma exp_nat (n : nat) : exp (INR n) = exp 1 ^ n.
Proof.
  induction n as [| n IH]; [simpl; apply exp_0 |].
  rewrite S_INR, exp_plus, IH. simpl. ring.
Qed.

Lemma pow_two_lt_exp (n : nat) : (0 < n)%nat -> 2 ^ n < exp 1 ^ n.
Proof.
  assert (H2 : 2 < exp 1).
  { pose proof (exp_ineq1 1 ltac:(lra)). lra. }
  induction n as [| n IH]; [lia |]. intros _.
  destruct n as [| n]; [simpl; lra |].
  specialize (IH ltac:(lia)).
  change (2 ^ S (S n)) with (2 * 2 ^ S n).
  change (exp 1 ^ S (S n)) with (exp 1 * exp 1 ^ S n).
  assert (Hp : 0 < 2 ^ S n) by (apply pow_lt; lra).
  apply Rmult_gt_0_lt_compat; lra.
Qed.

(** [exp(-150)] is less than [2^-150], half of the least positive number of
    float32. *)
Lemma exp_below_float32 (x : R) : x <= - 150 -> exp x < / 2 ^ 150.
Proof.
  intros Hx.
  apply Rle_lt_trans with (exp (- 150)); [now apply exp_monotone |].
  replace (- 150) with (- (150)) by lra. rewrite exp_Ropp.
  assert (Hpow : 2 ^ 150 < exp 150).
  { replace 150 with (INR 150) by (rewrite INR_IZR_INZ; reflexivity).
    rewrite exp_nat. apply pow_two_lt_exp. lia. }
  assert (Hp : 0 < 2 ^ 150) by (apply pow_lt; lra).
  apply Rinv_lt_contravar; [| exact Hpow].
  apply Rmult_lt_0_compat; [exact Hp | apply exp_pos].
Qed.

Lemma half_le_ratio (a s : R) : 0 < a -> 0 < s -> s <= 2 * a -> 1 / 2 <= a / s.
Proof.
  intros Ha Hs Hle. apply Rmult_le_reg_r with s; [exact Hs |].
  replace (a / s * s) with a by (field; lra). lra.
Qed.

(** One head with one hyperplane, the one [LshGating.__init__] builds from
    the stored vector [[1]]: positive tokens go to bucket 1. *)
Local Abbreviation one_hyperplane :=
  (Lsh.mk_LshGating 1 1 2 1 false (QOps.mk_matrix 1 1 [[1%Q]])
     (QOps.mk_matrix 2 1 [[(- (1))%Q]; [1%Q]])).

Lemma one_hyperplane_built : Lsh.built 1 1 one_hyperplane.
Proof. exists (QOps.mk_matrix 1 1 [[1%Q]]), false. reflexivity. Qed.

(** Two positive tokens share bucket 1.  The logit of the first query
    against the second key, [1e5 * 3e4 = 3e9], is [2e9] after the mask,
    against [1e5] for the first key: the later key takes more than half of
    the weight of the first query. *)
Lemma future_key_takes_over :
  exists w,
    sparse_weights [one_hyperplane] 1 1 2 1 2
      [[[[100000%Q]; [100000%Q]]]] [[[[1%Q]; [30000%Q]]]] true =
    inr ([[[0%Q; 1%Q]; [0%Q; 1%Q]]], [[[1%Q; 1%Q]; [0%Q; 1%Q]]], w) /\
    1 / 2 <= nth 1 (nth 0 (nth 1 (nth 0 w []) []) []) 0.
Proof.
  eexists. split; [reflexivity |].
  cbv -[exp Rplus Rmult Rminus Rdiv Rinv Ropp IZR INR Rlt Rle].
  match goal with
  | |- _ <= exp ?x / (exp ?y + _) =>
      assert (Hxy : y <= x) by lra;
      pose proof (exp_monotone y x Hxy); pose proof (exp_pos x);
      pose proof (exp_pos y)
  end.
  apply half_le_ratio; lra.
Qed.

(** In [grouped_attention_multihead] with its default hyperparameters: two
    positions, one group, both keys in it.  The same logits give the later
    key more than half of the weight of the first query. *)
Lemma future_key_takes_over_in_group :
  let d := grouped_dispatchers 2 2 1 2 (5 # 4) 8 [[[0%Q]; [0%Q]]] [[[1%Q]; [1%Q]]] in
  slots (nth 0 (_requests (fst d)) []) (_expert_capacity (fst d)) 0 =
    [Some 0%nat; Some 1%nat] /\
  slots (nth 0 (_requests (snd d)) []) (_expert_capacity (snd d)) 0 =
    [Some 0%nat; Some 1%nat] /\
  1 / 2 <=
  nth 1 (nth 0 (nth 0 (nth 0
    (grouped_attention_weights true (fst d) (snd d) 1 1
       [[[100000]; [100000]]] [[[1; 0]; [30000; 0]]]) []) []) []) 0.
Proof.
  cbv zeta. split; [reflexivity |]. split; [reflexivity |].
  rewrite grouped_attention_weights_batched.
  cbv -[exp Rplus Rmult Rminus Rdiv Rinv Ropp IZR INR Rlt Rle].
  match goal with
  | |- _ <= exp ?x / (exp ?y + _) =>
      assert (Hxy : y <= x) by lra;
      pose proof (exp_monotone y x Hxy); pose proof (exp_pos x);
      pose proof (exp_pos y)
  end.
  apply half_le_ratio; lra.
Qed.

(** Large logits defeat the mask on both paths. *)
Lemma causal_mask_counterexample :
  ~ no_weight_on_future_keys /\ ~ no_weight_on_future_keys_of_groups.
Proof.
  split.
  - intros H. destruct future_key_takes_over as (w & Hw & Hhalf).
    specialize (H [one_hyperplane] 1%nat 1%nat 2%nat 1%nat 1%nat _ _ _ _ w
                  (mk_TruncatingDispatcher [[[0%Q; 1%Q]; [0%Q; 1%Q]]] 2 2)
                  (mk_TruncatingDispatcher [[[1%Q; 1%Q]; [0%Q; 1%Q]]] 2 2)
                  0%nat 1%nat 0%nat 1%nat 0%nat 1%nat
                  (Forall_cons _ one_hyperplane_built (Forall_nil _)) Hw
                  eq_refl eq_refl eq_refl eq_refl (Nat.lt_0_1)).
    rewrite H in Hhalf. lra.
  - intros H. destruct future_key_takes_over_in_group as (Hq & Hk & Hhalf).
    specialize (H 2%nat 2%nat 1%nat 2%Q (5 # 4)%Q 8%Q
                  [[[0%Q]; [0%Q]]] [[[1%Q]; [1%Q]]] 1%nat 1%nat
                  [[[100000]; [100000]]] [[[1; 0]; [30000; 0]]]
                  0%nat 0%nat 0%nat 1%nat 0%nat 1%nat
                  eq_refl eq_refl (Nat.lt_0_1)).
    cbv zeta in Hhalf. rewrite H in Hhalf. lra.
Qed.

(** C3, amended. Under [mask_right], in [dot_product_batched_head] with the
    first position added to every key bucket and in
    [grouped_attention_multihead], the first slot of the bucket of a key holds
    the first position, which every query may see; and the weight a query
    gives to a key of its bucket whose original position is after its own is
    at most [exp(l - l' - 1e9)], where [l] is the unbiased logit of that key
    and [l'] the unbiased logit of any key of the bucket at a position not
    after the query's.  The weight is below [2^-150], half of the least
    positive number of float32, whenever [l - l' <= 1e9 - 150] for one of
    them. *)
Theorem future_keys_are_suppressed :
  (forall (nb_buckets length_q length_k depth_q : nat)
          (q k : list (list (list R))) (gates_q gates : list (list (list Q)))
          (w : list (list (list (list R))))
          (q_dispatcher k_dispatcher : TruncatingDispatcher)
          (b e i j tq tk : nat),
     Forall (fun g => List.length g = length_k /\
                      Forall (fun row => List.length row = nb_buckets) g) gates ->
     dot_product_batched_head_weights nb_buckets length_q length_k depth_q
       q k gates_q (map add_first_position gates) true = inr w ->
     get_dispatcher nb_buckets length_q gates_q = inr q_dispatcher ->
     get_dispatcher nb_buckets length_k (map add_first_position gates) =
       inr k_dispatcher ->
     (b < List.length gates_q)%nat -> (b < List.length q)%nat ->
     (b < List.length gates)%nat -> (b < List.length k)%nat ->
     (e < nb_buckets)%nat ->
     nth_error (slots (nth b gates_q []) (_expert_capacity q_dispatcher) e) i =
       Some (Some tq) ->
     nth_error (slots (nth b (map add_first_position gates) [])
                  (_expert_capacity k_dispatcher) e) j = Some (Some tk) ->
     (tq < tk)%nat ->
     let query := nth tq (nth b q []) (vzero depth_q) in
     let l := rdot query (nth tk (nth b k []) (vzero depth_q)) in
     let weight := nth j (nth i (nth e (nth b w []) []) []) 0 in
     nth_error (slots (nth b (map add_first_position gates) [])
                  (_expert_capacity k_dispatcher) e) 0 = Some (Some 0%nat) /\
     forall j' tk' : nat,
       nth_error (slots (nth b (map add_first_position gates) [])
                    (_expert_capacity k_dispatcher) e) j' = Some (Some tk') ->
       (tk' <= tq)%nat ->
       let l' := rdot query (nth tk' (nth b k []) (vzero depth_q)) in
       weight <= exp (l - l' - 1000000000) /\
       (l - l' <= 1000000000 - 150 -> weight < / 2 ^ 150)) /\
  (forall (length_q length_kv num_groups : nat) (density mult add : Q)
          (q_pred m_pred : list (list (list Q)))
          (depth_qk depth_v : nat) (q kv : list (list (list R)))
          (b e i j tq tk : nat),
     Forall (fun m => List.length m = length_kv /\
                      Forall (fun row => List.length row = num_groups) m)
            m_pred ->
     let d := grouped_dispatchers length_q length_kv num_groups density mult add
                q_pred m_pred in
     (b < List.length q_pred)%nat -> (b < List.length q)%nat ->
     (b < List.length m_pred)%nat -> (b < List.length kv)%nat ->
     (e < num_groups)%nat ->
     nth_error (slots (nth b (_requests (fst d)) []) (_expert_capacity (fst d)) e) i =
       Some (Some tq) ->
     nth_error (slots (nth b (_requests (snd d)) []) (_expert_capacity (snd d)) e) j =
       Some (Some tk) ->
     (tq < tk)%nat ->
     let query := nth tq (nth b q []) (vzero depth_qk) in
     let keys := map (firstn depth_qk) (nth b kv []) in
     let l := rdot query (nth tk keys (vzero depth_qk)) in
     let weight :=
       nth j (nth i (nth e (nth b
         (grouped_attention_weights true (fst d) (snd d) depth_qk depth_v q kv)
         []) []) []) 0 in
     nth_error (slots (nth b (_requests (snd d)) []) (_expert_capacity (snd d)) e) 0 =
       Some (Some 0%nat) /\
     forall j' tk' : nat,
       nth_error (slots (nth b (_requests (snd d)) [])
                    (_expert_capacity (snd d)) e) j' = Some (Some tk') ->
       (tk' <= tq)%nat ->
       let l' := rdot query (nth tk' keys (vzero depth_qk)) in
       weight <= exp (l - l' - 1000000000) /\
       (l - l' <= 1000000000 - 150 -> weight < / 2 ^ 150)).
Proof.
  split.
  - intros nb_buckets length_q length_k depth_q q k gates_q gates w qd kd
      b e i j tq tk Hshape Hw Hqd Hkd Hbq Hbq' Hbk Hbk' He Hsq Hsk Hlt
      query l weight.
    destruct (get_dispatcher_fields _ _ _ _ Hqd) as [Rq Eq].
    destruct (get_dispatcher_fields _ _ _ _ Hkd) as [Rk Ek].
    split.
    + pose proof (get_dispatcher_capacity _ _ _ _ Hkd) as Hcap.
      pose proof (nth_error_slots_lt _ _ _ _ _ Hsk) as Hj.
      refine (first_slot_of_bucket _ _ _ _ _ _ Hsk).
      apply (added_first_position_requested nb_buckets length_k); auto. lia.
    + intros j' tk' Hsk' Hle l'.
      assert (Hbound : weight <= exp (l - l' - 1000000000)).
      { subst weight l l' query.
        rewrite (batched_head_weights_inversion _ _ _ _ _ _ _ _ _ _ _ _ Hw Hqd Hkd).
        apply (masked_weight_bound_batched true qd kd depth_q q k b e i j j'
                 (Some tq) (Some tk) tk');
          rewrite ?Rq, ?Rk, ?Eq, ?Ek, ?length_map; auto. }
      split; [exact Hbound |]. intros Hgap.
      eapply Rle_lt_trans; [exact Hbound |]. apply exp_below_float32. lra.
  - intros length_q length_kv num_groups density mult add q_pred m_pred
      depth_qk depth_v q kv b e i j tq tk Hshape d Hbq Hbq' Hbk Hbk' He
      Hsq Hsk Hlt query keys l weight.
    split.
    + pose proof (FirstPositionFacts.memory_capacity_le_length length_q length_kv
                    num_groups density mult add q_pred m_pred) as Hcap.
      fold d in Hcap.
      pose proof (nth_error_slots_lt _ _ _ _ _ Hsk) as Hj.
      refine (first_slot_of_bucket _ _ _ _ _ _ Hsk).
      subst d. simpl.
      apply (memory_first_position_requested length_kv num_groups); auto.
      simpl in Hcap, Hj. lia.
    + intros j' tk' Hsk' Hle l'.
      assert (Hbound : weight <= exp (l - l' - 1000000000)).
      { subst weight l l' query keys.
        rewrite grouped_attention_weights_batched.
        rewrite <- !nth_map_firstn.
        apply (masked_weight_bound_batched true (fst d) (snd d) depth_qk q
                 (map (map (firstn depth_qk)) kv) b e i j j'
                 (Some tq) (Some tk) tk');
          auto; try (subst d; simpl; rewrite ?length_map; assumption). }
      split; [exact Hbound |]. intros Hgap.
      eapply Rle_lt_trans; [exact Hbound |]. apply exp_below_float32. lra.
Qed.

(** Two tokens with ordinary logits in one bucket: the first query sees the
    first key, and the second key is held below [2^-150]. *)
Lemma future_key_in_one_bucket :
  exists w,
    dot_product_batched_head_weights 2 2 2 1
      [[[1]; [1]]] [[[1]; [3]]] [[[0%Q; 1%Q]; [0%Q; 1%Q]]]
      (map add_first_position [[[0%Q; 1%Q]; [0%Q; 1%Q]]]) true = inr w /\
    nth 1 (nth 0 (nth 1 (nth 0 w []) []) []) 0 <=
      exp (rdot [1] [3] - rdot [1] [1] - 1000000000) /\
    nth 1 (nth 0 (nth 1 (nth 0 w []) []) []) 0 < / 2 ^ 150.
Proof.
  eexists. split; [reflexivity |].
  assert (Hshape : Forall (fun g : list (list Q) =>
                             List.length g = 2%nat /\
                             Forall (fun row => List.length row = 2%nat) g)
                     [[[0%Q; 1%Q]; [0%Q; 1%Q]]]).
  { repeat constructor. }
  destruct (proj1 future_keys_are_suppressed 2%nat 2%nat 2%nat 1%nat
              [[[1]; [1]]] [[[1]; [3]]] [[[0%Q; 1%Q]; [0%Q; 1%Q]]]
              [[[0%Q; 1%Q]; [0%Q; 1%Q]]] _
              (mk_TruncatingDispatcher [[[0%Q; 1%Q]; [0%Q; 1%Q]]] 2 2)
              (mk_TruncatingDispatcher
                 (map add_first_position [[[0%Q; 1%Q]; [0%Q; 1%Q]]]) 2 2)
              0%nat 1%nat 0%nat 1%nat 0%nat 1%nat Hshape eq_refl eq_refl eq_refl
              ltac:(simpl; lia) ltac:(simpl; lia) ltac:(simpl; lia)
              ltac:(simpl; lia) ltac:(lia) eq_refl eq_refl ltac:(lia))
    as [Hfirst Hall].
  destruct (Hall 0%nat 0%nat Hfirst ltac:(lia)) as [Hbound Htiny].
  split; [exact Hbound |]. apply Htiny. unfold rdot. simpl. lra.
Defined.






End KernelFacts.

(** ** The expert attention path *)

Module ExpertFacts.

Import Tensor Expert.

Lemma bind_raises {A B : Type} (c : py A) (f : A -> py B) :
  raises c -> raises (bind c f).
Proof. destruct c; simpl; [trivial | contradiction]. Qed.

Lemma bind_raises_later {A B : Type} (c : py A) (f : A -> py B) :
  (forall a, raises (f a)) -> raises (bind c f).
Proof. intros H. destruct c; simpl; [trivial | apply H]. Qed.

(** The nested [to_float] never returns: it squeezes axis 1 until that
    fails, or until the interpreter gives up. *)
Lemma nested_to_float_raises (depth : nat) (bc : tensor) :
  raises (nested_to_float depth bc).
Proof.
  revert bc. induction depth as [| depth IH]; intros bc; simpl; [trivial |].
  apply bind_raises_later. intros bc1. apply bind_raises. apply IH.
Qed.

Lemma attention_bias_batch_raises (limit : nat) (f : R -> R)
    (bq : tensor) (bk : option tensor) :
  raises (attention_bias_batch limit f bq bk).
Proof.
  unfold attention_bias_batch. apply bind_raises. apply nested_to_float_raises.
Qed.

Section Always.

Variable recursion_limit : nat.
Variable mode : exec_mode.
Variable dot_product_attention : tensor -> tensor -> tensor -> tensor -> py tensor.
Variable mask_and_call : tensor -> tensor -> tensor -> py tensor.

(** Whatever its arguments, [expert_dot_product] raises: the bias is built
    before the [tf.cond] that guards the empty case. *)
Lemma expert_dot_product_always_raises (q k v : tensor) (info_q info_k : BatchInfo) :
  raises (expert_dot_product recursion_limit mode dot_product_attention
            q k v info_q info_k).
Proof.
  unfold expert_dot_product.
  do 3 (apply bind_raises_later; intros ?).
  apply bind_raises. apply attention_bias_batch_raises.
Qed.

End Always.

(** In graph mode [self_attention_expert] raises as well, while the branch
    for non-empty batches is built. *)
Lemma self_attention_expert_graph_raises (limit count : nat)
    (mask_and_call : tensor -> tensor -> tensor -> py tensor)
    (x batch_coordinate : tensor) :
  raises (self_attention_expert limit Graph mask_and_call count x batch_coordinate).
Proof.
  unfold self_attention_expert.
  do 2 (apply bind_raises_later; intros ?).
  apply bind_raises. unfold tf_cond, attention_bias_coordinates. simpl.
  pose proof (attention_bias_batch_raises limit (fun bias => Rmin 1 (Rabs bias))
                batch_coordinate None) as H.
  destruct (attention_bias_batch limit _ batch_coordinate None);
    [trivial | contradiction].
Qed.

(** Run eagerly, [self_attention_expert] does short-circuit on an empty
    batch, without calling the general branch. *)
Lemma self_attention_expert_eager_empty (limit count depth : nat)
    (mask_and_call : tensor -> tensor -> tensor -> py tensor)
    (x batch_coordinate : tensor) :
  last_dim x = inr depth ->
  dim batch_coordinate 0 = inr 0%nat ->
  self_attention_expert limit Eager mask_and_call count x batch_coordinate =
  inr (zeros [0%nat; depth], S count).
Proof.
  intros Hx Hb. unfold self_attention_expert. rewrite Hx, Hb. reflexivity.
Qed.

(** C6. On empty queries, keys and values [expert_dot_product] raises the
    error of the second [tf.squeeze] of the nested [to_float] instead of
    returning zeros of shape [[0, 3]]; the mode of execution and the kernel
    make no difference. *)
Theorem expert_dot_product_empty_input_raises :
  forall (mode : exec_mode)
         (dot_product_attention : tensor -> tensor -> tensor -> tensor -> py tensor),
    expert_dot_product 1000 mode dot_product_attention
      (zeros [0; 2]%nat) (zeros [0; 2]%nat) (zeros [0; 3]%nat)
      (mk_BatchInfo (zeros [0; 1]%nat) None)
      (mk_BatchInfo (zeros [0; 1]%nat) None)
    = inl (ValueError "Can not squeeze dim").
Proof. intros mode kernel. reflexivity. Qed.

End ExpertFacts.

(** ** Padding masks and attention biases *)

Module MaskFacts.

Import Masks Dtype Zip.
Local Open Scope Q_scope.

(** Whether an embedding vector is all zero. *)
Lemma qsum_abs_nonneg (e : list Q) : 0 <= Sparse.qsum (map Qabs e).
Proof.
  induction e as [| x e IH]; simpl; [apply Qle_refl |].
  pose proof (Qabs_nonneg x) as Hx.
  apply (Qle_trans _ (0 + 0)); [now rewrite Qplus_0_l; apply Qle_refl |].
  now apply Qplus_le_compat.
Qed.

Lemma Qabs_zero_iff (x : Q) : Qabs x == 0 <-> x == 0.
Proof.
  split; intros H.
  - pose proof (Qle_Qabs x) as H1. pose proof (Qle_Qabs (- x)) as H2.
    rewrite Qabs_opp in H2. rewrite H in H1, H2.
    apply Qle_antisym; [exact H1 |].
    apply Qopp_le_compat in H2. rewrite Qopp_involutive in H2. exact H2.
  - rewrite H. reflexivity.
Qed.

Lemma qsum_abs_zero (e : list Q) :
  Qeq_bool (Sparse.qsum (map Qabs e)) 0 = forallb (fun x => Qeq_bool x 0) e.
Proof.
  induction e as [| x e IH]; [reflexivity |].
  simpl. rewrite <- IH.
  pose proof (Qabs_nonneg x) as Hx. pose proof (qsum_abs_nonneg e) as He.
  destruct (Qeq_bool x 0) eqn:Ex; simpl.
  - apply Qeq_bool_iff in Ex. apply Qabs_zero_iff in Ex.
    destruct (Qeq_bool (Sparse.qsum (map Qabs e)) 0) eqn:Ee.
    + apply Qeq_bool_iff in Ee. apply Qeq_bool_iff. rewrite Ex, Ee. reflexivity.
    + apply not_true_iff_false. intros H. apply Qeq_bool_iff in H.
      apply not_true_iff_false in Ee. apply Ee. apply Qeq_bool_iff.
      rewrite Ex, Qplus_0_l in H. exact H.
  - apply not_true_iff_false. intros H. apply Qeq_bool_iff in H.
    apply not_true_iff_false in Ex. apply Ex. apply Qeq_bool_iff.
    apply Qabs_zero_iff. apply Qle_antisym; [| exact Hx].
    rewrite <- H. rewrite <- (Qplus_0_r (Qabs x)) at 1.
    apply Qplus_le_compat; [apply Qle_refl | exact He].
Qed.

Lemma embedding_to_padding_indicator (emb : list (list (list Q))) :
  embedding_to_padding emb =
  map (map (fun e => bool_to_float (forallb (fun x => Qeq_bool x 0) e))) emb.
Proof.
  unfold embedding_to_padding.
  rewrite map_map. apply map_ext. intros s.
  rewrite map_map. apply map_ext. intros e.
  rewrite qsum_abs_zero. reflexivity.
Qed.

Lemma forallb_Qeq_zero (e : list Q) :
  forallb (fun x => Qeq_bool x 0) e = true <-> Forall (fun x => x == 0) e.
Proof.
  rewrite forallb_forall, Forall_forall.
  split; intros H x Hx; apply Qeq_bool_iff; now apply H.
Qed.

(** X1. [embedding_to_padding] marks with 1 exactly the positions whose
    embedding vector has only zero entries, and with 0 every other one. *)
Theorem embedding_to_padding_marks_zero_vectors :
  forall (emb : list (list (list Q))) (b t : nat) (e : list Q),
    nth_error (nth b emb []) t = Some e ->
    (Forall (fun x => x == 0) e ->
     nth_error (nth b (embedding_to_padding emb) []) t = Some 1) /\
    (~ Forall (fun x => x == 0) e ->
     nth_error (nth b (embedding_to_padding emb) []) t = Some 0).
Proof.
  intros emb b t e He.
  rewrite embedding_to_padding_indicator.
  change (@nil Q) with
    (map (fun e => bool_to_float (forallb (fun x => Qeq_bool x 0) e)) []).
  rewrite map_nth, nth_error_map, He. simpl.
  split; intros H.
  - apply forallb_Qeq_zero in H. now rewrite H.
  - destruct (forallb (fun x => Qeq_bool x 0) e) eqn:E; [| reflexivity].
    apply forallb_Qeq_zero in E. contradiction.
Qed.

Lemma embedding_to_padding_two_positions :
  nth_error (nth 0 (embedding_to_padding [[[0; 0]; [0; 3 # 2]]]) []) 0 = Some 1 /\
  nth_error (nth 0 (embedding_to_padding [[[0; 0]; [0; 3 # 2]]]) []) 1 = Some 0.
Proof.
  split.
  - apply (embedding_to_padding_marks_zero_vectors
             [[[0; 0]; [0; 3 # 2]]] 0 0 [0; 0]); [reflexivity |].
    repeat constructor.
  - apply (embedding_to_padding_marks_zero_vectors
             [[[0; 0]; [0; 3 # 2]]] 0 1 [0; 3 # 2]); [reflexivity |].
    intros H. inversion H as [| ? ? _ H']. inversion H' as [| ? ? Hne _].
    discriminate Hne.
Defined.

Lemma qsum_non_padding (s : list (list Q)) :
  Sparse.qsum
    (map (fun p => 1 - p)
       (map (fun e => bool_to_float (forallb (fun x => Qeq_bool x 0) e)) s)) ==
  inject_Z (Z.of_nat
    (List.length (filter (fun e => negb (forallb (fun x => Qeq_bool x 0) e)) s))).
Proof.
  induction s as [| e s IH]; [reflexivity |].
  cbn [map Sparse.qsum fold_right filter].
  change (fold_right Qplus 0) with Sparse.qsum. rewrite IH.
  destruct (forallb (fun x => Qeq_bool x 0) e); cbn [negb bool_to_float List.length].
  - change (1 - 1) with 0. apply Qplus_0_l.
  - rewrite Nat2Z.inj_succ, <- Z.add_1_l, inject_Z_plus. reflexivity.
Qed.

(** X2. The length [padding_to_length] computes from the padding mask of an
    embedded batch is, for every sequence, the number of positions whose
    embedding vector is not all zero. *)
Theorem padding_to_length_counts_nonzero_embeddings :
  forall emb : list (list (list Q)),
    padding_to_length (embedding_to_padding emb) =
    map (fun s =>
           Z.of_nat (List.length
             (filter (fun e => negb (forallb (fun x => Qeq_bool x 0) e)) s)))
        emb.
Proof.
  intros emb. rewrite embedding_to_padding_indicator.
  unfold padding_to_length. rewrite !map_map. apply map_ext. intros s.
  apply ShapeFacts.truncate_integer. apply qsum_non_padding.
Qed.

Lemma squeeze_1_2_singletons {A : Type} (x : list (list A)) :
  squeeze_1_2 (map (fun r => [[r]]) x) = inr x.
Proof.
  unfold squeeze_1_2. induction x as [| r x IH]; [reflexivity |].
  cbn [map py_map]. rewrite IH. reflexivity.
Qed.

Lemma padding_entry_round_trip (tensor_type : dtype) (p : Q) :
  p = 0 \/ p = 1 ->
  bool_to_float (QOps.Qlt_bool (p * large_compatible_negative tensor_type) (- (1))) = p.
Proof.
  intros [-> | ->]; destruct tensor_type; reflexivity.
Qed.

(** X3. [attention_bias_to_padding] undoes [attention_bias_ignore_padding]:
    for a padding mask of zeros and ones, of any dtype, converting it to an
    attention bias and back gives the mask again. *)
Theorem attention_bias_to_padding_inverts_ignore_padding :
  forall (tensor_type : dtype) (memory_padding : list (list Q)),
    Forall (Forall (fun p => p = 0 \/ p = 1)) memory_padding ->
    attention_bias_to_padding
      (attention_bias_ignore_padding tensor_type memory_padding) bool_to_float
    = inr memory_padding.
Proof.
  intros tensor_type memory_padding H.
  unfold attention_bias_to_padding, attention_bias_ignore_padding.
  rewrite !map_map. cbn [map].
  rewrite <- (squeeze_1_2_singletons memory_padding). f_equal.
  apply map_ext_in. intros r Hr. do 2 f_equal.
  rewrite Forall_forall in H. specialize (H r Hr).
  rewrite map_map. rewrite <- (map_id r) at 2.
  apply map_ext_in. intros p Hp. rewrite Forall_forall in H.
  apply padding_entry_round_trip. now apply H.
Qed.

Lemma padding_round_trip_float16 :
  attention_bias_to_padding
    (attention_bias_ignore_padding float16 [[0; 0; 1]; [0; 1; 1]]) bool_to_float
  = inr [[0; 0; 1]; [0; 1; 1]].
Proof.
  apply (attention_bias_to_padding_inverts_ignore_padding
           float16 [[0; 0; 1]; [0; 1; 1]]).
  repeat (apply Forall_cons || apply Forall_nil); (now left) || (now right).
Defined.

Lemma cumsum_exclusive_from_Qeq (l l' : list Q) :
  Forall2 Qeq l l' -> forall acc acc' : Q, acc == acc' ->
  Forall2 Qeq (cumsum_exclusive_from acc l) (cumsum_exclusive_from acc' l').
Proof.
  induction 1 as [| x x' l l' Hx _ IH]; intros acc acc' Hacc; [constructor |].
  cbn [cumsum_exclusive_from]. constructor; [exact Hacc |].
  apply IH. now rewrite Hacc, Hx.
Qed.

Lemma cumsum_from_Qeq (l l' : list Q) :
  Forall2 Qeq l l' -> forall acc acc' : Q, acc == acc' ->
  Forall2 Qeq (cumsum_from acc l) (cumsum_from acc' l').
Proof.
  induction 1 as [| x x' l l' Hx _ IH]; intros acc acc' Hacc; [constructor |].
  cbn [cumsum_from]. constructor; [now rewrite Hacc, Hx |].
  apply IH. now rewrite Hacc, Hx.
Qed.

Lemma Forall2_Qeq_refl (l : list Q) : Forall2 Qeq l l.
Proof. induction l; constructor; [reflexivity | assumption]. Qed.

Lemma Forall2_Qeq_trans (l1 l2 l3 : list Q) :
  Forall2 Qeq l1 l2 -> Forall2 Qeq l2 l3 -> Forall2 Qeq l1 l3.
Proof.
  intros H. revert l3. induction H as [| x y l1 l2 Hxy _ IH]; intros l3 H23.
  - inversion H23. constructor.
  - inversion H23 as [| ? z ? l3' Hyz H' ]; subst. constructor.
    + now rewrite Hxy.
    + now apply IH.
Qed.

Lemma Forall2_Qeq_nth (l l' : list Q) (i : nat) :
  Forall2 Qeq l l' -> nth i l 0 == nth i l' 0.
Proof.
  intros H. revert i. induction H as [| x y l l' Hxy _ IH]; intros [| i];
    cbn [nth]; try reflexivity; [exact Hxy | apply IH].
Qed.

Lemma Forall2_Qeq_length (l l' : list Q) :
  Forall2 Qeq l l' -> List.length l = List.length l'.
Proof. induction 1; cbn [List.length]; congruence. Qed.

Lemma cumsum_exclusive_from_repeat_zero (k : nat) (tail : list Q) (acc : Q) :
  Forall2 Qeq (cumsum_exclusive_from acc (repeat 0 k ++ tail))
              (repeat acc k ++ cumsum_exclusive_from acc tail).
Proof.
  revert acc. induction k as [| k IH]; intros acc; cbn [repeat app].
  - apply Forall2_Qeq_refl.
  - cbn [cumsum_exclusive_from]. constructor; [reflexivity |].
    eapply Forall2_Qeq_trans; [apply IH |].
    apply Forall2_app.
    + clear. induction k; cbn [repeat]; constructor;
        [apply Qplus_0_r | assumption].
    + apply cumsum_exclusive_from_Qeq;
        [apply Forall2_Qeq_refl | apply Qplus_0_r].
Qed.

Lemma in_target_of_separator (s n : nat) :
  Forall2 Qeq (cumsum_exclusive (repeat 0 s ++ 1 :: repeat 0 n))
              (repeat 0 (S s) ++ repeat 1 n).
Proof.
  unfold cumsum_exclusive.
  eapply Forall2_Qeq_trans; [apply cumsum_exclusive_from_repeat_zero |].
  replace (repeat 0 (S s) ++ repeat 1 n) with (repeat 0 s ++ 0 :: repeat 1 n).
  2: { change (0 :: repeat 1 n) with ([0] ++ repeat 1 n).
       rewrite app_assoc. f_equal.
       change [0] with (repeat 0 1). rewrite <- repeat_app.
       f_equal. lia. }
  apply Forall2_app; [apply Forall2_Qeq_refl |].
  cbn [cumsum_exclusive_from]. constructor; [reflexivity |].
  pose proof (cumsum_exclusive_from_repeat_zero n [] (0 + 1)) as H.
  cbn [cumsum_exclusive_from] in H. rewrite !app_nil_r in H.
  eapply Forall2_Qeq_trans; [exact H |].
  clear. induction n; cbn [repeat]; constructor; [reflexivity | assumption].
Qed.

Lemma cumsum_from_repeat_zero (k : nat) (tail : list Q) (acc : Q) :
  Forall2 Qeq (cumsum_from acc (repeat 0 k ++ tail))
              (repeat acc k ++ cumsum_from acc tail).
Proof.
  revert acc. induction k as [| k IH]; intros acc; cbn [repeat app].
  - apply Forall2_Qeq_refl.
  - cbn [cumsum_from]. constructor; [apply Qplus_0_r |].
    eapply Forall2_Qeq_trans; [apply IH |].
    apply Forall2_app.
    + clear. induction k; cbn [repeat]; constructor;
        [apply Qplus_0_r | assumption].
    + apply cumsum_from_Qeq; [apply Forall2_Qeq_refl | apply Qplus_0_r].
Qed.

Lemma cumsum_from_repeat_one (n k : nat) (acc : Q) :
  acc == inject_Z (Z.of_nat k) ->
  Forall2 Qeq (cumsum_from acc (repeat 1 n))
              (map (fun m => inject_Z (Z.of_nat (S m))) (seq k n)).
Proof.
  revert k acc. induction n as [| n IH]; intros k acc Hacc; [constructor |].
  assert (acc + 1 == inject_Z (Z.of_nat (S k))) as Hnext.
  { rewrite Hacc, Nat2Z.inj_succ, <- Z.add_1_r, inject_Z_plus. reflexivity. }
  cbn [repeat cumsum_from seq map]. constructor; [exact Hnext |].
  now apply IH.
Qed.

(** The position within the target of every position of a row whose only
    one is at [s]. *)
Lemma target_pos_of_separator (s n i : nat) :
  (i < S s + n)%nat ->
  nth i (cumsum (cumsum_exclusive (repeat 0 s ++ 1 :: repeat 0 n))) 0 ==
  inject_Z (Z.of_nat (i - s)).
Proof.
  intros Hi.
  assert (Forall2 Qeq
            (cumsum (cumsum_exclusive (repeat 0 s ++ 1 :: repeat 0 n)))
            (repeat 0 (S s) ++
             map (fun m => inject_Z (Z.of_nat (S m))) (seq 0 n))) as H.
  { unfold cumsum.
    eapply Forall2_Qeq_trans.
    - apply cumsum_from_Qeq; [apply in_target_of_separator | reflexivity].
    - eapply Forall2_Qeq_trans; [apply cumsum_from_repeat_zero |].
      apply Forall2_app; [apply Forall2_Qeq_refl |].
      apply (cumsum_from_repeat_one n 0). reflexivity. }
  rewrite (Forall2_Qeq_nth _ _ i H).
  destruct (Nat.lt_ge_cases i (S s)) as [Hlt | Hge].
  - rewrite app_nth1 by now rewrite repeat_length.
    rewrite nth_repeat. replace (i - s)%nat with 0%nat by lia. reflexivity.
  - rewrite app_nth2 by now rewrite repeat_length.
    rewrite repeat_length.
    rewrite (nth_indep _ 0 (inject_Z (Z.of_nat (S 0))))
      by (rewrite length_map, length_seq; lia).
    rewrite (map_nth (fun m => inject_Z (Z.of_nat (S m)))).
    rewrite seq_nth by lia. replace (S (0 + (i - S s))) with (i - s)%nat by lia.
    reflexivity.
Qed.

Lemma cumsum_from_length (l : list Q) (acc : Q) :
  List.length (cumsum_from acc l) = List.length l.
Proof.
  revert acc. induction l; intros acc; cbn [cumsum_from List.length];
    [reflexivity | now rewrite IHl].
Qed.

Lemma cumsum_exclusive_from_length (l : list Q) (acc : Q) :
  List.length (cumsum_exclusive_from acc l) = List.length l.
Proof.
  revert acc. induction l; intros acc; cbn [cumsum_exclusive_from List.length];
    [reflexivity | now rewrite IHl].
Qed.

Lemma Qlt_bool_inject_Z (a b : Z) :
  QOps.Qlt_bool (inject_Z a) (inject_Z b) = (a <? b)%Z.
Proof.
  unfold QOps.Qlt_bool, Qle_bool. cbn. rewrite !Z.mul_1_r.
  rewrite Z.ltb_antisym. reflexivity.
Qed.

Lemma Qlt_bool_Qeq (a a' b b' : Q) :
  a == a' -> b == b' -> QOps.Qlt_bool a b = QOps.Qlt_bool a' b'.
Proof.
  intros Ha Hb. unfold QOps.Qlt_bool. f_equal.
  destruct (Qle_bool b a) eqn:E, (Qle_bool b' a') eqn:E'; try reflexivity.
  - apply Qle_bool_iff in E. rewrite Ha, Hb in E. apply Qle_bool_iff in E.
    congruence.
  - apply Qle_bool_iff in E'. rewrite <- Ha, <- Hb in E'.
    apply Qle_bool_iff in E'. congruence.
Qed.

(** X4. [attention_bias_prepend_inputs_full_attention] on a row whose single
    padding position [s] separates the inputs from the targets: every
    position sees all of the inputs and the separator, a target position sees
    the targets up to itself, and every other connection gets [-1e9]. *)
Theorem prepend_inputs_full_attention_visibility :
  forall (padding : list (list Q)) (b s n i j : nat),
    nth_error padding b = Some (repeat 0 s ++ 1 :: repeat 0 n) ->
    (i < S s + n)%nat -> (j < S s + n)%nat ->
    nth j (nth i (nth 0 (nth b
      (attention_bias_prepend_inputs_full_attention padding) []) []) []) 0 =
    if (j <=? Nat.max i s)%nat then 0 else - (1000000000 # 1).
Proof.
  intros padding b s n i j Hb Hi Hj.
  unfold attention_bias_prepend_inputs_full_attention.
  rewrite !map_map.
  set (row := repeat 0 s ++ 1 :: repeat 0 n) in *.
  set (f := fun x : list Q => _).
  pose proof (map_nth_error f b padding Hb) as Hrow.
  apply (nth_error_nth _ _ []) in Hrow. rewrite Hrow. subst f. cbn [nth].
  set (tp := cumsum (cumsum_exclusive row)).
  assert (List.length tp = (S s + n)%nat) as Hlen.
  { subst tp row. unfold cumsum, cumsum_exclusive.
    rewrite cumsum_from_length, cumsum_exclusive_from_length.
    rewrite length_app, repeat_length. cbn [List.length].
    rewrite repeat_length. lia. }
  rewrite (KernelFacts.nth_map_default _ _ _ [])
    by (rewrite length_map; lia).
  rewrite (KernelFacts.nth_map_default _ _ _ false)
    by (rewrite (KernelFacts.nth_map_default _ _ _ 0), length_map by lia; lia).
  rewrite (KernelFacts.nth_map_default _ _ _ 0) by lia.
  rewrite (KernelFacts.nth_map_default _ _ _ 0) by lia.
  subst tp row.
  rewrite (Qlt_bool_Qeq _ _ _ _ (target_pos_of_separator s n i Hi)
                                (target_pos_of_separator s n j Hj)).
  rewrite Qlt_bool_inject_Z.
  destruct (j <=? Nat.max i s)%nat eqn:E.
  - apply Nat.leb_le in E.
    replace (Z.of_nat (i - s) <? Z.of_nat (j - s))%Z with false; [reflexivity |].
    symmetry. apply Z.ltb_ge. lia.
  - apply Nat.leb_gt in E.
    replace (Z.of_nat (i - s) <? Z.of_nat (j - s))%Z with true; [reflexivity |].
    symmetry. apply Z.ltb_lt. lia.
Qed.

Lemma prepend_inputs_two_inputs_two_targets :
  nth 3 (nth 2 (nth 0 (nth 0
    (attention_bias_prepend_inputs_full_attention [[0; 0; 1; 0; 0]]) []) []) []) 0 =
  - (1000000000 # 1) /\
  nth 1 (nth 0 (nth 0 (nth 0
    (attention_bias_prepend_inputs_full_attention [[0; 0; 1; 0; 0]]) []) []) []) 0 =
  0.
Proof.
  split.
  - apply (prepend_inputs_full_attention_visibility [[0; 0; 1; 0; 0]] 0 2 2 2 3);
      [reflexivity | lia | lia].
  - apply (prepend_inputs_full_attention_visibility [[0; 0; 1; 0; 0]] 0 2 2 0 1);
      [reflexivity | lia | lia].
Defined.

Lemma nth_attention_bias_proximal (length i j : nat) :
  (i < length)%nat -> (j < length)%nat ->
  nth j (nth i (nth 0 (nth 0 (attention_bias_proximal length) []) []) []) 0%R =
  (- ln (1 + Rabs (INR j - INR i)))%R.
Proof.
  intros Hi Hj. unfold attention_bias_proximal. cbn [nth].
  rewrite map_map.
  rewrite (KernelFacts.nth_map_default _ _ _ 0%R)
    by (now rewrite length_map, length_seq).
  rewrite map_map.
  rewrite (KernelFacts.nth_map_default _ _ _ 0%R)
    by (now rewrite length_map, length_seq).
  rewrite !(KernelFacts.nth_map_default _ _ _ 0%nat) by (now rewrite length_seq).
  rewrite !seq_nth by assumption. reflexivity.
Qed.

Lemma Rabs_INR_difference (i j : nat) :
  Rabs (INR j - INR i) = INR (Nat.max (i - j) (j - i)).
Proof.
  destruct (Nat.le_ge_cases i j) as [H | H].
  - replace (Nat.max (i - j) (j - i)) with (j - i)%nat by lia.
    rewrite minus_INR by exact H. apply Rabs_right.
    apply le_INR in H. lra.
  - replace (Nat.max (i - j) (j - i)) with (i - j)%nat by lia.
    rewrite minus_INR by exact H. rewrite Rabs_left1; [lra |].
    apply le_INR in H. lra.
Qed.

(** X5. [attention_bias_proximal] gives a position no penalty on itself, the
    same penalty in both directions, never a bonus, and a strictly larger
    penalty to a position that is farther away. *)
Theorem attention_bias_proximal_favours_close_positions :
  forall (length i j : nat),
    (i < length)%nat -> (j < length)%nat ->
    let bias := fun a b : nat =>
      nth b (nth a (nth 0 (nth 0 (attention_bias_proximal length) []) []) []) 0%R in
    bias i i = 0%R /\
    bias i j = bias j i /\
    (bias i j <= 0)%R /\
    (forall j' : nat, (j' < length)%nat ->
       (Nat.max (i - j) (j - i) < Nat.max (i - j') (j' - i))%nat ->
       (bias i j' < bias i j)%R).
Proof.
  intros length i j Hi Hj bias. subst bias. cbn beta.
  rewrite !nth_attention_bias_proximal by assumption.
  rewrite !Rabs_INR_difference.
  split; [| split; [| split]].
  - rewrite Nat.sub_diag. cbn [Nat.max INR].
    rewrite Rplus_0_r, ln_1. lra.
  - now rewrite Nat.max_comm.
  - pose proof (pos_INR (Nat.max (i - j) (j - i))) as Hd.
    destruct (Req_dec (INR (Nat.max (i - j) (j - i))) 0) as [-> | Hne].
    + rewrite Rplus_0_r, ln_1. lra.
    + assert (ln 1 < ln (1 + INR (Nat.max (i - j) (j - i))))%R
        by (apply ln_increasing; lra).
      rewrite ln_1 in H. lra.
  - intros j' Hj' Hfar.
    rewrite nth_attention_bias_proximal by assumption.
    rewrite Rabs_INR_difference.
    pose proof (pos_INR (Nat.max (i - j) (j - i))) as Hd.
    apply lt_INR in Hfar.
    assert (ln (1 + INR (Nat.max (i - j) (j - i))) <
            ln (1 + INR (Nat.max (i - j') (j' - i))))%R
      by (apply ln_increasing; lra).
    lra.
Qed.

Lemma attention_bias_proximal_four_positions :
  let bias := fun a b : nat =>
    nth b (nth a (nth 0 (nth 0 (attention_bias_proximal 4) []) []) []) 0%R in
  bias 1%nat 1%nat = 0%R /\
  bias 1%nat 2%nat = bias 2%nat 1%nat /\
  (bias 1%nat 2%nat <= 0)%R /\
  (forall j' : nat, (j' < 4)%nat ->
     (Nat.max (1 - 2) (2 - 1) < Nat.max (1 - j') (j' - 1))%nat ->
     (bias 1%nat j' < bias 1%nat 2%nat)%R).
Proof.
  apply (attention_bias_proximal_favours_close_positions 4 1 2); lia.
Defined.

Lemma segment_entry (tensor_type : dtype) (c : bool) :
  bool_to_float (negb c) * large_compatible_negative tensor_type =
  if c then 0 else large_compatible_negative tensor_type.
Proof. destruct c, tensor_type; reflexivity. Qed.

(** X6. For batches of one size, [attention_bias_same_segment] lets a query
    position see exactly the memory positions that carry its segment id: the
    bias is 0 there and [large_compatible_negative] of the dtype everywhere
    else.  Batches of different sizes, neither of them 1, are a shape
    error. *)
Theorem attention_bias_same_segment_visibility :
  (forall (tensor_type : dtype) (query_segment_id memory_segment_id : list (list Q)),
     List.length query_segment_id = List.length memory_segment_id ->
     exists bias : list (list (list (list Q))),
       attention_bias_same_segment tensor_type query_segment_id memory_segment_id
       = inr bias /\
       List.length bias = List.length query_segment_id /\
       forall b i j : nat,
         (b < List.length query_segment_id)%nat ->
         (i < List.length (nth b query_segment_id []))%nat ->
         (j < List.length (nth b memory_segment_id []))%nat ->
         nth j (nth i (nth 0 (nth b bias []) []) []) 0 =
         if Qeq_bool (nth i (nth b query_segment_id []) 0)
                     (nth j (nth b memory_segment_id []) 0)
         then 0 else large_compatible_negative tensor_type) /\
  (forall (tensor_type : dtype) (query_segment_id memory_segment_id : list (list Q)),
     List.length query_segment_id <> List.length memory_segment_id ->
     List.length query_segment_id <> 1%nat ->
     List.length memory_segment_id <> 1%nat ->
     raises (attention_bias_same_segment tensor_type
               query_segment_id memory_segment_id)).
Proof.
  split.
  - intros tensor_type q m Hlen.
    unfold attention_bias_same_segment, broadcast2.
    apply Nat.eqb_eq in Hlen. rewrite Hlen. apply Nat.eqb_eq in Hlen.
    eexists. split; [reflexivity |]. split.
    + unfold map2. rewrite !length_map, length_combine. lia.
    + intros b i j Hb Hi Hj.
      rewrite (KernelFacts.nth_map_default _ _ _ [])
        by (unfold map2; rewrite length_map, length_combine; lia).
      cbn [nth].
      rewrite (KernelFacts.nth_map2 _ _ _ _ [] []) by lia.
      rewrite (KernelFacts.nth_map_default _ _ _ 0) by exact Hi.
      rewrite (KernelFacts.nth_map_default _ _ _ 0) by exact Hj.
      apply segment_entry.
  - intros tensor_type q m Hlen Hq Hm.
    unfold attention_bias_same_segment, broadcast2.
    apply Nat.eqb_neq in Hlen. rewrite Hlen.
    destruct q as [| q1 [| q2 q]]; destruct m as [| m1 [| m2 m]];
      cbn in *; try congruence; exact I.
Qed.

Lemma same_segment_two_segments :
  exists bias : list (list (list (list Q))),
    attention_bias_same_segment float32 [[1; 1; 2]] [[1; 1; 2]] = inr bias /\
    List.length bias = 1%nat /\
    nth 2 (nth 0 (nth 0 (nth 0 bias []) []) []) 0 = - (1000000000 # 1) /\
    nth 1 (nth 0 (nth 0 (nth 0 bias []) []) []) 0 = 0.
Proof.
  destruct (proj1 attention_bias_same_segment_visibility
              float32 [[1; 1; 2]] [[1; 1; 2]] eq_refl) as (bias & Hb & Hl & He).
  exists bias. split; [exact Hb |]. split; [exact Hl |]. split.
  - apply (He 0%nat 0%nat 2%nat); cbn; lia.
  - apply (He 0%nat 0%nat 1%nat); cbn; lia.
Defined.

Lemma py_map_total {A B : Type} (f : A -> py B) (g : A -> B) (l : list A) :
  (forall a : A, In a l -> f a = inr (g a)) ->
  py_map f l = inr (map g l).
Proof.
  induction l as [| a l IH]; intros H; [reflexivity |].
  cbn [py_map map]. rewrite (H a) by now left.
  cbn. rewrite IH by (intros a' Ha'; apply H; now right). reflexivity.
Qed.

End MaskFacts.

(** ** Splitting the channels into heads *)

Module HeadFacts.

Import Heads.

Lemma concat_chunks {A : Type} (count size : nat) (l : list A) :
  List.length l = (count * size)%nat -> List.concat (chunks count size l) = l.
Proof.
  unfold chunks. revert l. induction count as [| count IH]; intros l Hl.
  - destruct l; [reflexivity | discriminate].
  - cbn [seq map List.concat]. cbn [Nat.mul] in *. rewrite skipn_O.
    rewrite <- seq_shift, map_map.
    transitivity (firstn size l ++ skipn size l); [| apply firstn_skipn].
    f_equal.
    rewrite <- (IH (skipn size l)) by (rewrite length_skipn; lia).
    f_equal. apply map_ext. intros i.
    rewrite skipn_skipn. do 2 f_equal. lia.
Qed.

Lemma chunks_shape {A : Type} (count size : nat) (l : list A) :
  List.length l = (count * size)%nat ->
  List.length (chunks count size l) = count /\
  Forall (fun c => List.length c = size) (chunks count size l).
Proof.
  intros Hl. unfold chunks. split; [now rewrite length_map, length_seq |].
  apply Forall_forall. intros c Hc. apply in_map_iff in Hc.
  destruct Hc as (i & <- & Hi). apply in_seq in Hi.
  rewrite length_firstn, length_skipn. nia.
Qed.

Lemma transpose_first_two_involutive {A : Type} (n m : nat)
    (x : list (list (list A))) :
  List.length x = n -> Forall (fun r => List.length r = m) x ->
  Sparse.transpose_first_two m n (Sparse.transpose_first_two n m x) = x.
Proof.
  intros Hn Hm. unfold Sparse.transpose_first_two.
  transitivity (map (fun i => nth i x []) (seq 0 n));
    [| rewrite <- Hn; apply DispatchFacts.map_nth_seq].
  apply map_ext_in. intros i Hi. apply in_seq in Hi.
  assert (List.length (nth i x []) = m) as Hrow.
  { rewrite Forall_forall in Hm. apply Hm. apply nth_In. lia. }
  transitivity (map (fun j => nth j (nth i x []) []) (seq 0 m));
    [| rewrite <- Hrow; apply DispatchFacts.map_nth_seq].
  apply map_ext_in. intros j Hj. apply in_seq in Hj.
  rewrite (DispatchFacts.nth_map_seq _ m j) by lia.
  rewrite (DispatchFacts.nth_map_seq _ n i) by lia.
  reflexivity.
Qed.

Lemma split_last_dimension_divides {A : Type} (m num_heads : nat)
    (x : list (list (list A))) :
  (0 < num_heads)%nat -> (m mod num_heads = 0)%nat ->
  split_last_dimension (Z.of_nat m) x (Z.of_nat num_heads) =
  inr (map (map (chunks num_heads (m / num_heads))) x).
Proof.
  intros Hn Hdiv. unfold split_last_dimension, py_mod, py_floordiv.
  replace (Z.of_nat num_heads =? 0)%Z with false by (symmetry; apply Z.eqb_neq; lia).
  cbn. rewrite <- Nat2Z.inj_mod, Hdiv. cbn.
  rewrite <- Nat2Z.inj_div.
  replace (Z.of_nat num_heads <? 0)%Z with false by (symmetry; apply Z.ltb_ge; lia).
  replace (Z.of_nat (m / num_heads) <? 0)%Z with false
    by (symmetry; apply Z.ltb_ge; lia).
  cbn. rewrite !Nat2Z.id. reflexivity.
Qed.

(** X7. When the number of heads divides the channels, [split_heads]
    succeeds with a tensor of shape
    [[batch, num_heads, length, channels / num_heads]], and [combine_heads]
    gives the original tensor back. *)
Theorem combine_heads_inverts_split_heads :
  forall (A : Type) (length m num_heads : nat) (x : list (list (list A))),
    (0 < num_heads)%nat -> (m mod num_heads = 0)%nat ->
    Forall (fun xb => List.length xb = length /\
                      Forall (fun row => List.length row = m) xb) x ->
    exists y : list (list (list (list A))),
      split_heads length (Z.of_nat m) x (Z.of_nat num_heads) = inr y /\
      List.length y = List.length x /\
      Forall (fun yb =>
                List.length yb = num_heads /\
                Forall (fun h =>
                          List.length h = length /\
                          Forall (fun row => List.length row = (m / num_heads)%nat) h)
                       yb) y /\
      combine_heads num_heads length y = x.
Proof.
  intros A length m num_heads x Hn Hdiv Hx.
  unfold split_heads. rewrite split_last_dimension_divides by assumption.
  cbn. rewrite Nat2Z.id. eexists. split; [reflexivity |].
  assert (m = num_heads * (m / num_heads))%nat as Hm.
  { now apply Nat.Div0.div_exact. }
  split; [now rewrite !length_map |]. split.
  - apply Forall_forall. intros yb Hyb.
    rewrite map_map in Hyb. apply in_map_iff in Hyb.
    destruct Hyb as (xb & <- & Hxb).
    rewrite Forall_forall in Hx. destruct (Hx xb Hxb) as [Hlen Hrows].
    unfold Sparse.transpose_first_two. split.
    + now rewrite length_map, length_seq.
    + apply Forall_forall. intros h Hh. apply in_map_iff in Hh.
      destruct Hh as (j & <- & Hj). apply in_seq in Hj. split.
      * now rewrite length_map, length_seq.
      * apply Forall_forall. intros row Hrow. apply in_map_iff in Hrow.
        destruct Hrow as (i & <- & Hi). apply in_seq in Hi.
        rewrite (KernelFacts.nth_map_default _ _ _ []) by lia.
        assert (List.length (nth i xb []) = (num_heads * (m / num_heads))%nat) as Hr.
        { rewrite Forall_forall in Hrows. rewrite <- Hm. apply Hrows.
          apply nth_In. lia. }
        destruct (chunks_shape num_heads (m / num_heads) (nth i xb []) Hr)
          as [Hc1 Hc2].
        rewrite Forall_forall in Hc2. apply Hc2. apply nth_In. lia.
  - unfold combine_heads, combine_last_two_dimensions.
    rewrite !map_map. etransitivity; [| apply map_id].
    apply map_ext_in. intros xb Hxb.
    rewrite Forall_forall in Hx. destruct (Hx xb Hxb) as [Hlen Hrows].
    rewrite transpose_first_two_involutive.
    + rewrite map_map. etransitivity; [| apply map_id].
      apply map_ext_in. intros row Hrow. apply concat_chunks.
      rewrite Forall_forall in Hrows. rewrite (Hrows row Hrow). exact Hm.
    + now rewrite length_map.
    + apply Forall_forall. intros c Hc. apply in_map_iff in Hc.
      destruct Hc as (row & <- & Hrow).
      apply chunks_shape. rewrite Forall_forall in Hrows.
      rewrite (Hrows row Hrow). exact Hm.
Qed.

Lemma split_heads_six_channels_three_heads :
  exists y : list (list (list (list nat))),
    split_heads 2 6 [[[1; 2; 3; 4; 5; 6]; [7; 8; 9; 10; 11; 12]]]%nat 3 = inr y /\
    List.length y = 1%nat /\
    Forall (fun yb =>
              List.length yb = 3%nat /\
              Forall (fun h =>
                        List.length h = 2%nat /\
                        Forall (fun row => List.length row = (6 / 3)%nat) h)
                     yb) y /\
    combine_heads 3 2 y = [[[1; 2; 3; 4; 5; 6]; [7; 8; 9; 10; 11; 12]]]%nat.
Proof.
  apply (combine_heads_inverts_split_heads nat 2 6 3
           [[[1; 2; 3; 4; 5; 6]; [7; 8; 9; 10; 11; 12]]]%nat);
    [lia | reflexivity |].
  repeat constructor.
Defined.

(** X8. [split_heads] fails before any reshape when the channels cannot be
    split evenly: a head count that does not divide the channels fails the
    assertion of [split_last_dimension], and a head count of zero raises
    [ZeroDivisionError]. *)
Theorem split_heads_rejects_uneven_split :
  forall (A : Type) (length : nat) (m num_heads : Z) (x : list (list (list A))),
    (num_heads = 0%Z ->
     split_heads length m x num_heads =
     inl (ZeroDivisionError "integer division or modulo by zero")) /\
    (num_heads <> 0%Z -> (m mod num_heads <> 0)%Z ->
     split_heads length m x num_heads = inl AssertionError).
Proof.
  intros A length m num_heads x. split.
  - intros ->. reflexivity.
  - intros Hn Hm. unfold split_heads, split_last_dimension, py_mod.
    apply Z.eqb_neq in Hn. rewrite Hn. cbn.
    apply Z.eqb_neq in Hm. rewrite Hm. reflexivity.
Qed.

Lemma split_heads_ten_channels_three_heads :
  split_heads 1 10 [[[1; 2; 3; 4; 5; 6; 7; 8; 9; 10]]]%nat 3 = inl AssertionError /\
  split_heads 1 10 [[[1; 2; 3; 4; 5; 6; 7; 8; 9; 10]]]%nat 0 =
  inl (ZeroDivisionError "integer division or modulo by zero").
Proof.
  split.
  - apply (split_heads_rejects_uneven_split nat 1 10 3); [lia | discriminate].
  - apply (split_heads_rejects_uneven_split nat 1 10 0). reflexivity.
Defined.

End HeadFacts.

(** ** Relative positions *)

Module RelativeFacts.

Import QOps Relative.
Local Open Scope Z_scope.

Lemma tf_range_length (start limit : Z) :
  List.length (tf_range start limit) = Z.to_nat (limit - start).
Proof. unfold tf_range. now rewrite length_map, length_seq. Qed.

Lemma nth_tf_range (start limit : Z) (i : nat) (d : Z) :
  (i < Z.to_nat (limit - start))%nat ->
  nth i (tf_range start limit) d = start + Z.of_nat i.
Proof.
  intros Hi. unfold tf_range.
  now rewrite (DispatchFacts.nth_map_seq _ _ i) by exact Hi.
Qed.

Lemma clip_by_value_bounds (t bound : Z) :
  0 <= bound -> 0 <= clip_by_value t (- bound) bound + bound <= 2 * bound.
Proof. unfold clip_by_value. lia. Qed.

Lemma map_seq_from {A : Type} (f : nat -> A) (a n : nat) :
  map f (seq a n) = map (fun i => f (a + i)%nat) (seq 0 n).
Proof.
  revert a. induction n as [| n IH]; intros a; [reflexivity |].
  cbn [seq map]. rewrite Nat.add_0_r. f_equal.
  rewrite IH, <- seq_shift, map_map.
  apply map_ext. intros i. f_equal. lia.
Qed.

(** The keys and the queries of the second branch: the queries are the last
    [length_q] of the key positions. *)
Lemma range_vec_q_aligned (length_q length_k : Z) :
  0 < length_q <= length_k ->
  slice_from (- length_q) (tf_range 0 length_k) =
  tf_range (length_k - length_q) length_k.
Proof.
  intros H. unfold slice_from. rewrite tf_range_length.
  replace (- length_q <? 0) with true by (symmetry; apply Z.ltb_lt; lia).
  rewrite Z.sub_0_r, Z2Nat.id by lia.
  rewrite Z.max_r by lia.
  unfold tf_range. rewrite skipn_map, skipn_seq, map_seq_from.
  rewrite Z.sub_0_r.
  replace (Z.to_nat length_k - Z.to_nat (length_k + - length_q))%nat
    with (Z.to_nat (length_k - (length_k - length_q))) by lia.
  apply map_ext. intros i. lia.
Qed.

Lemma relative_positions_matrix_uncached (length_q length_k bound : Z) :
  0 < length_q <= length_k ->
  _generate_relative_positions_matrix length_q length_k bound false =
  map (fun q => map (fun k => clip_by_value (k - q) (- bound) bound + bound)
                    (tf_range 0 length_k))
      (tf_range (length_k - length_q) length_k).
Proof.
  intros H. unfold _generate_relative_positions_matrix. cbn [negb].
  destruct (length_q =? length_k) eqn:E.
  - apply Z.eqb_eq in E. subst length_q. rewrite Z.sub_diag.
    rewrite !map_map. apply map_ext. intros q. now rewrite !map_map.
  - cbv zeta. rewrite range_vec_q_aligned by exact H.
    rewrite !map_map. apply map_ext. intros q. now rewrite !map_map.
Qed.

Lemma nth_relative_positions_matrix (length_q length_k bound : Z) (i j : nat) :
  0 < length_q <= length_k ->
  (i < Z.to_nat length_q)%nat -> (j < Z.to_nat length_k)%nat ->
  nth j (nth i (_generate_relative_positions_matrix length_q length_k bound false)
                []) 0 =
  clip_by_value (Z.of_nat j - (Z.of_nat i + (length_k - length_q)))
                (- bound) bound + bound.
Proof.
  intros H Hi Hj. rewrite relative_positions_matrix_uncached by exact H.
  rewrite (KernelFacts.nth_map_default _ _ _ 0)
    by (rewrite tf_range_length; lia).
  rewrite (KernelFacts.nth_map_default _ _ _ 0)
    by (rewrite tf_range_length; lia).
  rewrite !nth_tf_range by lia.
  f_equal. f_equal. lia.
Qed.

Lemma relative_positions_matrix_bounds
    (length_q length_k bound : Z) (cache : bool) :
  0 <= bound ->
  Forall (Forall (fun v => 0 <= v <= 2 * bound))
    (_generate_relative_positions_matrix length_q length_k bound cache).
Proof.
  intros Hb. unfold _generate_relative_positions_matrix.
  rewrite map_map. apply Forall_forall. intros row Hrow.
  apply in_map_iff in Hrow. destruct Hrow as (r & <- & _).
  rewrite map_map. apply Forall_forall. intros v Hv.
  apply in_map_iff in Hv. destruct Hv as (d & <- & _).
  now apply clip_by_value_bounds.
Qed.

(** X9. [_generate_relative_positions_matrix] for [length_q] queries against
    [length_k >= length_q] keys has one row per query and one column per key;
    query [i] stands at key position [i + length_k - length_q], and the entry
    for key [j] is their clipped distance shifted into
    [[0, 2 * max_relative_position]]. *)
Theorem relative_positions_align_queries_with_last_keys :
  forall (length_q length_k max_relative_position : Z),
    0 < length_q <= length_k -> 0 <= max_relative_position ->
    let final_mat :=
      _generate_relative_positions_matrix length_q length_k
        max_relative_position false in
    List.length final_mat = Z.to_nat length_q /\
    Forall (fun row => List.length row = Z.to_nat length_k) final_mat /\
    forall i j : nat,
      (i < Z.to_nat length_q)%nat -> (j < Z.to_nat length_k)%nat ->
      nth j (nth i final_mat []) 0 =
      clip_by_value (Z.of_nat j - (Z.of_nat i + (length_k - length_q)))
                    (- max_relative_position) max_relative_position
      + max_relative_position /\
      0 <= nth j (nth i final_mat []) 0 <= 2 * max_relative_position.
Proof.
  intros length_q length_k bound H Hb final_mat.
  assert (forall i j : nat,
            (i < Z.to_nat length_q)%nat -> (j < Z.to_nat length_k)%nat ->
            nth j (nth i final_mat []) 0 =
            clip_by_value (Z.of_nat j - (Z.of_nat i + (length_k - length_q)))
                          (- bound) bound + bound) as Hentry.
  { intros i j Hi Hj. now apply nth_relative_positions_matrix. }
  split; [| split].
  - subst final_mat. rewrite relative_positions_matrix_uncached by exact H.
    rewrite length_map, tf_range_length. f_equal. lia.
  - subst final_mat. rewrite relative_positions_matrix_uncached by exact H.
    apply Forall_forall. intros row Hrow.
    apply in_map_iff in Hrow. destruct Hrow as (q & <- & _).
    rewrite length_map, tf_range_length. f_equal. lia.
  - intros i j Hi Hj. split; [now apply Hentry |].
    rewrite Hentry by assumption. now apply clip_by_value_bounds.
Qed.

Lemma relative_positions_two_queries_four_keys :
  let final_mat := _generate_relative_positions_matrix 2 4 1 false in
  List.length final_mat = Z.to_nat 2 /\
  Forall (fun row => List.length row = Z.to_nat 4) final_mat /\
  forall i j : nat,
    (i < Z.to_nat 2)%nat -> (j < Z.to_nat 4)%nat ->
    nth j (nth i final_mat []) 0 =
    clip_by_value (Z.of_nat j - (Z.of_nat i + (4 - 2))) (- (1)) 1 + 1 /\
    0 <= nth j (nth i final_mat []) 0 <= 2 * 1.
Proof.
  apply (relative_positions_align_queries_with_last_keys 2 4 1); lia.
Defined.

(** X10. With [cache=True] the matrix is the single row a decoding step
    needs: the last row of the matrix of a self-attention over [length_k]
    positions. *)
Theorem cached_relative_positions_are_last_row :
  forall (length_q length_k max_relative_position : Z),
    0 < length_k ->
    _generate_relative_positions_matrix length_q length_k
      max_relative_position true =
    [last (_generate_relative_positions_matrix length_k length_k
             max_relative_position false) []].
Proof.
  intros length_q length_k bound H.
  unfold _generate_relative_positions_matrix. cbn [negb].
  rewrite Z.eqb_refl. cbn [map]. f_equal.
  rewrite !map_map.
  assert (tf_range 0 length_k =
          tf_range 0 (length_k - 1) ++ [length_k - 1]) as Hsplit.
  { unfold tf_range. rewrite !Z.sub_0_r.
    replace (Z.to_nat length_k) with (Z.to_nat (length_k - 1) + 1)%nat by lia.
    rewrite seq_app, map_app. cbn [seq map]. do 2 f_equal. lia. }
  rewrite Hsplit at 1. rewrite map_app. cbn [map]. rewrite last_last.
  rewrite !map_map. unfold tf_range.
  rewrite !map_map.
  replace (Z.to_nat (1 - (- length_k + 1))) with (Z.to_nat (length_k - 0)) by lia.
  apply map_ext. intros i. do 2 f_equal. lia.
Qed.

Lemma cached_relative_positions_three_keys :
  _generate_relative_positions_matrix 1 3 2 true =
  [last (_generate_relative_positions_matrix 3 3 2 false) []].
Proof.
  apply (cached_relative_positions_are_last_row 1 3 2). lia.
Defined.

Lemma gather_in_range (params : list (list Q)) (index : Z) :
  0 <= index < Z.of_nat (List.length params) ->
  gather params index = inr (nth (Z.to_nat index) params []).
Proof.
  intros H. unfold gather.
  replace (index <? 0) with false by (symmetry; apply Z.ltb_ge; lia).
  destruct (nth_error params (Z.to_nat index)) as [row |] eqn:E.
  - now rewrite (nth_error_nth _ _ [] E).
  - apply nth_error_None in E. lia.
Qed.

(** X11. [_generate_relative_positions_embeddings] never gathers outside of
    its table: with a table of [2 * max_relative_position + 1] rows every
    index of the matrix of relative positions names a row, whatever the
    lengths are and with or without the cache. *)
Theorem relative_positions_embeddings_stay_in_table :
  forall (stored : matrix) (length_q length_k : Z) (depth : nat)
         (max_relative_position : Z) (cache : bool),
    0 <= max_relative_position ->
    nrows stored = Z.to_nat (max_relative_position * 2 + 1) ->
    ncols stored = depth ->
    List.length (rows stored) = nrows stored ->
    _generate_relative_positions_embeddings stored length_q length_k depth
      max_relative_position cache =
    inr (map (map (fun index => nth (Z.to_nat index) (rows stored) []))
             (_generate_relative_positions_matrix length_q length_k
                max_relative_position cache)).
Proof.
  intros stored length_q length_k depth bound cache Hb Hr Hc Hlen.
  unfold _generate_relative_positions_embeddings.
  replace (bound * 2 + 1 <? 0) with false by (symmetry; apply Z.ltb_ge; lia).
  unfold tf_get_variable. rewrite Hr, Hc, !Nat.eqb_refl. cbn.
  pose proof (relative_positions_matrix_bounds length_q length_k bound cache Hb)
    as Hbounds.
  apply MaskFacts.py_map_total. intros row Hrow.
  apply MaskFacts.py_map_total. intros index Hindex.
  apply gather_in_range.
  rewrite Forall_forall in Hbounds. specialize (Hbounds row Hrow).
  rewrite Forall_forall in Hbounds. specialize (Hbounds index Hindex).
  rewrite Hlen, Hr. lia.
Qed.

Lemma relative_positions_embeddings_three_rows :
  _generate_relative_positions_embeddings
    (mk_matrix 3 1 [[(1 # 2)%Q]; [(1 # 3)%Q]; [(1 # 5)%Q]]) 2 2 1 1 false =
  inr (map (map (fun index =>
                   nth (Z.to_nat index) [[(1 # 2)%Q]; [(1 # 3)%Q]; [(1 # 5)%Q]] []))
           (_generate_relative_positions_matrix 2 2 1 false)).
Proof.
  apply (relative_positions_embeddings_stay_in_table
           (mk_matrix 3 1 [[(1 # 2)%Q]; [(1 # 3)%Q]; [(1 # 5)%Q]]) 2 2 1 1 false);
    [lia | reflexivity | reflexivity | reflexivity].
Defined.

End RelativeFacts.

(** ** Decoding steps in blocked raster-scan order *)

Module DecodeFacts.

Import Zip Decode.
Local Open Scope Z_scope.

Local Abbreviation prod l := (fold_right Z.mul 1 l).

Lemma prod_positive (l : list Z) : Forall (fun q => 0 < q) l -> 0 < prod l.
Proof.
  induction 1 as [| q l Hq _ IH]; cbn [fold_right]; [lia | nia].
Qed.

Lemma np_prod_int32_exact (l : list Z) :
  0 <= prod l < 2 ^ 31 -> np_prod_int32 l = prod l.
Proof.
  intros H. unfold np_prod_int32, wrap_int32.
  rewrite Z.mod_small by lia. lia.
Qed.

Lemma raster_loop_length (l : list Z) (step : Z) (acc : list Z) :
  List.length (raster_loop l step acc) = (List.length l + List.length acc)%nat.
Proof.
  revert step acc. induction l as [| q l IH]; intros step acc; [reflexivity |].
  cbn [raster_loop List.length]. rewrite IH. cbn [List.length]. lia.
Qed.

(** Every digit a loop finds is below its radix. *)
Lemma raster_loop_bounds (l : list Z) :
  Forall (fun q => 0 < q) l ->
  forall (step : Z) (acc radices : list Z),
    Forall2 (fun d q => 0 <= d < q) acc radices ->
    Forall2 (fun d q => 0 <= d < q) (raster_loop l step acc) (rev l ++ radices).
Proof.
  induction 1 as [| q l Hq _ IH]; intros step acc radices Hacc; [exact Hacc |].
  cbn [raster_loop rev]. rewrite <- app_assoc. cbn [app].
  apply IH. constructor; [| exact Hacc].
  unfold np_mod. replace (q =? 0) with false by (symmetry; apply Z.eqb_neq; lia).
  apply Z.mod_pos_bound. exact Hq.
Qed.

Lemma blocks_per_dimension_defined (query_shape tensor_shape : list Z) :
  Forall2 (fun q t => 0 < q <= t) query_shape tensor_shape ->
  Masks.py_map (fun tq => py_floordiv (fst tq) (snd tq))
               (List.combine tensor_shape query_shape) =
  inr (map2 Z.div tensor_shape query_shape).
Proof.
  intros H. unfold map2. apply MaskFacts.py_map_total.
  intros [t q] Hin. cbn [fst snd]. unfold py_floordiv.
  assert (0 < q) as Hq.
  { clear - H Hin. revert Hin.
    induction H as [| q' t' qs ts Hqt _ IH]; cbn [List.combine In]; [tauto |].
    intros [Heq | Hin]; [inversion Heq; subst; lia | now apply IH]. }
  replace (q =? 0) with false by (symmetry; apply Z.eqb_neq; lia).
  reflexivity.
Qed.

Lemma blocks_per_dimension_positive (query_shape tensor_shape : list Z) :
  Forall2 (fun q t => 0 < q <= t) query_shape tensor_shape ->
  Forall (fun b => 0 < b) (map2 Z.div tensor_shape query_shape).
Proof.
  unfold map2. induction 1 as [| q t qs ts Hqt _ IH]; cbn [List.combine map];
    constructor; [| exact IH].
  cbn [fst snd]. apply Z.div_str_pos. lia.
Qed.

Lemma final_index_bounds (query_shape tensor_shape : list Z) :
  Forall2 (fun q t => 0 < q <= t) query_shape tensor_shape ->
  forall within_block_index block_index : list Z,
    Forall2 (fun w q => 0 <= w < q) within_block_index query_shape ->
    Forall2 (fun b n => 0 <= b < n) block_index
            (map2 Z.div tensor_shape query_shape) ->
    Forall2 (fun i t => 0 <= i < t)
            (map3 (fun w b q => w + b * q) within_block_index block_index
                  query_shape)
            tensor_shape.
Proof.
  unfold map3, map2.
  induction 1 as [| q t qs ts Hqt _ IH]; intros ws bs Hw Hb.
  - inversion Hw; subst. cbn. constructor.
  - inversion Hw as [| w q' ws' qs' Hwq Hws]; subst.
    cbn [List.combine map fst snd] in Hb.
    inversion Hb as [| b n bs' ns' Hbn Hbs]; subst.
    cbn [List.combine map fst snd]. constructor; [| now apply IH].
    pose proof (Z.mul_div_le t q ltac:(lia)) as Hle.
    assert (b * q <= (t / q - 1) * q) by nia. nia.
Qed.

Lemma decode_step_to_index_in_tensor
    (decode_step : Z) (query_shape tensor_shape : list Z) :
  Forall2 (fun q t => 0 < q <= t) query_shape tensor_shape ->
  exists final_index : list Z,
    decode_step_to_index decode_step query_shape tensor_shape = inr final_index /\
    Forall2 (fun i t => 0 <= i < t) final_index tensor_shape.
Proof.
  intros H.
  unfold decode_step_to_index.
  rewrite (Forall2_length H), Nat.eqb_refl. cbn [negb].
  rewrite blocks_per_dimension_defined by exact H.
  eexists. split; [reflexivity |].
  assert (Forall (fun q => 0 < q) query_shape) as Hq.
  { clear - H. induction H; constructor; [lia | assumption]. }
  apply final_index_bounds; [exact H | |].
  - match goal with
    | |- Forall2 _ (raster_loop _ ?step _) _ =>
        pose proof (raster_loop_bounds (rev query_shape) (Forall_rev Hq)
                      step [] [] (Forall2_nil _)) as Hb
    end.
    now rewrite rev_involutive, app_nil_r in Hb.
  - match goal with
    | |- Forall2 _ (raster_loop _ ?step _) _ =>
        pose proof (raster_loop_bounds
                      (rev (map2 Z.div tensor_shape query_shape))
                      (Forall_rev (blocks_per_dimension_positive _ _ H))
                      step [] [] (Forall2_nil _)) as Hb
    end.
    now rewrite rev_involutive, app_nil_r in Hb.
Qed.

Lemma blocks_per_dimension_zero_query (query_shape tensor_shape : list Z) :
  List.length query_shape = List.length tensor_shape ->
  In 0 query_shape ->
  Masks.py_map (fun tq => py_floordiv (fst tq) (snd tq))
               (List.combine tensor_shape query_shape) =
  inl (ZeroDivisionError "integer division or modulo by zero").
Proof.
  revert tensor_shape.
  induction query_shape as [| q qs IH]; intros [| t ts] Hlen Hin;
    try discriminate; [destruct Hin |].
  cbn [List.combine Masks.py_map fst snd]. unfold py_floordiv.
  destruct (q =? 0) eqn:E; [reflexivity |].
  destruct Hin as [-> | Hin]; [discriminate |].
  cbn. rewrite IH by (cbn in Hlen; (lia || assumption)). reflexivity.
Qed.

(** X12. Whatever the decoding step is, negative or past the end included,
    [decode_step_to_index] returns an index that lies inside the tensor, as
    long as every dimension holds at least one whole query block.  Shapes of
    different ranks fail the assertion, and a query dimension of zero raises
    [ZeroDivisionError]. *)
Theorem decode_step_to_index_stays_in_tensor :
  (forall (decode_step : Z) (query_shape tensor_shape : list Z),
     Forall2 (fun q t => 0 < q <= t) query_shape tensor_shape ->
     exists final_index : list Z,
       decode_step_to_index decode_step query_shape tensor_shape = inr final_index /\
       Forall2 (fun i t => 0 <= i < t) final_index tensor_shape) /\
  (forall (decode_step : Z) (query_shape tensor_shape : list Z),
     List.length query_shape <> List.length tensor_shape ->
     decode_step_to_index decode_step query_shape tensor_shape =
     inl AssertionError) /\
  (forall (decode_step : Z) (query_shape tensor_shape : list Z),
     List.length query_shape = List.length tensor_shape ->
     In 0 query_shape ->
     decode_step_to_index decode_step query_shape tensor_shape =
     inl (ZeroDivisionError "integer division or modulo by zero")).
Proof.
  split; [| split].
  - intros. now apply decode_step_to_index_in_tensor.
  - intros s qs ts Hlen. unfold decode_step_to_index.
    apply Nat.eqb_neq in Hlen. now rewrite Hlen.
  - intros s qs ts Hlen Hzero. unfold decode_step_to_index.
    rewrite Hlen, Nat.eqb_refl. cbn [negb].
    now rewrite blocks_per_dimension_zero_query.
Qed.

Lemma decode_step_in_four_by_six :
  (exists final_index : list Z,
     decode_step_to_index 29 [2; 3] [4; 6] = inr final_index /\
     Forall2 (fun i t => 0 <= i < t) final_index [4; 6]) /\
  decode_step_to_index 29 [2; 3] [4; 6; 5] = inl AssertionError /\
  decode_step_to_index 29 [2; 0] [4; 6] =
  inl (ZeroDivisionError "integer division or modulo by zero").
Proof.
  split; [| split].
  - apply (proj1 decode_step_to_index_stays_in_tensor 29 [2; 3] [4; 6]).
    repeat constructor; lia.
  - apply (proj1 (proj2 decode_step_to_index_stays_in_tensor) 29 [2; 3] [4; 6; 5]).
    cbn. lia.
  - apply (proj2 (proj2 decode_step_to_index_stays_in_tensor) 29 [2; 0] [4; 6]);
      [reflexivity | cbn; tauto].
Defined.

Lemma prod_app (l1 l2 : list Z) : prod (l1 ++ l2) = prod l1 * prod l2.
Proof.
  induction l1 as [| x l1 IH]; cbn [app fold_right]; [lia |].
  rewrite IH. lia.
Qed.

Lemma prod_rev (l : list Z) : prod (rev l) = prod l.
Proof.
  induction l as [| x l IH]; [reflexivity |].
  cbn [rev]. rewrite prod_app, IH. cbn [fold_right]. lia.
Qed.

(** Steps below the product of the radices have different digits. *)
Lemma raster_loop_injective (l : list Z) :
  Forall (fun q => 0 < q) l ->
  forall (a b : Z) (acc acc' : list Z),
    0 <= a < prod l -> 0 <= b < prod l ->
    List.length acc = List.length acc' ->
    raster_loop l a acc = raster_loop l b acc' ->
    a = b /\ acc = acc'.
Proof.
  induction 1 as [| q l Hq Hl IH]; intros a b acc acc' Ha Hb Hlen Heq.
  - cbn [fold_right raster_loop] in *. split; [lia | exact Heq].
  - cbn [fold_right raster_loop] in *.
    pose proof (prod_positive l Hl) as Hp.
    unfold np_floordiv, np_mod in Heq.
    replace (q =? 0) with false in Heq by (symmetry; apply Z.eqb_neq; lia).
    apply IH in Heq.
    + destruct Heq as [Hdiv Hcons].
      assert (a mod q = b mod q) as Hmod by congruence.
      split; [| congruence].
      rewrite (Z.div_mod a q), (Z.div_mod b q) by lia. congruence.
    + split; [apply Z.div_pos; lia |].
      apply Z.div_lt_upper_bound; lia.
    + split; [apply Z.div_pos; lia |].
      apply Z.div_lt_upper_bound; lia.
    + cbn [List.length]. congruence.
Qed.

(** The index determines the digits within the block and the digits of the
    block. *)
Lemma final_index_injective (query_shape : list Z) :
  forall ws bs ws' bs' : list Z,
    Forall2 (fun w q => 0 <= w < q) ws query_shape ->
    Forall2 (fun w q => 0 <= w < q) ws' query_shape ->
    List.length bs = List.length query_shape ->
    List.length bs' = List.length query_shape ->
    map3 (fun w b q => w + b * q) ws bs query_shape =
    map3 (fun w b q => w + b * q) ws' bs' query_shape ->
    ws = ws' /\ bs = bs'.
Proof.
  unfold map3, map2.
  induction query_shape as [| q qs IH]; intros ws bs ws' bs' Hw Hw' Hb Hb' Heq.
  - inversion Hw; inversion Hw'; subst.
    destruct bs; [| discriminate]. destruct bs'; [| discriminate]. now split.
  - inversion Hw as [| w q1 ws1 qs1 Hwq Hws]; subst.
    inversion Hw' as [| w' q2 ws2 qs2 Hwq' Hws']; subst.
    destruct bs as [| b bs]; [discriminate |].
    destruct bs' as [| b' bs']; [discriminate |].
    cbn [List.combine map fst snd] in Heq.
    inversion Heq as [[Hhead Htail]].
    cbn [List.length] in Hb, Hb'.
    destruct (IH ws1 bs ws2 bs' Hws Hws' ltac:(lia) ltac:(lia) Htail) as [-> ->].
    assert (b = b') as -> by nia.
    assert (w = w') as -> by lia.
    now split.
Qed.

Lemma blocks_times_query_shape (query_shape tensor_shape : list Z) :
  Forall2 (fun q t => 0 < q /\ 0 < t /\ t mod q = 0) query_shape tensor_shape ->
  prod (map2 Z.div tensor_shape query_shape) * prod query_shape =
  prod tensor_shape.
Proof.
  unfold map2.
  induction 1 as [| q t qs ts (Hq & Ht & Hdiv) _ IH]; [reflexivity |].
  cbn [List.combine map fst snd fold_right].
  rewrite <- IH.
  rewrite (Z.div_mod t q) at 2 by lia. rewrite Hdiv. ring.
Qed.

Lemma whole_blocks (query_shape tensor_shape : list Z) :
  Forall2 (fun q t => 0 < q /\ 0 < t /\ t mod q = 0) query_shape tensor_shape ->
  Forall2 (fun q t => 0 < q <= t) query_shape tensor_shape.
Proof.
  induction 1 as [| q t qs ts (Hq & Ht & Hdiv) _ IH]; constructor; [| exact IH].
  split; [exact Hq |].
  apply Z.mod_divide in Hdiv; [| lia]. apply Z.divide_pos_le; assumption.
Qed.

Lemma decode_steps_injective
    (query_shape tensor_shape : list Z) (decode_step decode_step' : Z) :
  Forall2 (fun q t => 0 < q /\ 0 < t /\ t mod q = 0) query_shape tensor_shape ->
  prod query_shape < 2 ^ 31 ->
  0 <= decode_step < prod tensor_shape ->
  0 <= decode_step' < prod tensor_shape ->
  decode_step_to_index decode_step query_shape tensor_shape =
  decode_step_to_index decode_step' query_shape tensor_shape ->
  decode_step = decode_step'.
Proof.
  revert decode_step decode_step'.
  intros s s' Htile Hsmall Hs Hs' Heq.
  pose proof (whole_blocks _ _ Htile) as H.
  assert (Forall (fun q => 0 < q) query_shape) as Hq.
  { clear - H. induction H; constructor; [lia | assumption]. }
  pose proof (prod_positive _ Hq) as Hitems.
  pose proof (blocks_per_dimension_positive _ _ H) as Hblocks.
  pose proof (prod_positive _ Hblocks) as Hnb.
  pose proof (blocks_times_query_shape _ _ Htile) as Htotal.
  unfold decode_step_to_index in Heq.
  rewrite (Forall2_length H), Nat.eqb_refl in Heq. cbn [negb] in Heq.
  rewrite blocks_per_dimension_defined in Heq by exact H.
  cbn in Heq. inversion Heq as [Hindex]. clear Heq.
  rewrite np_prod_int32_exact in Hindex by lia.
  unfold np_floordiv, np_mod in Hindex.
  replace (prod query_shape =? 0) with false in Hindex
    by (symmetry; apply Z.eqb_neq; lia).
  set (blocks := map2 Z.div tensor_shape query_shape) in *.
  assert (forall step : Z,
            Forall2 (fun w q => 0 <= w < q)
                    (raster_loop (rev query_shape) step []) query_shape) as Hw.
  { intros step.
    pose proof (raster_loop_bounds (rev query_shape) (Forall_rev Hq)
                  step [] [] (Forall2_nil _)) as Hb.
    now rewrite rev_involutive, app_nil_r in Hb. }
  assert (List.length blocks = List.length query_shape) as Hlen.
  { subst blocks. unfold map2. rewrite length_map, length_combine.
    rewrite (Forall2_length H). lia. }
  apply final_index_injective in Hindex;
    [| apply Hw | apply Hw
     | rewrite raster_loop_length, length_rev; cbn [List.length]; lia
     | rewrite raster_loop_length, length_rev; cbn [List.length]; lia].
  destruct Hindex as [Hwithin Hblock].
  apply raster_loop_injective in Hwithin;
    [| now apply Forall_rev
     | rewrite prod_rev; apply Z.mod_pos_bound; lia
     | rewrite prod_rev; apply Z.mod_pos_bound; lia
     | reflexivity].
  apply raster_loop_injective in Hblock;
    [| now apply Forall_rev
     | rewrite prod_rev; split;
         [apply Z.div_pos; lia | apply Z.div_lt_upper_bound; nia]
     | rewrite prod_rev; split;
         [apply Z.div_pos; lia | apply Z.div_lt_upper_bound; nia]
     | reflexivity].
  destruct Hwithin as [Hmod _]. destruct Hblock as [Hdiv _].
  rewrite (Z.div_mod s (prod query_shape)),
          (Z.div_mod s' (prod query_shape)) by lia.
  congruence.
Qed.

(** X13. When the query blocks tile the tensor, the decoding steps
    [0 .. d1 * ... * dn - 1] are sent to pairwise different positions: no two
    steps of one pass over the tensor share an index. *)
Theorem decode_steps_have_distinct_indices :
  forall (query_shape tensor_shape : list Z) (decode_step decode_step' : Z),
    Forall2 (fun q t => 0 < q /\ 0 < t /\ t mod q = 0) query_shape tensor_shape ->
    prod query_shape < 2 ^ 31 ->
    0 <= decode_step < prod tensor_shape ->
    0 <= decode_step' < prod tensor_shape ->
    decode_step <> decode_step' ->
    decode_step_to_index decode_step query_shape tensor_shape <>
    decode_step_to_index decode_step' query_shape tensor_shape.
Proof.
  intros query_shape tensor_shape s s' Htile Hsmall Hs Hs' Hne Heq.
  apply Hne. now apply (decode_steps_injective query_shape tensor_shape).
Qed.

Lemma decode_steps_distinct_in_four_by_six :
  decode_step_to_index 7 [2; 3] [4; 6] = inr [0; 4] /\
  decode_step_to_index 13 [2; 3] [4; 6] = inr [2; 1] /\
  decode_step_to_index 7 [2; 3] [4; 6] <> decode_step_to_index 13 [2; 3] [4; 6].
Proof.
  split; [reflexivity |]. split; [reflexivity |].
  apply (decode_steps_have_distinct_indices [2; 3] [4; 6] 7 13).
  - repeat constructor; lia.
  - cbn. lia.
  - cbn. lia.
  - cbn. lia.
  - lia.
Defined.















End DecodeFacts.

(** ** Relative and absolute indexing of attention logits *)

Module SkewFacts.

Import Heads Skew.

Lemma nth_chunks {A : Type} (count size r c : nat) (l : list A) (d : A) :
  (r < count)%nat -> (c < size)%nat ->
  nth c (nth r (chunks count size l) []) d = nth (r * size + c) l d.
Proof.
  intros Hr Hc. unfold chunks.
  rewrite (DispatchFacts.nth_map_seq _ count r) by exact Hr.
  rewrite nth_firstn. apply Nat.ltb_lt in Hc. rewrite Hc.
  apply nth_skipn.
Qed.

Lemma chunks_row_length {A : Type} (count size r : nat) (l : list A) :
  (r < count)%nat -> ((r + 1) * size <= List.length l)%nat ->
  List.length (nth r (chunks count size l) []) = size.
Proof.
  intros Hr Hl. unfold chunks.
  rewrite (DispatchFacts.nth_map_seq _ count r) by exact Hr.
  rewrite length_firstn, length_skipn. nia.
Qed.

Lemma nth_concat_uniform {A : Type} (w : nat) (rows : list (list A)) (d : A) :
  Forall (fun row => List.length row = w) rows ->
  forall r c : nat, (c < w)%nat ->
    nth (r * w + c) (List.concat rows) d = nth c (nth r rows []) d.
Proof.
  induction 1 as [| row rows Hrow _ IH]; intros r c Hc.
  - cbn. now destruct (r * w + c)%nat, r, c.
  - cbn [List.concat]. destruct r as [| r].
    + cbn [Nat.mul Nat.add nth]. apply app_nth1. lia.
    + cbn [nth]. rewrite app_nth2 by (rewrite Hrow; cbn; lia).
      rewrite Hrow. replace (S r * w + c - w)%nat with (r * w + c)%nat
        by (cbn; lia).
      now apply IH.
Qed.

Section Matrix.

Context {A : Type} (zero : A) (length : nat) (m : list (list A)).
Hypothesis Hrows : List.length m = length.
Hypothesis Hcols : Forall (fun r => List.length r = length) m.

Lemma padded_left_uniform :
  Forall (fun r => List.length r = S length) (map (cons zero) m).
Proof.
  apply Forall_forall. intros r Hr. apply in_map_iff in Hr.
  destruct Hr as (r' & <- & Hr'). cbn [List.length].
  rewrite Forall_forall in Hcols. now rewrite (Hcols r' Hr').
Qed.

Lemma padded_left_length :
  List.length (List.concat (map (cons zero) m)) = (length * S length)%nat.
Proof.
  rewrite (ShapeFacts.concat_length_uniform (S length)) by apply padded_left_uniform.
  now rewrite length_map, Hrows.
Qed.

Lemma relative_to_absolute_masked_entry (i j : nat) :
  (j <= i)%nat -> (i < length)%nat ->
  nth j (nth i (relative_to_absolute_masked zero length m) []) zero =
  nth (j + length - 1 - i) (nth i m []) zero.
Proof.
  intros Hj Hi. unfold relative_to_absolute_masked.
  rewrite nth_skipn. rewrite nth_chunks by lia.
  replace ((1 + i) * length + j)%nat
    with (i * S length + (length - i + j))%nat by nia.
  rewrite (nth_concat_uniform (S length)) by (apply padded_left_uniform || lia).
  rewrite (KernelFacts.nth_map_default _ _ _ []) by lia.
  replace (length - i + j)%nat with (S (j + length - 1 - i)) by lia.
  reflexivity.
Qed.

Lemma relative_to_absolute_masked_shape :
  List.length (relative_to_absolute_masked zero length m) = length /\
  Forall (fun r => List.length r = length)
         (relative_to_absolute_masked zero length m).
Proof.
  unfold relative_to_absolute_masked. split.
  - rewrite length_skipn. unfold chunks. rewrite length_map, length_seq. lia.
  - apply Forall_forall. intros r Hr.
    apply (In_nth _ _ []) in Hr. destruct Hr as (i & Hi & <-).
    rewrite length_skipn in Hi. unfold chunks in Hi.
    rewrite length_map, length_seq in Hi.
    rewrite nth_skipn. apply chunks_row_length; [lia |].
    rewrite padded_left_length. nia.
Qed.

Lemma padded_top_uniform :
  Forall (fun r => List.length r = length) (repeat zero length :: m).
Proof. constructor; [apply repeat_length | exact Hcols]. Qed.

Lemma padded_top_length :
  List.length (List.concat (repeat zero length :: m)) = (S length * length)%nat.
Proof.
  rewrite (ShapeFacts.concat_length_uniform length) by apply padded_top_uniform.
  cbn [List.length]. now rewrite Hrows.
Qed.

Lemma absolute_to_relative_masked_entry (i j : nat) :
  (j <= i)%nat -> (i < length)%nat ->
  nth (j + length - 1 - i)
      (nth i (absolute_to_relative_masked zero length m) []) zero =
  nth j (nth i m []) zero.
Proof.
  intros Hj Hi. unfold absolute_to_relative_masked.
  assert (List.length (chunks length (length + 1)
                         (List.concat (repeat zero length :: m))) = length)
    as Hlen by (unfold chunks; now rewrite length_map, length_seq).
  rewrite (KernelFacts.nth_map_default _ _ _ [])
    by (rewrite length_firstn; lia).
  rewrite nth_firstn.
  replace (j + length - 1 - i <? length)%nat with true
    by (symmetry; apply Nat.ltb_lt; lia).
  rewrite nth_skipn, nth_firstn.
  replace (i <? length)%nat with true by (symmetry; apply Nat.ltb_lt; lia).
  rewrite nth_chunks by lia.
  replace (i * (length + 1) + (1 + (j + length - 1 - i)))%nat
    with (S i * length + j)%nat by nia.
  rewrite (nth_concat_uniform length) by (apply padded_top_uniform || lia).
  reflexivity.
Qed.

Lemma absolute_to_relative_masked_shape :
  List.length (absolute_to_relative_masked zero length m) = length /\
  Forall (fun r => List.length r = length)
         (absolute_to_relative_masked zero length m).
Proof.
  unfold absolute_to_relative_masked.
  assert (List.length (chunks length (length + 1)
                         (List.concat (repeat zero length :: m))) = length)
    as Hlen by (unfold chunks; now rewrite length_map, length_seq).
  split.
  - rewrite length_map, length_firstn. lia.
  - apply Forall_forall. intros r Hr. apply in_map_iff in Hr.
    destruct Hr as (r' & <- & Hr').
    rewrite firstn_all2 in Hr' by lia.
    apply (In_nth _ _ []) in Hr'. destruct Hr' as (i & Hi & <-).
    rewrite Hlen in Hi.
    rewrite length_firstn, length_skipn, chunks_row_length;
      [lia | exact Hi |].
    rewrite padded_top_length. nia.
Qed.

End Matrix.

Section Unmasked.

Context {A : Type} (zero : A) (length : nat).
Hypothesis Hpos : (0 < length)%nat.

Lemma padded_right_uniform (m : list (list A)) :
  Forall (fun r => List.length r = length) m ->
  Forall (fun r => List.length r = (2 * length - 1)%nat)
         (map (fun r => r ++ repeat zero (length - 1)) m).
Proof.
  intros Hcols. apply Forall_forall. intros r Hr. apply in_map_iff in Hr.
  destruct Hr as (r' & <- & Hr'). rewrite length_app, repeat_length.
  rewrite Forall_forall in Hcols. rewrite (Hcols r' Hr'). lia.
Qed.

Lemma absolute_to_relative_unmasked_entry (m : list (list A)) (i r : nat) :
  List.length m = length -> Forall (fun r => List.length r = length) m ->
  (i < length)%nat -> (length - 1 - i <= r)%nat -> (r <= 2 * length - 2 - i)%nat ->
  nth r (nth i (absolute_to_relative_unmasked zero length m) []) zero =
  nth (r + 1 + i - length) (nth i m []) zero.
Proof.
  intros Hrows Hcols Hi Hlo Hhi. unfold absolute_to_relative_unmasked.
  assert (forall l : list A, List.length (chunks length (2 * length) l) = length)
    as Hlen by (intros l; unfold chunks; now rewrite length_map, length_seq).
  rewrite (KernelFacts.nth_map_default _ _ _ [])
    by (rewrite length_firstn, Hlen; lia).
  rewrite nth_firstn.
  replace (r <? 2 * length - 1)%nat with true
    by (symmetry; apply Nat.ltb_lt; lia).
  rewrite nth_skipn, nth_firstn.
  replace (i <? length)%nat with true by (symmetry; apply Nat.ltb_lt; lia).
  rewrite nth_chunks by lia.
  rewrite app_nth2 by (rewrite repeat_length; nia).
  rewrite repeat_length.
  replace (i * (2 * length) + (1 + r) - length)%nat
    with (i * (2 * length - 1) + (r + 1 + i - length))%nat by nia.
  rewrite (nth_concat_uniform (2 * length - 1))
    by (now apply padded_right_uniform || lia).
  rewrite (KernelFacts.nth_map_default _ _ _ []) by lia.
  apply app_nth1.
  rewrite Forall_forall in Hcols. rewrite (Hcols (nth i m [])); [lia |].
  apply nth_In. lia.
Qed.

Lemma absolute_to_relative_unmasked_shape (m : list (list A)) :
  List.length m = length -> Forall (fun r => List.length r = length) m ->
  List.length (absolute_to_relative_unmasked zero length m) = length /\
  Forall (fun r => List.length r = (2 * length - 1)%nat)
         (absolute_to_relative_unmasked zero length m).
Proof.
  intros Hrows Hcols. unfold absolute_to_relative_unmasked.
  assert (forall l : list A, List.length (chunks length (2 * length) l) = length)
    as Hlen by (intros l; unfold chunks; now rewrite length_map, length_seq).
  split.
  - rewrite length_map, length_firstn, Hlen. lia.
  - apply Forall_forall. intros r Hr. apply in_map_iff in Hr.
    destruct Hr as (r' & <- & Hr').
    rewrite firstn_all2 in Hr' by (rewrite Hlen; lia).
    apply (In_nth _ _ []) in Hr'. destruct Hr' as (i & Hi & <-).
    rewrite Hlen in Hi.
    rewrite length_firstn, length_skipn, chunks_row_length; [lia | exact Hi |].
    rewrite length_app, repeat_length.
    rewrite (ShapeFacts.concat_length_uniform (2 * length - 1))
      by now apply padded_right_uniform.
    rewrite length_map, Hrows. nia.
Qed.

Lemma padded_column_uniform (m : list (list A)) :
  Forall (fun r => List.length r = (2 * length - 1)%nat) m ->
  Forall (fun r => List.length r = (2 * length)%nat)
         (map (fun r => r ++ [zero]) m).
Proof.
  intros Hcols. apply Forall_forall. intros r Hr. apply in_map_iff in Hr.
  destruct Hr as (r' & <- & Hr'). rewrite length_app. cbn [List.length].
  rewrite Forall_forall in Hcols. rewrite (Hcols r' Hr'). lia.
Qed.

Lemma relative_to_absolute_unmasked_entry (m : list (list A)) (i j : nat) :
  List.length m = length ->
  Forall (fun r => List.length r = (2 * length - 1)%nat) m ->
  (i < length)%nat -> (j < length)%nat ->
  nth j (nth i (relative_to_absolute_unmasked zero length m) []) zero =
  nth (length - 1 + j - i) (nth i m []) zero.
Proof.
  intros Hrows Hcols Hi Hj. unfold relative_to_absolute_unmasked.
  rewrite nth_firstn.
  replace (i <? length)%nat with true by (symmetry; apply Nat.ltb_lt; lia).
  rewrite (KernelFacts.nth_map_default _ _ _ [])
    by (unfold chunks; rewrite length_map, length_seq; lia).
  rewrite nth_skipn, nth_chunks by lia.
  assert (List.length (List.concat (map (fun r => r ++ [zero]) m))
          = (length * (2 * length))%nat) as Hflat.
  { rewrite (ShapeFacts.concat_length_uniform (2 * length))
      by now apply padded_column_uniform.
    now rewrite length_map, Hrows. }
  rewrite app_nth1 by (rewrite Hflat; nia).
  replace (i * (2 * length - 1) + (length - 1 + j))%nat
    with (i * (2 * length) + (length - 1 + j - i))%nat by nia.
  rewrite (nth_concat_uniform (2 * length))
    by (now apply padded_column_uniform || lia).
  rewrite (KernelFacts.nth_map_default _ _ _ []) by lia.
  apply app_nth1.
  rewrite Forall_forall in Hcols. rewrite (Hcols (nth i m [])); [lia |].
  apply nth_In. lia.
Qed.

Lemma relative_to_absolute_unmasked_shape (m : list (list A)) :
  List.length m = length ->
  Forall (fun r => List.length r = (2 * length - 1)%nat) m ->
  List.length (relative_to_absolute_unmasked zero length m) = length /\
  Forall (fun r => List.length r = length)
         (relative_to_absolute_unmasked zero length m).
Proof.
  intros Hrows Hcols. unfold relative_to_absolute_unmasked.
  assert (forall l : list A,
            List.length (chunks (length + 1) (2 * length - 1) l) = (length + 1)%nat)
    as Hlen by (intros l; unfold chunks; now rewrite length_map, length_seq).
  split.
  - rewrite length_firstn, length_map, Hlen. lia.
  - apply Forall_forall. intros r Hr.
    apply (In_nth _ _ []) in Hr. destruct Hr as (i & Hi & <-).
    rewrite length_firstn, length_map, Hlen in Hi.
    rewrite nth_firstn.
    replace (i <? length)%nat with true by (symmetry; apply Nat.ltb_lt; lia).
    rewrite (KernelFacts.nth_map_default _ _ _ []) by (rewrite Hlen; lia).
    rewrite length_skipn, chunks_row_length; [lia | lia |].
    rewrite length_app, repeat_length.
    rewrite (ShapeFacts.concat_length_uniform (2 * length))
      by now apply padded_column_uniform.
    rewrite length_map, Hrows. nia.
Qed.

Lemma unmasked_round_trip_matrix (m : list (list A)) :
  List.length m = length -> Forall (fun r => List.length r = length) m ->
  relative_to_absolute_unmasked zero length
    (absolute_to_relative_unmasked zero length m) = m.
Proof.
  intros Hrows Hcols.
  destruct (absolute_to_relative_unmasked_shape m Hrows Hcols) as [Hr1 Hc1].
  destruct (relative_to_absolute_unmasked_shape _ Hr1 Hc1) as [Hr2 Hc2].
  apply (nth_ext _ _ [] []); [congruence |].
  intros i Hi. rewrite Hr2 in Hi.
  assert (List.length (nth i m []) = length) as Hrow.
  { rewrite Forall_forall in Hcols. apply Hcols. apply nth_In. lia. }
  assert (List.length
            (nth i (relative_to_absolute_unmasked zero length
                      (absolute_to_relative_unmasked zero length m)) [])
          = length) as Hrow2.
  { rewrite Forall_forall in Hc2. apply Hc2. apply nth_In. lia. }
  apply (nth_ext _ _ zero zero); [congruence |].
  intros j Hj. rewrite Hrow2 in Hj.
  rewrite relative_to_absolute_unmasked_entry by assumption.
  rewrite absolute_to_relative_unmasked_entry by (assumption || lia).
  f_equal. lia.
Qed.

End Unmasked.

Lemma nth_batch_head {A B : Type} (f : list (list A) -> list (list B))
    (x : list (list (list (list A)))) (b h : nat)
    (xb : list (list (list A))) (m : list (list A)) :
  nth_error x b = Some xb -> nth_error xb h = Some m ->
  nth h (nth b (map (map f) x) []) [] = f m.
Proof.
  intros Hb Hh.
  rewrite (nth_error_nth _ _ _ (map_nth_error (map f) b x Hb)).
  now rewrite (nth_error_nth _ _ _ (map_nth_error f h xb Hh)).
Qed.

(** X16. The two masked conversions move every entry of the causal part as
    their documentation says: for a memory position [j] not after the query
    position [i], entry [[i, j]] in absolute indexing is entry
    [[i, j - i + length - 1]] in relative indexing, in both directions. *)
Theorem masked_conversions_follow_documented_indexing :
  forall (A : Type) (zero : A) (length : nat)
         (x : list (list (list (list A)))) (b h : nat)
         (xb : list (list (list A))) (m : list (list A)) (i j : nat),
    nth_error x b = Some xb -> nth_error xb h = Some m ->
    List.length m = length -> Forall (fun r => List.length r = length) m ->
    (j <= i)%nat -> (i < length)%nat ->
    nth j (nth i (nth h (nth b
      (_relative_position_to_absolute_position_masked zero length x) []) []) [])
      zero =
    nth (j + length - 1 - i) (nth i m []) zero /\
    nth (j + length - 1 - i) (nth i (nth h (nth b
      (_absolute_position_to_relative_position_masked zero length x) []) []) [])
      zero =
    nth j (nth i m []) zero.
Proof.
  intros A zero length x b h xb m i j Hb Hh Hrows Hcols Hj Hi.
  unfold _relative_position_to_absolute_position_masked,
         _absolute_position_to_relative_position_masked.
  rewrite !(nth_batch_head _ x b h xb m Hb Hh). split.
  - now apply relative_to_absolute_masked_entry.
  - now apply absolute_to_relative_masked_entry.
Qed.

Lemma masked_conversions_three_positions :
  nth 1 (nth 2 (nth 0 (nth 0
    (_relative_position_to_absolute_position_masked 0%Z 3
       [[[[1; 2; 3]; [4; 5; 6]; [7; 8; 9]]]]%Z) []) []) []) 0%Z =
  nth (1 + 3 - 1 - 2) (nth 2 [[1; 2; 3]; [4; 5; 6]; [7; 8; 9]]%Z []) 0%Z /\
  nth (1 + 3 - 1 - 2) (nth 2 (nth 0 (nth 0
    (_absolute_position_to_relative_position_masked 0%Z 3
       [[[[1; 2; 3]; [4; 5; 6]; [7; 8; 9]]]]%Z) []) []) []) 0%Z =
  nth 1 (nth 2 [[1; 2; 3]; [4; 5; 6]; [7; 8; 9]]%Z []) 0%Z.
Proof.
  apply (masked_conversions_follow_documented_indexing Z 0%Z 3
           [[[[1; 2; 3]; [4; 5; 6]; [7; 8; 9]]]]%Z 0 0
           [[[1; 2; 3]; [4; 5; 6]; [7; 8; 9]]]%Z
           [[1; 2; 3]; [4; 5; 6]; [7; 8; 9]]%Z 2 1);
    try reflexivity; try lia.
  repeat constructor.
Defined.

(** X17. On the causal part the two masked conversions undo each other:
    converting to absolute indexing and back leaves every relative entry
    [[i, r]] with [r >= length - 1 - i] as it was, and converting to relative
    indexing and back leaves every absolute entry [[i, j]] with [j <= i] as
    it was. *)
Theorem masked_conversions_round_trip :
  forall (A : Type) (zero : A) (length : nat)
         (x : list (list (list (list A)))) (b h : nat)
         (xb : list (list (list A))) (m : list (list A)) (i : nat),
    nth_error x b = Some xb -> nth_error xb h = Some m ->
    List.length m = length -> Forall (fun r => List.length r = length) m ->
    (i < length)%nat ->
    (forall r : nat, (length - 1 - i <= r)%nat -> (r < length)%nat ->
       nth r (nth i (nth h (nth b
         (_absolute_position_to_relative_position_masked zero length
            (_relative_position_to_absolute_position_masked zero length x))
         []) []) []) zero =
       nth r (nth i m []) zero) /\
    (forall j : nat, (j <= i)%nat ->
       nth j (nth i (nth h (nth b
         (_relative_position_to_absolute_position_masked zero length
            (_absolute_position_to_relative_position_masked zero length x))
         []) []) []) zero =
       nth j (nth i m []) zero).
Proof.
  intros A zero length x b h xb m i Hb Hh Hrows Hcols Hi.
  unfold _relative_position_to_absolute_position_masked,
         _absolute_position_to_relative_position_masked.
  rewrite !map_map.
  assert (forall f g : list (list A) -> list (list A),
            map (fun y => map g (map f y)) x = map (map (fun m => g (f m))) x)
    as Hfuse.
  { intros f g. apply map_ext. intros y. apply map_map. }
  rewrite !Hfuse, !(nth_batch_head _ x b h xb m Hb Hh).
  destruct (relative_to_absolute_masked_shape zero length m Hrows Hcols)
    as [Hr1 Hc1].
  destruct (absolute_to_relative_masked_shape zero length m Hrows Hcols)
    as [Hr2 Hc2].
  split.
  - intros r Hlo Hhi.
    pose proof (absolute_to_relative_masked_entry zero length
                  (relative_to_absolute_masked zero length m) Hr1 Hc1
                  i (r + i + 1 - length) ltac:(lia) Hi) as H1.
    replace (r + i + 1 - length + length - 1 - i)%nat with r in H1 by lia.
    rewrite H1.
    rewrite (relative_to_absolute_masked_entry zero length m Hrows Hcols)
      by lia.
    f_equal. lia.
  - intros j Hj.
    rewrite (relative_to_absolute_masked_entry zero length
               (absolute_to_relative_masked zero length m) Hr2 Hc2) by lia.
    now apply absolute_to_relative_masked_entry.
Qed.

Lemma masked_round_trip_three_positions :
  (forall r : nat, (3 - 1 - 1 <= r)%nat -> (r < 3)%nat ->
     nth r (nth 1 (nth 0 (nth 0
       (_absolute_position_to_relative_position_masked 0%Z 3
          (_relative_position_to_absolute_position_masked 0%Z 3
             [[[[1; 2; 3]; [4; 5; 6]; [7; 8; 9]]]]%Z)) []) []) []) 0%Z =
     nth r (nth 1 [[1; 2; 3]; [4; 5; 6]; [7; 8; 9]]%Z []) 0%Z) /\
  (forall j : nat, (j <= 1)%nat ->
     nth j (nth 1 (nth 0 (nth 0
       (_relative_position_to_absolute_position_masked 0%Z 3
          (_absolute_position_to_relative_position_masked 0%Z 3
             [[[[1; 2; 3]; [4; 5; 6]; [7; 8; 9]]]]%Z)) []) []) []) 0%Z =
     nth j (nth 1 [[1; 2; 3]; [4; 5; 6]; [7; 8; 9]]%Z []) 0%Z).
Proof.
  apply (masked_conversions_round_trip Z 0%Z 3
           [[[[1; 2; 3]; [4; 5; 6]; [7; 8; 9]]]]%Z 0 0
           [[[1; 2; 3]; [4; 5; 6]; [7; 8; 9]]]%Z
           [[1; 2; 3]; [4; 5; 6]; [7; 8; 9]]%Z 1);
    try reflexivity; try lia.
  repeat constructor.
Defined.

(** X18. Without a mask the conversions lose nothing: on a batch of
    [[length, length]] matrices, [length >= 1],
    [_absolute_position_to_relative_position_unmasked] succeeds, and
    [_relative_position_to_absolute_position_unmasked] turns its result back
    into the very same batch. *)
Theorem unmasked_conversions_round_trip :
  forall (A : Type) (zero : A) (length : nat)
         (x : list (list (list (list A)))),
    (0 < length)%nat ->
    Forall (Forall (fun m => List.length m = length /\
                             Forall (fun r => List.length r = length) m)) x ->
    exists y : list (list (list (list A))),
      _absolute_position_to_relative_position_unmasked zero length x = inr y /\
      _relative_position_to_absolute_position_unmasked zero length y = inr x.
Proof.
  intros A zero length x Hpos Hx.
  unfold _absolute_position_to_relative_position_unmasked,
         _relative_position_to_absolute_position_unmasked.
  replace (length =? 0)%nat with false by (symmetry; apply Nat.eqb_neq; lia).
  eexists. split; [reflexivity |]. cbn. f_equal.
  rewrite map_map. etransitivity; [| apply map_id].
  apply map_ext_in. intros xb Hxb.
  rewrite map_map. etransitivity; [| apply map_id].
  apply map_ext_in. intros m Hm.
  rewrite Forall_forall in Hx. specialize (Hx xb Hxb).
  rewrite Forall_forall in Hx. destruct (Hx m Hm) as [Hrows Hcols].
  now apply unmasked_round_trip_matrix.
Qed.

Lemma unmasked_round_trip_two_positions :
  exists y : list (list (list (list Z))),
    _absolute_position_to_relative_position_unmasked 0%Z 2 [[[[1; 2]; [3; 4]]]]%Z
    = inr y /\
    _relative_position_to_absolute_position_unmasked 0%Z 2 y
    = inr [[[[1; 2]; [3; 4]]]]%Z.
Proof.
  apply (unmasked_conversions_round_trip Z 0%Z 2 [[[[1; 2]; [3; 4]]]]%Z);
    [lia |].
  repeat constructor.
Defined.

End SkewFacts.

(** ** Padding to whole blocks *)

Module BlockFacts.

Import Blocks.
Local Open Scope Z_scope.

(** The padding [-l % b] brings [l] to the next multiple of [b]. *)
Lemma padding_to_next_multiple (l : nat) (b : Z) :
  0 < b ->
  0 <= (- Z.of_nat l) mod b < b /\
  (Z.of_nat l + (- Z.of_nat l) mod b) mod b = 0.
Proof.
  intros Hb. split; [apply Z.mod_pos_bound; lia |].
  rewrite Z.add_mod_idemp_r by lia.
  replace (Z.of_nat l + - Z.of_nat l) with 0 by lia.
  apply Z.mod_0_l. lia.
Qed.

Lemma nth_pad_height_width {A : Type} (zero : A) (h w depth hp wp : nat)
    (x : list (list (list (list A)))) (b i j : nat) :
  Forall (fun xb =>
            List.length xb = h /\
            Forall (fun row => List.length row = w /\
                               Forall (fun v => List.length v = depth) row) xb) x ->
  (b < List.length x)%nat -> (i < h + hp)%nat -> (j < w + wp)%nat ->
  nth j (nth i (nth b (pad_height_width zero w depth hp wp x) []) []) [] =
  if ((i <? h) && (j <? w))%nat%bool
  then nth j (nth i (nth b x []) []) []
  else repeat zero depth.
Proof.
  intros Hx Hb Hi Hj. unfold pad_height_width.
  rewrite (KernelFacts.nth_map_default _ _ _ []) by exact Hb.
  rewrite Forall_forall in Hx.
  destruct (Hx (nth b x []) (nth_In _ _ Hb)) as [Hh Hrows].
  destruct (i <? h)%nat eqn:Ei.
  - apply Nat.ltb_lt in Ei.
    rewrite app_nth1 by (rewrite length_map; lia).
    rewrite (KernelFacts.nth_map_default _ _ _ []) by lia.
    rewrite Forall_forall in Hrows.
    assert (i < List.length (nth b x []))%nat as Hi' by lia.
    destruct (Hrows (nth i (nth b x []) []) (nth_In _ _ Hi')) as [Hw _].
    destruct (j <? w)%nat eqn:Ej; cbn [andb].
    + apply Nat.ltb_lt in Ej. apply app_nth1. lia.
    + apply Nat.ltb_ge in Ej. rewrite app_nth2 by lia.
      apply nth_repeat_lt. lia.
  - apply Nat.ltb_ge in Ei. cbn [andb].
    rewrite app_nth2 by (rewrite length_map; lia).
    rewrite length_map, Hh.
    rewrite nth_repeat_lt by lia. apply nth_repeat_lt. lia.
Qed.

(** X19. For positive block sizes [pad_to_multiple_2d] pads the height and
    the width at their ends with the fewest zero vectors that make them
    multiples of the block sizes, and keeps every entry of the input where
    it was.  A block size of zero raises [ZeroDivisionError], and a block
    shape with fewer than two entries [IndexError]. *)
Theorem pad_to_multiple_2d_pads_to_next_multiple :
  (forall (A : Type) (zero : A) (h w depth : nat)
          (x : list (list (list (list A)))) (block_h block_w : Z),
     0 < block_h -> 0 < block_w ->
     Forall (fun xb =>
               List.length xb = h /\
               Forall (fun row => List.length row = w /\
                                  Forall (fun v => List.length v = depth) row) xb)
            x ->
     exists (height_padding width_padding : nat)
            (padded_x : list (list (list (list A)))),
       pad_to_multiple_2d zero h w depth x [block_h; block_w] = inr padded_x /\
       Z.of_nat height_padding < block_h /\
       Z.of_nat (h + height_padding) mod block_h = 0 /\
       Z.of_nat width_padding < block_w /\
       Z.of_nat (w + width_padding) mod block_w = 0 /\
       List.length padded_x = List.length x /\
       forall b i j : nat,
         (b < List.length x)%nat ->
         (i < h + height_padding)%nat -> (j < w + width_padding)%nat ->
         nth j (nth i (nth b padded_x []) []) [] =
         if ((i <? h) && (j <? w))%nat%bool
         then nth j (nth i (nth b x []) []) []
         else repeat zero depth) /\
  (forall (A : Type) (zero : A) (h w depth : nat)
          (x : list (list (list (list A)))) (block_w : Z),
     pad_to_multiple_2d zero h w depth x [0; block_w] =
     inl (ZeroDivisionError "integer division or modulo by zero")) /\
  (forall (A : Type) (zero : A) (h w depth : nat)
          (x : list (list (list (list A)))) (block_h : Z),
     block_h <> 0 ->
     pad_to_multiple_2d zero h w depth x [block_h] =
     inl (IndexError "list index out of range")).
Proof.
  split; [| split].
  - intros A zero h w depth x block_h block_w Hbh Hbw Hx.
    destruct (padding_to_next_multiple h block_h Hbh) as [Hh1 Hh2].
    destruct (padding_to_next_multiple w block_w Hbw) as [Hw1 Hw2].
    exists (Z.to_nat ((- Z.of_nat h) mod block_h)),
           (Z.to_nat ((- Z.of_nat w) mod block_w)).
    unfold pad_to_multiple_2d, list_index, py_mod. cbn.
    replace (block_h =? 0) with false by (symmetry; apply Z.eqb_neq; lia).
    replace (block_w =? 0) with false by (symmetry; apply Z.eqb_neq; lia).
    replace (- Z.of_nat h mod block_h <? 0) with false
      by (symmetry; apply Z.ltb_ge; lia).
    replace (- Z.of_nat w mod block_w <? 0) with false
      by (symmetry; apply Z.ltb_ge; lia).
    cbn. eexists. split; [reflexivity |].
    rewrite !Nat2Z.inj_add, !Z2Nat.id by lia.
    repeat (split; [lia || assumption |]).
    split; [unfold pad_height_width; now rewrite length_map |].
    intros b i j Hb Hi Hj. now apply nth_pad_height_width.
  - intros. reflexivity.
  - intros A zero h w depth x block_h Hb.
    unfold pad_to_multiple_2d, list_index, py_mod. cbn.
    apply Z.eqb_neq in Hb. rewrite Hb. reflexivity.
Qed.

Lemma pad_one_by_three_to_blocks_of_two :
  (exists (height_padding width_padding : nat)
          (padded_x : list (list (list (list Z)))),
     pad_to_multiple_2d 0 1 3 1 [[[[1]; [2]; [3]]]] [2; 2] = inr padded_x /\
     Z.of_nat height_padding < 2 /\
     Z.of_nat (1 + height_padding) mod 2 = 0 /\
     Z.of_nat width_padding < 2 /\
     Z.of_nat (3 + width_padding) mod 2 = 0 /\
     List.length padded_x = List.length [[[[1]; [2]; [3]]]] /\
     forall b i j : nat,
       (b < List.length [[[[1]; [2]; [3]]]])%nat ->
       (i < 1 + height_padding)%nat -> (j < 3 + width_padding)%nat ->
       nth j (nth i (nth b padded_x []) []) [] =
       if ((i <? 1) && (j <? 3))%nat%bool
       then nth j (nth i (nth b [[[[1]; [2]; [3]]]] []) []) []
       else repeat 0 1) /\
  pad_to_multiple_2d 0 1 3 1 [[[[1]; [2]; [3]]]] [2] =
  inl (IndexError "list index out of range").
Proof.
  split.
  - apply (proj1 pad_to_multiple_2d_pads_to_next_multiple Z 0 1%nat 3%nat 1%nat
             [[[[1]; [2]; [3]]]] 2 2); [lia | lia |].
    repeat constructor.
  - apply (proj2 (proj2 pad_to_multiple_2d_pads_to_next_multiple) Z 0 1%nat 3%nat
             1%nat [[[[1]; [2]; [3]]]] 2). lia.
Defined.

End BlockFacts.

(** ** The bucket of a token and the signs of its projections *)

Module LshCodeFacts.

Import QOps Lsh LshFacts.
Local Open Scope Q_scope.

Lemma Qlt_bool_false (a b : Q) : Qlt_bool a b = false -> b <= a.
Proof.
  unfold Qlt_bool. intros H. apply negb_false_iff in H.
  now apply Qle_bool_iff.
Qed.

Lemma Qlt_bool_true (a b : Q) : Qlt_bool a b = true -> a < b.
Proof.
  unfold Qlt_bool. intros H. apply negb_true_iff in H.
  apply Qnot_le_lt. intros Hle. apply Qle_bool_iff in Hle. congruence.
Qed.

(** [argmax_from] ends on an index that holds the largest value seen. *)
Lemma argmax_from_greatest (l : list Q) :
  forall (best : Q) (best_i i : nat),
    (best_i < i)%nat ->
    let r := argmax_from best best_i i l in
    let v := if (r <? i)%nat then best else nth (r - i) l 0 in
    (r = best_i \/ (i <= r)%nat) /\ best <= v /\ Forall (fun x => x <= v) l.
Proof.
  induction l as [| x l IH]; intros best best_i i Hlt; cbn [argmax_from].
  - cbv zeta. replace (best_i <? i)%nat with true
      by (symmetry; apply Nat.ltb_lt; lia).
    split; [now left |]. split; [apply Qle_refl | constructor].
  - destruct (Qlt_bool best x) eqn:E.
    + apply Qlt_bool_true in E.
      destruct (IH x i (S i) ltac:(lia)) as (Hr & Hx & Hall).
      cbv zeta in *. set (r := argmax_from x i (S i) l) in *.
      assert (i <= r)%nat as Hge by (destruct Hr; lia).
      replace (r <? i)%nat with false by (symmetry; apply Nat.ltb_ge; lia).
      assert ((if (r <? S i)%nat then x else nth (r - S i) l 0) =
              nth (r - i) (x :: l) 0) as Hv.
      { destruct (r <? S i)%nat eqn:Er.
        - apply Nat.ltb_lt in Er. replace (r - i)%nat with 0%nat by lia.
          reflexivity.
        - apply Nat.ltb_ge in Er. replace (r - i)%nat with (S (r - S i)) by lia.
          reflexivity. }
      rewrite Hv in *. split; [now right |]. split.
      * apply Qlt_le_weak in E. now apply (Qle_trans _ x).
      * now constructor.
    + apply Qlt_bool_false in E.
      destruct (IH best best_i (S i) ltac:(lia)) as (Hr & Hx & Hall).
      cbv zeta in *. set (r := argmax_from best best_i (S i) l) in *.
      assert ((if (r <? S i)%nat then best else nth (r - S i) l 0) =
              (if (r <? i)%nat then best else nth (r - i) (x :: l) 0)) as Hv.
      { destruct Hr as [Hr | Hr].
        - replace (r <? S i)%nat with true by (symmetry; apply Nat.ltb_lt; lia).
          replace (r <? i)%nat with true by (symmetry; apply Nat.ltb_lt; lia).
          reflexivity.
        - replace (r <? S i)%nat with false by (symmetry; apply Nat.ltb_ge; lia).
          replace (r <? i)%nat with false by (symmetry; apply Nat.ltb_ge; lia).
          replace (r - i)%nat with (S (r - S i)) by lia. reflexivity. }
      rewrite Hv in *. split; [destruct Hr; [now left | right; lia] |].
      split; [exact Hx |]. constructor; [| exact Hall].
      now apply (Qle_trans _ best).
Qed.

Lemma argmax_greatest (l : list Q) (j : nat) :
  (j < List.length l)%nat -> nth j l 0 <= nth (argmax l) l 0.
Proof.
  destruct l as [| x l]; cbn [List.length]; [lia |]. intros Hj.
  unfold argmax.
  destruct (argmax_from_greatest l x 0%nat 1%nat ltac:(lia)) as (Hr & Hx & Hall).
  cbv zeta in *. set (r := argmax_from x 0 1 l) in *.
  assert ((if (r <? 1)%nat then x else nth (r - 1) l 0) = nth r (x :: l) 0) as Hv.
  { destruct Hr as [-> | Hr]; [reflexivity |].
    replace (r <? 1)%nat with false by (symmetry; apply Nat.ltb_ge; lia).
    destruct r as [| r]; [lia |]. cbn [nth]. f_equal. lia. }
  rewrite Hv in *.
  destruct j as [| j]; [exact Hx |]. cbn [nth].
  rewrite Forall_forall in Hall. apply Hall. apply nth_In. lia.
Qed.

Local Abbreviation plus_minus_one := (fun x : Q => x = 1 \/ x = - (1)).

(** Two rows of signs agree everywhere exactly when their dot product is
    their length. *)
Lemma dot_signs_le (a c : list Q) :
  Forall plus_minus_one a -> Forall plus_minus_one c ->
  List.length a = List.length c ->
  dot a c <= inject_Z (Z.of_nat (List.length a)).
Proof.
  intros Ha. revert c. induction Ha as [| x a Hx _ IH]; intros c Hc Hlen.
  - destruct c; [| discriminate]. apply Qle_refl.
  - destruct c as [| y c]; [discriminate |].
    inversion Hc as [| ? ? Hy Hc']; subst.
    specialize (IH c Hc' ltac:(cbn in Hlen; lia)).
    unfold dot in *. cbn [List.combine map fold_right fst snd List.length].
    rewrite Nat2Z.inj_succ, <- Z.add_1_l, inject_Z_plus.
    change (inject_Z 1) with 1.
    destruct Hx as [-> | ->], Hy as [-> | ->]; Lqa.lra.
Qed.

Lemma dot_signs_eq (a c : list Q) :
  Forall plus_minus_one a -> Forall plus_minus_one c ->
  List.length a = List.length c ->
  inject_Z (Z.of_nat (List.length a)) <= dot a c -> a = c.
Proof.
  intros Ha. revert c. induction Ha as [| x a Hx Ha IH]; intros c Hc Hlen Hdot.
  - destruct c; [reflexivity | discriminate].
  - destruct c as [| y c]; [discriminate |].
    inversion Hc as [| ? ? Hy Hc']; subst.
    assert (List.length a = List.length c) as Hlen' by (cbn in Hlen; lia).
    pose proof (dot_signs_le a c Ha Hc' Hlen') as Hle.
    unfold dot in *. cbn [List.combine map fold_right fst snd List.length] in Hdot.
    rewrite Nat2Z.inj_succ, <- Z.add_1_l, inject_Z_plus in Hdot.
    change (inject_Z 1) with 1 in Hdot.
    destruct Hx as [-> | ->], Hy as [-> | ->];
      try (exfalso; Lqa.lra); f_equal; apply IH; try assumption; Lqa.lra.
Qed.

Lemma dot_signs_self (a : list Q) :
  Forall plus_minus_one a -> dot a a == inject_Z (Z.of_nat (List.length a)).
Proof.
  induction 1 as [| x a Hx _ IH]; [reflexivity |].
  unfold dot in *. cbn [List.combine map fold_right fst snd List.length].
  rewrite Nat2Z.inj_succ, <- Z.add_1_l, inject_Z_plus.
  change (inject_Z 1) with 1.
  destruct Hx as [-> | ->]; Lqa.lra.
Qed.

(** Every row of [H] binary digits is the zero-filled representation of a
    number below [2 ^ H]. *)
Lemma bin_double (i : nat) (b : bool) :
  (0 < i)%nat -> bin (2 * i + (if b then 1 else 0)) = bin i ++ [b].
Proof.
  intros Hi. unfold bin.
  destruct (N.of_nat i) as [| p] eqn:E; [lia |].
  replace (N.of_nat (2 * i + (if b then 1 else 0)))
    with (if b then Npos p~1 else Npos p~0) by (destruct b; lia).
  destruct b; reflexivity.
Qed.

Lemma zfill_bin_onto (H : nat) :
  forall bs : list bool, List.length bs = S H ->
    exists i : nat, (i < 2 ^ S H)%nat /\ zfill (S H) (bin i) = bs.
Proof.
  induction H as [| H IH]; intros bs Hlen.
  - destruct bs as [| b [| ? ?]]; try discriminate.
    exists (if b then 1 else 0)%nat. destruct b; cbn; split; (lia || reflexivity).
  - destruct (exists_last (l := bs)) as (bs' & b & ->);
      [intros ->; discriminate |].
    rewrite length_app in Hlen. cbn [List.length] in Hlen.
    destruct (IH bs' ltac:(lia)) as (i & Hi & Hbs).
    exists (2 * i + (if b then 1 else 0))%nat. split.
    + rewrite (Nat.pow_succ_r' 2 (S H)). destruct b; lia.
    + destruct (Nat.eq_dec i 0) as [-> | Hne].
      * cbn [Nat.mul Nat.add] in *. rewrite <- Hbs.
        unfold zfill.
        replace (bin (if b then 1 else 0)%nat) with [b] by (now destruct b).
        cbn [bin N.of_nat List.length]. cbn [List.length].
        replace (S (S H) - 1)%nat with (S H - 1 + 1)%nat by lia.
        rewrite repeat_app. cbn [repeat]. now rewrite <- app_assoc.
      * rewrite bin_double by lia. rewrite <- Hbs. unfold zfill.
        rewrite length_app. cbn [List.length].
        replace (S (S H) - (List.length (bin i) + 1))%nat
          with (S H - List.length (bin i))%nat by lia.
        now rewrite app_assoc.
Qed.

Lemma signs_as_bits (p : list Q) :
  Forall plus_minus_one p ->
  exists bs : list bool,
    List.length bs = List.length p /\
    map (fun b : bool => if b then 1 else - (1)) bs = p.
Proof.
  induction 1 as [| x p Hx _ (bs & Hlen & Hbs)]; [now exists [] |].
  destruct Hx as [-> | ->]; [exists (true :: bs) | exists (false :: bs)];
    cbn [List.length map]; now rewrite Hlen, Hbs.
Qed.

Lemma sign_plus_minus_one (x : Q) : ~ x == 0 -> plus_minus_one (sign x).
Proof.
  intros Hx. unfold sign. destruct (Qnum x ?= 0)%Z eqn:E; auto.
  exfalso. apply Hx. apply Z.compare_eq in E.
  unfold Qeq. cbn. rewrite E. reflexivity.
Qed.

(** The bucket [argmax] picks carries the sign pattern as its code. *)
Lemma bucket_code (H : nat) (p : list Q) :
  (0 < H)%nat -> List.length p = H -> Forall plus_minus_one p ->
  _idx_to_bits H
    (argmax (map (fun b => dot p (_idx_to_bits H b) / inject_Z (Z.of_nat H))
                 (seq 0 (2 ^ H)))) = p.
Proof.
  intros HH Hlen Hp.
  set (scores := map (fun b => dot p (_idx_to_bits H b) / inject_Z (Z.of_nat H))
                     (seq 0 (2 ^ H))).
  assert (List.length scores = (2 ^ H)%nat) as Hscores
    by (subst scores; now rewrite length_map, length_seq).
  assert (argmax scores < 2 ^ H)%nat as Ham.
  { rewrite <- Hscores. apply argmax_lt. intros E. rewrite E in Hscores.
    pose proof (pow2_pos H). cbn in Hscores. lia. }
  destruct (signs_as_bits p Hp) as (bs & Hbl & Hbs).
  destruct H as [| H']; [lia |].
  destruct (zfill_bin_onto H' bs ltac:(lia)) as (i0 & Hi0 & Hz).
  assert (_idx_to_bits (S H') i0 = p) as Hcode
    by (unfold _idx_to_bits; now rewrite Hz).
  pose proof (argmax_greatest scores i0 ltac:(lia)) as Hmax.
  subst scores.
  rewrite !(DispatchFacts.nth_map_seq _ _ _ 0) in Hmax by lia.
  rewrite Hcode in Hmax.
  assert (0 < inject_Z (Z.of_nat (S H'))) as Hpos.
  { rewrite <- (Zlt_Qlt 0). lia. }
  unfold Qdiv in Hmax.
  apply Qmult_le_r in Hmax; [| now apply Qinv_lt_0_compat].
  rewrite (dot_signs_self p Hp), Hlen in Hmax.
  symmetry. apply dot_signs_eq.
  - exact Hp.
  - apply _idx_to_bits_plus_minus_one.
  - rewrite _idx_to_bits_length by lia. exact Hlen.
  - rewrite Hlen. exact Hmax.
Qed.

(** X20. A token whose projections on the hyperplanes are all non-zero is
    assigned to the bucket whose binary code, written with [+1] and [-1], is
    the row of the signs of its projections; so two such tokens share a
    bucket exactly when they lie on the same side of every hyperplane. *)
Theorem bucket_code_is_sign_pattern :
  forall (stored : matrix) (depth H : nat) (trainable : bool)
         (lsh : LshGating) (x : matrix),
    (0 < H)%nat ->
    __init__ stored depth H 1 trainable = inr lsh ->
    ncols x = depth ->
    Forall (fun token =>
              Forall (fun j => ~ dot token (column j (t_vectors lsh)) == 0)
                     (seq 0 H))
           (rows x) ->
    exists buckets : list nat,
      get_gates lsh x =
      inr (mk_matrix (nrows x) (2 ^ H) (map (fun b => one_hot b (2 ^ H)) buckets)) /\
      Forall2 (fun token b =>
                 (b < 2 ^ H)%nat /\
                 _idx_to_bits H b =
                 map (fun j => sign (dot token (column j (t_vectors lsh))))
                     (seq 0 H))
              (rows x) buckets /\
      forall i j : nat,
        (i < List.length (rows x))%nat -> (j < List.length (rows x))%nat ->
        (nth i buckets 0%nat = nth j buckets 0%nat <->
         map (fun h => sign (dot (nth i (rows x) []) (column h (t_vectors lsh))))
             (seq 0 H) =
         map (fun h => sign (dot (nth j (rows x) []) (column h (t_vectors lsh))))
             (seq 0 H)).
Proof.
  intros stored depth H trainable lsh x HH Hinit Hx Hnz.
  pose proof (get_gates_refines _ _ _ _ _ _ HH Hinit Hx) as Hgates.
  destruct (init_inversion _ _ _ _ _ HH Hinit) as (E & Hr & Hc).
  exists (map (bucket_of_token lsh) (rows x)).
  rewrite map_map. split; [exact Hgates |].
  assert (forall token : list Q,
            bucket_of_token lsh token =
            argmax (map (fun b =>
                           dot (map (fun j => sign (dot token (column j (t_vectors lsh))))
                                    (seq 0 H))
                               (_idx_to_bits H b) / inject_Z (Z.of_nat H))
                        (seq 0 (2 ^ H)))) as Hbucket.
  { intros token. subst lsh. unfold bucket_of_token, bucket_scores, sign_pattern.
    cbn [t_vectors nb_hyperplanes nb_buckets]. now rewrite Hc. }
  assert (forall token : list Q,
            In token (rows x) ->
            _idx_to_bits H (bucket_of_token lsh token) =
            map (fun j => sign (dot token (column j (t_vectors lsh)))) (seq 0 H))
    as Hcode.
  { intros token Hin. rewrite Hbucket. apply bucket_code; [exact HH | |].
    - now rewrite length_map, length_seq.
    - rewrite Forall_forall in Hnz. specialize (Hnz token Hin).
      rewrite Forall_forall in Hnz.
      apply Forall_forall. intros s Hs. apply in_map_iff in Hs.
      destruct Hs as (j & <- & Hj). apply sign_plus_minus_one. now apply Hnz. }
  split.
  - clear Hgates. induction (rows x) as [| token l IH]; [constructor |].
    cbn [map]. constructor.
    + split; [| apply Hcode; now left].
      replace (2 ^ H)%nat with (nb_buckets lsh) by (subst lsh; reflexivity).
      apply bucket_of_token_lt. subst lsh. cbn. apply pow2_pos.
    + apply IH.
      * now inversion Hnz.
      * intros token' Hin. apply Hcode. now right.
  - intros i j Hi Hj.
    rewrite !(KernelFacts.nth_map_default _ _ _ []) by assumption.
    split; intros Heq.
    + rewrite <- !Hcode by now apply nth_In. now rewrite Heq.
    + rewrite !Hbucket. now rewrite Heq.
Qed.

Lemma bucket_codes_of_two_tokens :
  exists buckets : list nat,
    get_gates
      (mk_LshGating 2 1 2 1 false (mk_matrix 2 1 [[1]; [- (1)]])
         (mk_matrix 2 1 [[- (1)]; [1]]))
      (mk_matrix 2 2 [[3; 1]; [1; 3]]) =
    inr (mk_matrix 2 2 (map (fun b => one_hot b 2) buckets)) /\
    buckets = [1; 0]%nat.
Proof.
  destruct (bucket_code_is_sign_pattern
              (mk_matrix 2 1 [[1]; [- (1)]]) 2 1 false
              (mk_LshGating 2 1 2 1 false (mk_matrix 2 1 [[1]; [- (1)]])
                 (mk_matrix 2 1 [[- (1)]; [1]]))
              (mk_matrix 2 2 [[3; 1]; [1; 3]]))
    as (buckets & Hg & Hcodes & _).
  - lia.
  - reflexivity.
  - reflexivity.
  - repeat constructor; cbn; discriminate.
  - exists buckets. split; [exact Hg |].
    cbn in Hg. injection Hg as Hrows.
    destruct buckets as [| b0 [| b1 [| ? ?]]]; try discriminate.
    destruct b0 as [| [| ?]], b1 as [| [| ?]]; try discriminate. reflexivity.
Defined.

End LshCodeFacts.

(** ** Dense dot-product attention *)

Module AttentionFacts.

Import Vec Kernel KernelFacts.
Local Open Scope R_scope.

Lemma rsum_map_div (l : list R) (s : R) :
  rsum (map (fun x => x / s) l) = rsum l / s.
Proof.
  induction l as [| x l IH]; cbn [map rsum fold_right]; [lra |].
  change (fold_right Rplus 0) with rsum. rewrite IH. lra.
Qed.

Lemma softmax_sums_to_one (l : list R) : l <> [] -> rsum (softmax l) = 1.
Proof.
  intros Hne. unfold softmax.
  pose proof (FirstPositionFacts.exp_sum_positive l Hne) as Hs.
  rewrite <- (map_map exp (fun e => e / rsum (map exp l))).
  rewrite rsum_map_div. field. lra.
Qed.

Lemma softmax_all_positive (l : list R) : Forall (fun p => 0 < p) (softmax l).
Proof.
  apply Forall_forall. intros p Hp.
  apply (In_nth _ _ 0) in Hp. destruct Hp as (j & Hj & <-).
  unfold softmax in Hj. rewrite length_map in Hj.
  now apply softmax_positive.
Qed.

(** X21. Every row of attention weights [dot_product_attention] computes is
    a probability distribution over the keys: its entries are positive and
    sum to one, unless there is no key at all and the row is empty. *)
Theorem attention_weights_are_distributions :
  forall (q k : list (list R)) (bias : option (list (list R))),
    Forall (fun w => w = [] \/ (rsum w = 1 /\ Forall (fun p => 0 < p) w))
           (attention_weights q k bias).
Proof.
  intros q k bias. unfold attention_weights.
  apply Forall_forall. intros w Hw. apply in_map_iff in Hw.
  destruct Hw as (l & <- & _).
  destruct l as [| x l]; [now left |]. right. split.
  - now apply softmax_sums_to_one.
  - apply softmax_all_positive.
Qed.

Lemma vsum_length (depth : nat) (l : list (list R)) :
  Forall (fun r => List.length r = depth) l -> List.length (vsum depth l) = depth.
Proof.
  induction 1 as [| r l Hr _ IH]; [apply repeat_length |].
  change (vsum depth (r :: l)) with (vadd r (vsum depth l)).
  unfold vadd. rewrite length_map, length_combine, Hr, IH. lia.
Qed.

(** One coordinate of a weighted sum of rows. *)
Lemma nth_weighted_sum (depth c : nat) (l : list (R * list R)) :
  Forall (fun p => List.length (snd p) = depth) l -> (c < depth)%nat ->
  nth c (vsum depth (map (fun p => vscale (fst p) (snd p)) l)) 0 =
  rsum (map (fun p => fst p * nth c (snd p) 0) l).
Proof.
  intros Hl Hc. induction Hl as [| [w v] l Hv Hl IH].
  - cbn. unfold vzero. now rewrite nth_repeat.
  - cbn [map fst snd] in *.
    change (vsum depth (vscale w v :: map (fun p => vscale (fst p) (snd p)) l))
      with (vadd (vscale w v)
                 (vsum depth (map (fun p => vscale (fst p) (snd p)) l))).
    change (rsum (w * nth c v 0 :: map (fun p => fst p * nth c (snd p) 0) l))
      with (w * nth c v 0 + rsum (map (fun p => fst p * nth c (snd p) 0) l)).
    rewrite nth_vadd.
    + rewrite IH. f_equal. unfold vscale.
      now rewrite (nth_map_default _ _ _ 0) by lia.
    + unfold vscale. rewrite length_map. lia.
    + rewrite vsum_length; [lia |].
      apply Forall_forall. intros r Hr. apply in_map_iff in Hr.
      destruct Hr as ([w' v'] & <- & Hin). unfold vscale. rewrite length_map.
      rewrite Forall_forall in Hl. now apply (Hl (w', v')).
Qed.

Lemma weighted_sum_between (c : nat) (lo hi : R) (l : list (R * list R)) :
  Forall (fun p => 0 <= fst p /\ lo <= nth c (snd p) 0 <= hi) l ->
  lo * rsum (map fst l) <= rsum (map (fun p => fst p * nth c (snd p) 0) l)
  <= hi * rsum (map fst l).
Proof.
  induction 1 as [| [w v] l (Hw & Hv) _ IH]; cbn [map rsum fold_right fst snd].
  - lra.
  - change (fold_right Rplus 0) with rsum in *. cbn [fst snd] in *. nra.
Qed.

Lemma map_fst_combine {A B : Type} (la : list A) (lb : list B) :
  List.length la = List.length lb -> map fst (List.combine la lb) = la.
Proof.
  revert lb. induction la as [| a la IH]; intros [| b lb] H;
    try discriminate; [reflexivity |].
  cbn [List.combine map fst]. f_equal. apply IH. cbn in H. lia.
Qed.

(** The output row of query [i]: the values weighted by the softmax of its
    logits. *)
Lemma attention_row (depth_v : nat) (q k v : list (list R))
    (bias : option (list (list R))) (i : nat) :
  (i < List.length q)%nat ->
  match bias with
  | None => True
  | Some b => (i < List.length b)%nat /\
              List.length (nth i b []) = List.length k
  end ->
  exists logits : list R,
    List.length logits = List.length k /\
    nth i (dot_product_attention depth_v q k v bias) [] =
    vsum depth_v (map (fun p => vscale (fst p) (snd p))
                      (List.combine (softmax logits) v)).
Proof.
  intros Hi Hbias. unfold dot_product_attention, matmul_wv, attention_weights.
  destruct bias as [b |].
  - destruct Hbias as [Hb Hbl].
    exists (nth i (add_bias (matmul_qk q k) b) []). split.
    + now apply logits_row_length.
    + assert (i < List.length (add_bias (matmul_qk q k) b))%nat as Hlen.
      { unfold add_bias, matmul_qk.
        rewrite length_map, length_combine, length_map. lia. }
      rewrite (nth_map_default _ _ _ []) by (now rewrite length_map).
      now rewrite (nth_map_default _ _ _ []) by exact Hlen.
  - exists (nth i (matmul_qk q k) []). split.
    + unfold matmul_qk. rewrite (nth_map_default _ _ _ []) by exact Hi.
      now rewrite length_map.
    + assert (i < List.length (matmul_qk q k))%nat as Hlen
        by (unfold matmul_qk; now rewrite length_map).
      rewrite (nth_map_default _ _ _ []) by (now rewrite length_map).
      now rewrite (nth_map_default _ _ _ []) by exact Hlen.
Qed.

Lemma attention_output_between (depth_v : nat) (q k v : list (list R))
    (bias : option (list (list R))) (i c : nat) (lo hi : R) :
  (i < List.length q)%nat -> (c < depth_v)%nat ->
  k <> [] -> List.length v = List.length k ->
  match bias with
  | None => True
  | Some b => (i < List.length b)%nat /\
              List.length (nth i b []) = List.length k
  end ->
  Forall (fun r => List.length r = depth_v /\ lo <= nth c r 0 <= hi) v ->
  lo <= nth c (nth i (dot_product_attention depth_v q k v bias) []) 0 <= hi.
Proof.
  intros Hi Hc Hk Hv Hbias Hrange.
  destruct (attention_row depth_v q k v bias i Hi Hbias) as (l & Hl & ->).
  assert (l <> []) as Hne.
  { intros ->. destruct k; [congruence | discriminate]. }
  pose proof (softmax_sums_to_one l Hne) as Hsum.
  pose proof (softmax_all_positive l) as Hpos.
  assert (List.length (softmax l) = List.length v) as Hwv
    by (unfold softmax; rewrite length_map; congruence).
  rewrite nth_weighted_sum; [| | exact Hc].
  - assert (Forall (fun p => 0 <= fst p /\ lo <= nth c (snd p) 0 <= hi)
                   (List.combine (softmax l) v)) as Hall.
    { apply Forall_forall. intros [wj vj] Hp.
      pose proof (in_combine_l _ _ _ _ Hp) as Hwj.
      pose proof (in_combine_r _ _ _ _ Hp) as Hvj.
      rewrite Forall_forall in Hpos, Hrange. cbn [fst snd]. split.
      - specialize (Hpos wj Hwj). lra.
      - now apply Hrange. }
    pose proof (weighted_sum_between c lo hi _ Hall) as Hb.
    rewrite map_fst_combine, Hsum in Hb by exact Hwv. lra.
  - apply Forall_forall. intros [wj vj] Hp.
    pose proof (in_combine_r _ _ _ _ Hp) as Hvj.
    rewrite Forall_forall in Hrange. cbn [snd]. now apply Hrange.
Qed.

(** X22. The output of [dot_product_attention] for a query is a weighted
    average of the value rows: each coordinate lies between the smallest and
    the largest value of that coordinate.  With a single key the output is
    that key's value row, whatever the query, the key and the bias are; with
    no key at all it is the zero row. *)
Theorem attention_output_is_an_average_of_values :
  (forall (depth_v : nat) (q k v : list (list R))
          (bias : option (list (list R))) (i c : nat) (lo hi : R),
     (i < List.length q)%nat -> (c < depth_v)%nat ->
     k <> [] -> List.length v = List.length k ->
     match bias with
     | None => True
     | Some b => (i < List.length b)%nat /\
                 List.length (nth i b []) = List.length k
     end ->
     Forall (fun r => List.length r = depth_v /\ lo <= nth c r 0 <= hi) v ->
     lo <= nth c (nth i (dot_product_attention depth_v q k v bias) []) 0 <= hi) /\
  (forall (depth_v : nat) (q : list (list R)) (k1 v1 : list R)
          (bias : option (list (list R))) (i : nat),
     (i < List.length q)%nat -> List.length v1 = depth_v ->
     match bias with
     | None => True
     | Some b => (i < List.length b)%nat /\ List.length (nth i b []) = 1%nat
     end ->
     nth i (dot_product_attention depth_v q [k1] [v1] bias) [] = v1) /\
  (forall (depth_v : nat) (q : list (list R))
          (bias : option (list (list R))) (i : nat),
     (i < List.length q)%nat ->
     match bias with
     | None => True
     | Some b => (i < List.length b)%nat
     end ->
     nth i (dot_product_attention depth_v q [] [] bias) [] = vzero depth_v).
Proof.
  split; [| split].
  - intros. now apply (attention_output_between depth_v q k v bias).
  - intros depth_v q k1 v1 bias i Hi Hv Hbias.
    destruct (attention_row depth_v q [k1] [v1] bias i Hi Hbias)
      as (l & Hl & Hrow).
    assert (List.length
              (nth i (dot_product_attention depth_v q [k1] [v1] bias) [])
            = depth_v) as Hlen.
    { rewrite Hrow. apply vsum_length. apply Forall_forall. intros r Hr.
      apply in_map_iff in Hr. destruct Hr as ([wj vj] & <- & Hp).
      unfold vscale. rewrite length_map. cbn [snd].
      apply in_combine_r in Hp. destruct Hp as [<- | []]. exact Hv. }
    apply (nth_ext _ _ 0 0); [congruence |].
    intros c Hc. rewrite Hlen in Hc.
    assert (nth c v1 0 <=
            nth c (nth i (dot_product_attention depth_v q [k1] [v1] bias) []) 0
            <= nth c v1 0) as Heq.
    { apply (attention_output_between depth_v q [k1] [v1] bias);
        try assumption; try reflexivity; try discriminate.
      constructor; [| constructor]. split; [exact Hv | lra]. }
    lra.
  - intros depth_v q bias i Hi Hbias.
    unfold dot_product_attention, matmul_wv, attention_weights, matmul_qk.
    destruct bias as [b |].
    + unfold add_bias.
      rewrite (nth_map_default _ _ _ [])
        by (rewrite !length_map, length_combine, length_map; lia).
      now rewrite combine_nil.
    + rewrite (nth_map_default _ _ _ []) by (now rewrite !length_map).
      now rewrite combine_nil.
Qed.

Lemma attention_over_two_values :
  0 <= nth 0 (nth 0 (dot_product_attention 1 [[1]] [[1]; [0]] [[0]; [1]] None) []) 0
  <= 1 /\
  nth 0 (dot_product_attention 1 [[1]] [[1]] [[5]] None) [] = [5] /\
  nth 0 (dot_product_attention 1 [[1]] [] [] None) [] = vzero 1.
Proof.
  split; [| split].
  - apply (proj1 attention_output_is_an_average_of_values
             1%nat [[1]] [[1]; [0]] [[0]; [1]] None 0%nat 0%nat 0 1);
      try (cbn; lia); try discriminate; try reflexivity; try exact I.
    repeat constructor; cbn; lra.
  - apply (proj1 (proj2 attention_output_is_an_average_of_values)
             1%nat [[1]] [1] [5] None 0%nat);
      [cbn; lia | reflexivity | exact I].
  - apply (proj2 (proj2 attention_output_is_an_average_of_values)
             1%nat [[1]] None 0%nat); [cbn; lia | exact I].
Defined.

End AttentionFacts.

(** ** Timing signals *)

Module TimingFacts.

Import Timing.
Local Open Scope R_scope.

Lemma log_timescale_ratio_defined (min_timescale max_timescale : R) :
  0 < min_timescale -> 0 < max_timescale ->
  log_timescale_ratio min_timescale max_timescale =
  inr (ln (max_timescale / min_timescale)).
Proof.
  intros Hmin Hmax. unfold log_timescale_ratio.
  destruct (Req_dec_T min_timescale 0) as [E | _]; [lra |].
  destruct (Rle_lt_dec (max_timescale / min_timescale) 0) as [Hle | _];
    [| reflexivity].
  pose proof (Rdiv_lt_0_compat _ _ Hmax Hmin). lra.
Qed.

Section Signal.

Variables (length channels : nat) (min_timescale max_timescale : R)
          (start_index : Z).

(** The frequency of the pair of channels [c] and [c + channels / 2]. *)
Local Abbreviation frequency :=
  (fun c : nat =>
     min_timescale *
     exp (INR c * - (ln (max_timescale / min_timescale) /
                     Rmax (INR (channels / 2) - 1) 1))).

Local Abbreviation signal :=
  (map (fun r => r ++ repeat 0 (channels mod 2))
     (map (fun r => map sin r ++ map cos r)
        (map (fun p => map (fun t => p * t)
                           (map frequency (seq 0 (channels / 2))))
             (map (fun i => IZR (Z.of_nat i + start_index)) (seq 0 length))))).

Lemma signal_row (p : nat) :
  (p < length)%nat ->
  nth p signal [] =
  map (fun c => sin (IZR (Z.of_nat p + start_index) * frequency c))
      (seq 0 (channels / 2)) ++
  map (fun c => cos (IZR (Z.of_nat p + start_index) * frequency c))
      (seq 0 (channels / 2)) ++
  repeat 0 (channels mod 2).
Proof.
  intros Hp. rewrite !map_map.
  rewrite (KernelFacts.nth_map_default _ _ _ 0%nat) by now rewrite length_seq.
  rewrite seq_nth by exact Hp. cbn [Nat.add].
  rewrite !map_map, <- app_assoc. reflexivity.
Qed.

Lemma signal_sin (p c : nat) :
  (p < length)%nat -> (c < channels / 2)%nat ->
  nth c (nth p signal []) 0 = sin (IZR (Z.of_nat p + start_index) * frequency c).
Proof.
  intros Hp Hc. rewrite signal_row by exact Hp.
  rewrite app_nth1 by now rewrite length_map, length_seq.
  now rewrite (DispatchFacts.nth_map_seq _ _ c).
Qed.

Lemma signal_cos (p c : nat) :
  (p < length)%nat -> (c < channels / 2)%nat ->
  nth (c + channels / 2) (nth p signal []) 0 =
  cos (IZR (Z.of_nat p + start_index) * frequency c).
Proof.
  intros Hp Hc. rewrite signal_row by exact Hp.
  rewrite app_nth2 by (rewrite length_map, length_seq; lia).
  rewrite length_map, length_seq.
  replace (c + channels / 2 - channels / 2)%nat with c by lia.
  rewrite app_nth1 by now rewrite length_map, length_seq.
  now rewrite (DispatchFacts.nth_map_seq _ _ c).
Qed.

Lemma signal_shape :
  List.length signal = length /\
  Forall (fun row => List.length row = channels /\
                     Forall (fun s => -1 <= s <= 1) row) signal.
Proof.
  split; [now rewrite !length_map, length_seq |].
  apply Forall_forall. intros row Hrow.
  apply (In_nth _ _ []) in Hrow. destruct Hrow as (p & Hp & <-).
  assert (p < length)%nat as Hp'
    by (now rewrite !length_map, length_seq in Hp).
  rewrite signal_row by exact Hp'. split.
  - rewrite !length_app, !length_map, !length_seq, repeat_length.
    pose proof (Nat.div_mod_eq channels 2). lia.
  - apply Forall_app. split; [| apply Forall_app; split].
    + apply Forall_forall. intros s Hs. apply in_map_iff in Hs.
      destruct Hs as (c & <- & _). apply SIN_bound.
    + apply Forall_forall. intros s Hs. apply in_map_iff in Hs.
      destruct Hs as (c & <- & _). apply COS_bound.
    + apply Forall_forall. intros s Hs. apply repeat_spec in Hs. lra.
Qed.

Lemma signal_shift (p k c : nat) :
  (p + k < length)%nat -> (c < channels / 2)%nat ->
  nth c (nth (p + k) signal []) 0 =
  nth c (nth p signal []) 0 * cos (INR k * frequency c) +
  nth (c + channels / 2) (nth p signal []) 0 * sin (INR k * frequency c) /\
  nth (c + channels / 2) (nth (p + k) signal []) 0 =
  nth (c + channels / 2) (nth p signal []) 0 * cos (INR k * frequency c) -
  nth c (nth p signal []) 0 * sin (INR k * frequency c).
Proof.
  intros Hpk Hc.
  rewrite !signal_sin, !signal_cos by lia.
  replace (IZR (Z.of_nat (p + k) + start_index) * frequency c)
    with (IZR (Z.of_nat p + start_index) * frequency c + INR k * frequency c).
  - rewrite sin_plus, cos_plus. split; reflexivity.
  - rewrite Nat2Z.inj_add, !plus_IZR, <- !INR_IZR_INZ. ring.
Qed.

Lemma get_timing_signal_1d_signal :
  0 < min_timescale -> 0 < max_timescale ->
  get_timing_signal_1d length channels min_timescale max_timescale start_index =
  inr [signal].
Proof.
  intros Hmin Hmax. unfold get_timing_signal_1d.
  rewrite log_timescale_ratio_defined by assumption. cbn.
  rewrite !map_map. reflexivity.
Qed.

End Signal.

(** X23. For positive timescales [get_timing_signal_1d] returns one sequence
    of [length] rows of exactly [channels] entries, all between [-1] and [1];
    and, as its documentation promises, the signal [k] positions further on
    is a rotation of the signal here by an angle that depends on [k] and the
    channel only, not on the position. *)
Theorem timing_signal_shape_and_shift :
  forall (length channels : nat) (min_timescale max_timescale : R)
         (start_index : Z),
    0 < min_timescale -> 0 < max_timescale ->
    exists signal : list (list R),
      get_timing_signal_1d length channels min_timescale max_timescale
        start_index = inr [signal] /\
      List.length signal = length /\
      Forall (fun row => List.length row = channels /\
                         Forall (fun s => -1 <= s <= 1) row) signal /\
      forall c : nat, (c < channels / 2)%nat ->
        exists frequency : R,
          forall p k : nat, (p + k < length)%nat ->
            nth c (nth (p + k) signal []) 0 =
            nth c (nth p signal []) 0 * cos (INR k * frequency) +
            nth (c + channels / 2) (nth p signal []) 0 * sin (INR k * frequency) /\
            nth (c + channels / 2) (nth (p + k) signal []) 0 =
            nth (c + channels / 2) (nth p signal []) 0 * cos (INR k * frequency) -
            nth c (nth p signal []) 0 * sin (INR k * frequency).
Proof.
  intros length channels min_timescale max_timescale start_index Hmin Hmax.
  eexists. split; [now apply get_timing_signal_1d_signal |].
  destruct (signal_shape length channels min_timescale max_timescale start_index)
    as [Hlen Hrows].
  split; [exact Hlen |]. split; [exact Hrows |].
  intros c Hc. eexists. intros p k Hpk.
  now apply signal_shift.
Qed.

Lemma timing_signal_five_channels :
  exists signal : list (list R),
    get_timing_signal_1d 3 5 1 10000 0 = inr [signal] /\
    List.length signal = 3%nat /\
    Forall (fun row => List.length row = 5%nat /\
                       Forall (fun s => -1 <= s <= 1) row) signal.
Proof.
  destruct (timing_signal_shape_and_shift 3 5 1 10000 0)
    as (signal & Hs & Hl & Hr & _); [lra | lra |].
  exists signal. auto.
Defined.

End TimingFacts.
